(** * mylang: lexer, recursive-descent parser, evaluator and REPL of main.py

    A shallow embedding of the expression pipeline of [main.py]
    ([Lexer.tokenize], [Parser], [Interpreter], [repl]) and the properties
    of it that the specification states.

    Python text is modelled as a list of characters; a character is a code
    point below 256 (on that range the class of decimal digits of [re] and
    of [int] is exactly 0-9).  Python integers are [Z]; Python floats are
    binary64 numbers, [spec_float] at precision 53 and maximal exponent 1024.
    A call either returns, raises, or does not return: the two [while] loops
    of the parser take a fuel argument and answer [Timeout] only when the
    fuel is used up.

    The interpreter is CPython 3.11 or later with its default settings, the
    file run as a script: [int] converts at most 4300 digits from or to
    text, and the stack holds at most 1000 calls, of which the module,
    [repl] and [interpret] take three.  Memory is not part of the model. *)

From Stdlib Require Import String Ascii ZArith QArith Lia Bool Arith PeanoNat List.
From Stdlib Require Import Floats.SpecFloat.
Import ListNotations.
Close Scope Q_scope.
Close Scope Z_scope.

(** ** Python text *)

Definition str := list ascii.

Definition py (s : string) : str := list_ascii_of_string s.

Definition str_eqb (a b : str) : bool :=
  if list_eq_dec ascii_dec a b then true else false.

(** ** Exceptions and outcomes *)

Inductive exn_class :=
| Exception | IndexError | TypeError | ZeroDivisionError | OverflowError
| ValueError | RecursionError.

(** An exception object: its class and [str(e)]. *)
Record exn := { exn_cls : exn_class; exn_msg : str }.

Inductive outcome (A : Type) :=
| Ok (a : A)
| Raise (e : exn)
| Timeout.

Arguments Ok {A} a.
Arguments Raise {A} e.
Arguments Timeout {A}.

Definition bind {A B} (m : outcome A) (k : A -> outcome B) : outcome B :=
  match m with
  | Ok a => k a
  | Raise e => Raise e
  | Timeout => Timeout
  end.

Notation "x <- m ;; k" := (bind m (fun x => k))
  (at level 61, m at next level, right associativity).
Notation "' p <- m ;; k" := (bind m (fun x => let p := x in k))
  (at level 61, p pattern, m at next level, right associativity).

Definition raise {A} (c : exn_class) (msg : string) : outcome A :=
  Raise {| exn_cls := c; exn_msg := py msg |}.

(** ** Character classes and the regular expressions of [patterns] *)

Definition dquote : ascii := ascii_of_nat 34.
Definition newline : ascii := ascii_of_nat 10.
Definition tab : ascii := ascii_of_nat 9.
Definition carriage_return : ascii := ascii_of_nat 13.
Definition backslash : ascii := ascii_of_nat 92.
Definition squote : ascii := ascii_of_nat 39.

Definition in_range (lo hi c : ascii) : bool :=
  (nat_of_ascii lo <=? nat_of_ascii c) && (nat_of_ascii c <=? nat_of_ascii hi).

Definition is_char (a c : ascii) : bool := Ascii.eqb a c.

(** a decimal digit *)
Definition is_digit (c : ascii) : bool := in_range "0" "9" c.
(** a letter or underscore *)
Definition is_ident_start (c : ascii) : bool :=
  in_range "a" "z" c || in_range "A" "Z" c || is_char "_" c.
(** a letter, digit or underscore *)
Definition is_ident_char (c : ascii) : bool :=
  in_range "a" "z" c || in_range "A" "Z" c || in_range "0" "9" c
  || is_char "_" c.
(** any character but the double quote *)
Definition is_not_dquote (c : ascii) : bool := negb (is_char dquote c).
(** one of the four operator characters *)
Definition is_operator (c : ascii) : bool :=
  is_char "+" c || is_char "-" c || is_char "*" c || is_char "/" c.
(** a space or a tab *)
Definition is_blank (c : ascii) : bool := is_char " " c || is_char tab c.

(** The longest run of [f]-characters [s] starts with, and what follows. *)
Fixpoint take_while (f : ascii -> bool) (s : str) : str :=
  match s with
  | c :: s' => if f c then c :: take_while f s' else []
  | [] => []
  end.

Fixpoint drop_while (f : ascii -> bool) (s : str) : str :=
  match s with
  | c :: s' => if f c then drop_while f s' else s
  | [] => []
  end.

(** The fragment of [re] the patterns use: one character of a class, [c*]
    and [c+], in sequence.  Repetition is greedy and backtracks. *)
Inductive atom :=
| One (cls : ascii -> bool)
| Many (cls : ascii -> bool)
| Many1 (cls : ascii -> bool).

Definition regex := list atom.

(** [many cls k s]: [cls*] followed by [k], at [s]; the longest run first.
    The answer is the matched text and the text after it. *)
Fixpoint many (cls : ascii -> bool) (k : str -> option (str * str))
         (s : str) : option (str * str) :=
  match s with
  | c :: s' =>
      if cls c then
        match many cls k s' with
        | Some (m, r) => Some (c :: m, r)
        | None => k s
        end
      else k s
  | [] => k s
  end.

(** [regex.match] anchored at the start of [s]. *)
Fixpoint re_match (r : regex) (s : str) : option (str * str) :=
  match r with
  | [] => Some ([], s)
  | One cls :: r' =>
      match s with
      | c :: s' =>
          if cls c then
            match re_match r' s' with
            | Some (m, t) => Some (c :: m, t)
            | None => None
            end
          else None
      | [] => None
      end
  | Many cls :: r' => many cls (re_match r') s
  | Many1 cls :: r' =>
      match s with
      | c :: s' =>
          if cls c then
            match many cls (re_match r') s' with
            | Some (m, t) => Some (c :: m, t)
            | None => None
            end
          else None
      | [] => None
      end
  end.

(** ** Tokens *)

Inductive token_type :=
| NUMBER | STRING | IDENTIFIER | ASSIGN | OPERATOR | LPAREN | RPAREN
| LBRACE | RBRACE | NEWLINE | SKIP.

Definition token_type_eqb (a b : token_type) : bool :=
  match a, b with
  | NUMBER, NUMBER | STRING, STRING | IDENTIFIER, IDENTIFIER
  | ASSIGN, ASSIGN | OPERATOR, OPERATOR | LPAREN, LPAREN | RPAREN, RPAREN
  | LBRACE, LBRACE | RBRACE, RBRACE | NEWLINE, NEWLINE | SKIP, SKIP => true
  | _, _ => false
  end.

(** The dictionary key, as text. *)
Definition type_name (t : token_type) : str :=
  py match t with
     | NUMBER => "NUMBER" | STRING => "STRING" | IDENTIFIER => "IDENTIFIER"
     | ASSIGN => "ASSIGN" | OPERATOR => "OPERATOR" | LPAREN => "LPAREN"
     | RPAREN => "RPAREN" | LBRACE => "LBRACE" | RBRACE => "RBRACE"
     | NEWLINE => "NEWLINE" | SKIP => "SKIP"
     end.

(** A token.  The kinds are the keys of [patterns]: the one place that
    builds a [Token], in [tokenize], passes it such a key. *)
Record Token := { type : token_type; value : str }.

(** [patterns], in the insertion order a dict iterates in. *)
Definition patterns : list (token_type * regex) :=
  [ (NUMBER, [Many1 is_digit]);
    (STRING, [One (is_char dquote); Many is_not_dquote; One (is_char dquote)]);
    (IDENTIFIER, [One is_ident_start; Many is_ident_char]);
    (ASSIGN, [One (is_char "=")]);
    (OPERATOR, [One is_operator]);
    (LPAREN, [One (is_char "(")]);
    (RPAREN, [One (is_char ")")]);
    (LBRACE, [One (is_char "{")]);
    (RBRACE, [One (is_char "}")]);
    (NEWLINE, [One (is_char newline)]);
    (SKIP, [One is_blank]) ].

(** ** Lexer *)

Module Lexer.

Record t := { code : str; tokens : list Token; current_pos : nat }.

Definition init (c : str) : t :=
  {| code := c; tokens := []; current_pos := 0 |}.

(** The [for] loop over [patterns]: the first pattern that matches. *)
Fixpoint first_match (ps : list (token_type * regex)) (s : str)
  : option (token_type * str * str) :=
  match ps with
  | [] => None
  | (ty, r) :: ps' =>
      match re_match r s with
      | Some (m, rest) => Some (ty, m, rest)
      | None => first_match ps' s
      end
  end.

(** One turn of the [while] loop. *)
Definition step (lx : t) : outcome t :=
  match first_match patterns (skipn (current_pos lx) (code lx)) with
  | Some (ty, v, _) =>
      Ok {| code := code lx;
            tokens := if token_type_eqb ty SKIP then tokens lx
                      else tokens lx ++ [ {| type := ty; value := v |} ];
            current_pos := current_pos lx + length v |}
  | None =>
      match nth_error (code lx) (current_pos lx) with
      | Some c =>
          Raise {| exn_cls := Exception;
                   exn_msg := py "Unexpected character: " ++ [c] |}
      | None => raise IndexError "string index out of range"
      end
  end.

Fixpoint loop (fuel : nat) (lx : t) : outcome (list Token) :=
  if current_pos lx <? length (code lx) then
    match fuel with
    | O => Timeout
    | S fuel' => lx' <- step lx ;; loop fuel' lx'
    end
  else Ok (tokens lx).

(** Every pattern consumes a character, so [len(code)] turns suffice
    (see [tokenize_returns_or_raises]). *)
Definition tokenize (c : str) : outcome (list Token) :=
  loop (length c) (init c).

End Lexer.

(** ** Syntax tree *)

(** What a parser method returns: an [ASTNode] instance, or [None] where
    [factor] falls off its end without a [return]. *)
Inductive node :=
| NumberNode (v : Z)
| BinaryOperationNode (left : node) (operator : str) (right : node)
| PyNone.

(** ** [int] of text *)

(** The most digits [int] converts from or to text
    ([sys.int_info.default_max_str_digits]). *)
Definition max_str_digits : nat := 4300.

Definition digit_value (c : ascii) : Z := Z.of_nat (nat_of_ascii c) - 48.

(** The number a run of digits writes. *)
Definition int_of (d : str) : Z :=
  fold_left (fun acc c => 10 * acc + digit_value c)%Z d 0%Z.

(** The blanks [int] skips around a number: tab to carriage return and the
    space, and the spaces beyond ASCII (below 256: NEL and the no-break
    space).  The separators 28 to 31, which [str.isspace] accepts, are not
    among them. *)
Definition is_int_space (c : ascii) : bool :=
  let n := nat_of_ascii c in
  ((9 <=? n) && (n <=? 13)) || (n =? 32) || (n =? 133) || (n =? 160).

(** [str(n)] for a natural number. *)
Fixpoint decimal (fuel n : nat) (acc : str) : str :=
  match fuel with
  | O => acc
  | S fuel' =>
      let acc' := ascii_of_nat (48 + n mod 10) :: acc in
      if n / 10 =? 0 then acc' else decimal fuel' (n / 10) acc'
  end.

Definition str_of_nat (n : nat) : str := decimal (S n) n [].

(** [repr(s)] for text: in single quotes, or in double quotes when the text
    holds a single quote and no double quote; the quote and the backslash
    escaped, tab, line feed and carriage return by their letter, and every
    other character that is not printable by its two hex digits. *)
Definition is_printable (c : ascii) : bool :=
  let n := nat_of_ascii c in
  ((32 <=? n) && (n <? 127)) || ((161 <=? n) && negb (n =? 173)).

Definition hex_digit (n : nat) : ascii := nth n (py "0123456789abcdef") "0"%char.

Definition repr_char (quote c : ascii) : str :=
  if is_char quote c || is_char backslash c then [backslash; c]
  else if is_char tab c then [backslash; "t"%char]
  else if is_char newline c then [backslash; "n"%char]
  else if is_char carriage_return c then [backslash; "r"%char]
  else if is_printable c then [c]
  else [backslash; "x"%char; hex_digit (nat_of_ascii c / 16);
        hex_digit (nat_of_ascii c mod 16)].

Definition py_repr (s : str) : str :=
  let quote :=
    if existsb (is_char squote) s && negb (existsb (is_char dquote) s)
    then dquote else squote in
  quote :: flat_map (repr_char quote) s ++ [quote].

(** The digits of a number as [int] reads them: the run of digits and
    underscores at the start of [s], without the underscores, and the text
    after it.  Two underscores in a row or one at the end of the run are an
    error ([None]); [prev] tells whether the character before was an
    underscore. *)
Fixpoint int_digits (prev : bool) (s : str) : option (str * str) :=
  match s with
  | c :: s' =>
      if is_digit c then
        match int_digits false s' with
        | Some (ds, rest) => Some (c :: ds, rest)
        | None => None
        end
      else if is_char "_" c then
        if prev then None else int_digits true s'
      else if prev then None else Some ([], s)
  | [] => if prev then None else Some ([], [])
  end.

Definition invalid_literal (s : str) : exn :=
  {| exn_cls := ValueError;
     exn_msg := py "invalid literal for int() with base 10: "
                ++ firstn 200 (py_repr s) |}.

Definition too_many_digits (n : nat) : exn :=
  {| exn_cls := ValueError;
     exn_msg := py "Exceeds the limit (4300 digits) for integer string conversion: value has "
                ++ str_of_nat n
                ++ py " digits; use sys.set_int_max_str_digits() to increase the limit" |}.

(** [int(s)] in base 10: blanks, a sign, digits with single underscores
    between them, blanks.  The digits are counted against the limit before
    what follows them is looked at. *)
Definition py_int (s : str) : outcome Z :=
  let s1 := drop_while is_int_space s in
  let (negative, s2) :=
    match s1 with
    | c :: r =>
        if is_char "+" c then (false, r)
        else if is_char "-" c then (true, r)
        else (false, s1)
    | [] => (false, s1)
    end in
  match s2 with
  | [] => Raise (invalid_literal s)
  | c :: _ =>
      if is_char "_" c then Raise (invalid_literal s)
      else
        match int_digits false s2 with
        | None => Raise (invalid_literal s)
        | Some ([], _) => Raise (invalid_literal s)
        | Some (ds, rest) =>
            if max_str_digits <? length ds
            then Raise (too_many_digits (length ds))
            else
              match drop_while is_int_space rest with
              | [] => Ok (if negative then - int_of ds else int_of ds)%Z
              | _ :: _ => Raise (invalid_literal s)
              end
        end
  end.

(** ** Parser *)

Module Parser.

Record t := { tokens : list Token;
              current_token_index : nat;
              current_token : Token }.

(** [Parser.__init__]: reads [tokens[0]]. *)
Definition init (ts : list Token) : outcome t :=
  match nth_error ts 0 with
  | Some tok =>
      Ok {| tokens := ts; current_token_index := 0; current_token := tok |}
  | None => raise IndexError "list index out of range"
  end.

Definition eat (ty : token_type) (p : t) : outcome t :=
  if token_type_eqb (type (current_token p)) ty then
    let i := S (current_token_index p) in
    if i <? length (tokens p) then
      match nth_error (tokens p) i with
      | Some tok =>
          Ok {| tokens := tokens p; current_token_index := i;
                current_token := tok |}
      | None => raise IndexError "list index out of range"
      end
    else
      Ok {| tokens := tokens p; current_token_index := i;
            current_token := current_token p |}
  else
    Raise {| exn_cls := Exception;
             exn_msg := py "Expected token type " ++ type_name ty
                        ++ py ", but got "
                        ++ type_name (type (current_token p)) |}.

Definition factor (p : t) : outcome (node * t) :=
  let token := current_token p in
  if token_type_eqb (type token) NUMBER then
    p' <- eat NUMBER p ;;
    n <- py_int (value token) ;;
    Ok (NumberNode n, p')
  else Ok (PyNone, p).

(** The test of a [while] loop: the current token is an operator whose
    text is in [ops]. *)
Definition at_operator (ops : list str) (p : t) : bool :=
  token_type_eqb (type (current_token p)) OPERATOR
  && existsb (str_eqb (value (current_token p))) ops.

(** The [while] loop of [term], entered with [node] already built. *)
Fixpoint term_loop (fuel : nat) (nd : node) (p : t) : outcome (node * t) :=
  if at_operator [py "*"; py "/"] p then
    match fuel with
    | O => Timeout
    | S fuel' =>
        let token := current_token p in
        p1 <- eat OPERATOR p ;;
        ' (rhs, p2) <- factor p1 ;;
        term_loop fuel' (BinaryOperationNode nd (value token) rhs) p2
    end
  else Ok (nd, p).

Definition term (fuel : nat) (p : t) : outcome (node * t) :=
  ' (nd, p1) <- factor p ;;
  term_loop fuel nd p1.

(** The [while] loop of [expr]. *)
Fixpoint expr_loop (fuel : nat) (nd : node) (p : t) : outcome (node * t) :=
  if at_operator [py "+"; py "-"] p then
    match fuel with
    | O => Timeout
    | S fuel' =>
        let token := current_token p in
        p1 <- eat OPERATOR p ;;
        ' (rhs, p2) <- term fuel' p1 ;;
        expr_loop fuel' (BinaryOperationNode nd (value token) rhs) p2
    end
  else Ok (nd, p).

Definition expr (fuel : nat) (p : t) : outcome (node * t) :=
  ' (nd, p1) <- term fuel p ;;
  expr_loop fuel nd p1.

Definition parse (fuel : nat) (p : t) : outcome node :=
  ' (nd, _) <- expr fuel p ;;
  Ok nd.

End Parser.

(** ** Interpreter *)

(** The values [visit] can return: an [int], a [float], or [None]. *)
Inductive pyval :=
| PInt (z : Z)
| PFloat (f : spec_float)
| PNoneVal.

Definition prec : Z := 53.
Definition emax : Z := 1024.

Definition is_infinity (f : spec_float) : bool :=
  match f with S754_infinity _ => true | _ => false end.

Definition is_zero (f : spec_float) : bool :=
  match f with S754_zero _ => true | _ => false end.

(** [float(z)] as the mixed operations apply it: the nearest double, ties to
    even, [OverflowError] beyond the largest one. *)
Definition float_of_int (z : Z) : outcome spec_float :=
  let f := binary_normalize prec emax z 0 false in
  if is_infinity f then raise OverflowError "int too large to convert to float"
  else Ok f.

Definition as_float (v : pyval) : option (outcome spec_float) :=
  match v with
  | PInt z => Some (float_of_int z)
  | PFloat f => Some (Ok f)
  | PNoneVal => None
  end.

Definition pytype_name (v : pyval) : str :=
  py match v with
     | PInt _ => "int" | PFloat _ => "float" | PNoneVal => "NoneType"
     end.

Definition unsupported (op : string) (a b : pyval) : exn :=
  {| exn_cls := TypeError;
     exn_msg := py "unsupported operand type(s) for " ++ py op ++ py ": '"
                ++ pytype_name a ++ py "' and '" ++ pytype_name b
                ++ py "'" |}.

(** [a op b] for [+], [-] and [*]: exact on two ints, otherwise both
    operands as doubles. *)
Definition py_arith (op : string) (zop : Z -> Z -> Z)
           (fop : spec_float -> spec_float -> spec_float)
           (a b : pyval) : outcome pyval :=
  match a, b with
  | PInt x, PInt y => Ok (PInt (zop x y))
  | _, _ =>
      match as_float a, as_float b with
      | Some fa, Some fb => x <- fa ;; y <- fb ;; Ok (PFloat (fop x y))
      | _, _ => Raise (unsupported op a b)
      end
  end.

Definition py_add := py_arith "+" Z.add (SFadd prec emax).
Definition py_sub := py_arith "-" Z.sub (SFsub prec emax).
Definition py_mul := py_arith "*" Z.mul (SFmul prec emax).

(** [x / y] on two ints: the correctly rounded quotient. *)
Definition int_true_divide (x y : Z) : outcome pyval :=
  match x, y with
  | _, Z0 => raise ZeroDivisionError "division by zero"
  | Z0, _ => Ok (PFloat (S754_zero (y <? 0)%Z))
  | _, _ =>
      let q := SFdiv prec emax
                 (S754_finite (x <? 0)%Z (Z.to_pos (Z.abs x)) 0)
                 (S754_finite (y <? 0)%Z (Z.to_pos (Z.abs y)) 0) in
      if is_infinity q
      then raise OverflowError "integer division result too large for a float"
      else Ok (PFloat q)
  end.

(** [a / b]: true division. *)
Definition py_truediv (a b : pyval) : outcome pyval :=
  match a, b with
  | PInt x, PInt y => int_true_divide x y
  | _, _ =>
      match as_float a, as_float b with
      | Some fa, Some fb =>
          x <- fa ;; y <- fb ;;
          if is_zero y then raise ZeroDivisionError "float division by zero"
          else Ok (PFloat (SFdiv prec emax x y))
      | _, _ => Raise (unsupported "/" a b)
      end
  end.

(** The most calls the stack holds ([sys.getrecursionlimit()]); a call
    beyond it raises [RecursionError]. *)
Definition recursion_limit : nat := 1000.

Definition recursion_error : exn :=
  {| exn_cls := RecursionError;
     exn_msg := py "maximum recursion depth exceeded" |}.

Module Interpreter.

(** [visit] with room for [frames] more calls on the stack.  The call of
    [visit] takes one, the call of [visit_number] or
    [visit_binary_operation] it makes a second, and the operands are
    visited with what is left.  A node that is neither kind, and an
    operator that is none of the four, fall through to [None]. *)
Fixpoint visit (frames : nat) (nd : node) {struct nd} : outcome pyval :=
  match frames with
  | O => Raise recursion_error
  | S inner =>
      match nd with
      | NumberNode v =>
          match inner with
          | O => Raise recursion_error
          | S _ => Ok (PInt v)
          end
      | BinaryOperationNode l op r =>
          match inner with
          | O => Raise recursion_error
          | S deeper =>
              left_value <- visit deeper l ;;
              right_value <- visit deeper r ;;
              if str_eqb op (py "+") then py_add left_value right_value
              else if str_eqb op (py "-") then py_sub left_value right_value
              else if str_eqb op (py "*") then py_mul left_value right_value
              else if str_eqb op (py "/")
                   then py_truediv left_value right_value
              else Ok PNoneVal
          end
      | PyNone => Ok PNoneVal
      end
  end.

(** The calls left once [interpret] is entered from [repl]: the module,
    [repl] and [interpret] are on the stack. *)
Definition frames_left : nat := recursion_limit - 3.

Definition interpret (nd : node) : outcome pyval := visit frames_left nd.

End Interpreter.

(** ** The read-eval-print loop *)

(** [str.isspace] on code points below 256. *)
Definition is_space (c : ascii) : bool :=
  let n := nat_of_ascii c in
  ((9 <=? n) && (n <=? 13)) || ((28 <=? n) && (n <=? 32))
  || (n =? 133) || (n =? 160).

Fixpoint lstrip (s : str) : str :=
  match s with
  | c :: s' => if is_space c then lstrip s' else s
  | [] => []
  end.

Definition strip (s : str) : str := rev (lstrip (rev (lstrip s))).

(** What one turn writes: [print(result)], whose text is Python's rendering
    of the value, or a line of text. *)
Inductive output :=
| PrintValue (v : pyval)
| PrintLine (s : str).

(** The body of [try] after the [exit] test, up to the value [print] is
    given. *)
Definition run_line (fuel : nat) (code : str) : outcome pyval :=
  tokens <- Lexer.tokenize code ;;
  parser <- Parser.init tokens ;;
  ast <- Parser.parse fuel parser ;;
  Interpreter.interpret ast.

(** [except Exception] catches every class that derives from [Exception]. *)
Definition derives_from_Exception (c : exn_class) : bool :=
  match c with
  | Exception | IndexError | TypeError | ZeroDivisionError | OverflowError
  | ValueError | RecursionError => true
  end.

(** [print(result)]: the text of an [int] of more than [max_str_digits]
    digits is refused. *)
Definition too_long_to_print (v : pyval) : bool :=
  match v with
  | PInt z => (10 ^ Z.of_nat max_str_digits <=? Z.abs z)%Z
  | _ => false
  end.

Definition str_limit_error : exn :=
  {| exn_cls := ValueError;
     exn_msg := py "Exceeds the limit (4300 digits) for integer string conversion; use sys.set_int_max_str_digits() to increase the limit" |}.

Definition py_print (v : pyval) : outcome output :=
  if too_long_to_print v then Raise str_limit_error else Ok (PrintValue v).

(** One turn of [while True] on the line [input] returned: the loop is left
    by [break], goes on after writing, never comes back from the body, or an
    exception leaves [repl]. *)
Inductive turn :=
| Break
| Continue (o : output)
| Hang
| Propagate (e : exn).

Definition repl_turn (fuel : nat) (code : str) : turn :=
  if str_eqb (strip code) (py "exit") then Break
  else
    match result <- run_line fuel code ;; py_print result with
    | Ok o => Continue o
    | Raise e =>
        if derives_from_Exception (exn_cls e)
        then Continue (PrintLine (py "Error: " ++ exn_msg e))
        else Propagate e
    | Timeout => Hang
    end.

Inductive status := Running | Stopped | Hung | Crashed.

(** [repl] fed the lines [inputs]: what it has written and where it stands
    once they are read ([Running]: waiting for the next line). *)
Fixpoint repl (fuel : nat) (inputs : list str) : list output * status :=
  match inputs with
  | [] => ([], Running)
  | code :: rest =>
      match repl_turn fuel code with
      | Break => ([], Stopped)
      | Continue o => let (os, st) := repl fuel rest in (o :: os, st)
      | Hang => ([], Hung)
      | Propagate _ => ([], Crashed)
      end
  end.

(** ** Notions the properties are stated with *)

(** The lexer seen from the text still to read: what [Lexer.loop] appends
    to the tokens it already holds (see [loop_scan]). *)
Fixpoint scan (fuel : nat) (s : str) : outcome (list Token) :=
  match s with
  | [] => Ok []
  | c :: _ =>
      match fuel with
      | O => Timeout
      | S fuel' =>
          match Lexer.first_match patterns s with
          | Some (ty, v, rest) =>
              ts <- scan fuel' rest ;;
              Ok (if token_type_eqb ty SKIP then ts
                  else {| type := ty; value := v |} :: ts)
          | None =>
              Raise {| exn_cls := Exception;
                       exn_msg := py "Unexpected character: " ++ [c] |}
          end
      end
  end.

(** The offsets the cursor of [tokenize] takes on [c]. *)
Inductive cursor_at (c : str) : nat -> Prop :=
| cursor_start : cursor_at c 0
| cursor_next pos ty v rest :
    cursor_at c pos ->
    Lexer.first_match patterns (skipn pos c) = Some (ty, v, rest) ->
    cursor_at c (pos + length v).

(** The parser states a run can be in: after [__init__], and after each
    [eat] that returned. *)
Inductive reachable (ts : list Token) : Parser.t -> Prop :=
| reach_init p : Parser.init ts = Ok p -> reachable ts p
| reach_eat p ty p' :
    reachable ts p -> Parser.eat ty p = Ok p' -> reachable ts p'.

(** The concatenation of the token literals. *)
Definition literals (ts : list Token) : str := concat (map value ts).

(** The characters that lengthen a match of the pattern of a kind. *)
Definition continuation (ty : token_type) : ascii -> bool :=
  match ty with
  | NUMBER => is_digit
  | IDENTIFIER => is_ident_char
  | _ => fun _ => false
  end.

(** Two neighbouring tokens that read as one once the blank between them
    is gone: the second starts with a character that lengthens the first, a
    digit after a number, a letter, digit or underscore after an
    identifier. *)
Definition merges (a b : Token) : bool :=
  match value b with
  | c :: _ => continuation (type a) c
  | [] => false
  end.

Fixpoint no_merge (ts : list Token) : bool :=
  match ts with
  | a :: (b :: _) as rest => negb (merges a b) && no_merge rest
  | _ => true
  end.

(** The kinds of neighbours that can merge: a number after a number or an
    identifier, an identifier after an identifier. *)
Definition kinds_clash (a b : Token) : bool :=
  match type a, type b with
  | NUMBER, NUMBER | IDENTIFIER, IDENTIFIER | IDENTIFIER, NUMBER => true
  | _, _ => false
  end.

Fixpoint no_clash (ts : list Token) : bool :=
  match ts with
  | a :: (b :: _) as rest => negb (kinds_clash a b) && no_clash rest
  | _ => true
  end.

(** The literal of a token is a whole match of the pattern of its kind. *)
Definition well_formed (t : Token) : Prop :=
  match type t with
  | NUMBER => value t <> [] /\ forallb is_digit (value t) = true
  | STRING =>
      exists body, value t = dquote :: body ++ [dquote]
                   /\ forallb is_not_dquote body = true
  | IDENTIFIER =>
      exists c w, value t = c :: w /\ is_ident_start c = true
                  /\ forallb is_ident_char w = true
  | ASSIGN => value t = py "="
  | OPERATOR => exists c, value t = [c] /\ is_operator c = true
  | LPAREN => value t = py "("
  | RPAREN => value t = py ")"
  | LBRACE => value t = py "{"
  | RBRACE => value t = py "}"
  | NEWLINE => value t = [newline]
  | SKIP => False
  end.

(** What the ordered patterns find at the start of [s], by the first
    character (see [first_match_next_token]). *)
Definition next_token (s : str) : option (token_type * str * str) :=
  match s with
  | [] => None
  | c :: s' =>
      if is_digit c then
        Some (NUMBER, c :: take_while is_digit s', drop_while is_digit s')
      else if is_char dquote c then
        match drop_while is_not_dquote s' with
        | d :: r => Some (STRING, c :: take_while is_not_dquote s' ++ [d], r)
        | [] => None
        end
      else if is_ident_start c then
        Some (IDENTIFIER, c :: take_while is_ident_char s',
              drop_while is_ident_char s')
      else if is_char "=" c then Some (ASSIGN, [c], s')
      else if is_operator c then Some (OPERATOR, [c], s')
      else if is_char "(" c then Some (LPAREN, [c], s')
      else if is_char ")" c then Some (RPAREN, [c], s')
      else if is_char "{" c then Some (LBRACE, [c], s')
      else if is_char "}" c then Some (RBRACE, [c], s')
      else if is_char newline c then Some (NEWLINE, [c], s')
      else if is_blank c then Some (SKIP, [c], s')
      else None
  end.

(** A token written with its literal as a string. *)
Definition tok (ty : token_type) (s : string) : Token :=
  {| type := ty; value := py s |}.

(** The rational a finite double stands for. *)
Definition float_to_Q (f : spec_float) : option Q :=
  match f with
  | S754_zero _ => Some 0%Q
  | S754_finite s m e =>
      Some ((if s then -1 else 1) * inject_Z (Zpos m) * Qpower 2 e)%Q
  | _ => None
  end.

(** The parser state on [ts] whose cursor has run to [i] with [cur] as the
    current token. *)
Definition at_index (ts : list Token) (i : nat) (cur : Token) : Parser.t :=
  {| Parser.tokens := ts; Parser.current_token_index := i;
     Parser.current_token := cur |}.

(** *** Inputs of the grammar

    An expression is a term followed by any number of additive operators
    each with a term; a term is a number followed by any number of
    multiplicative operators each with a number.  So an expression is a
    first term and a list of operator-term pairs, a term a first number
    literal and a list of operator-literal pairs.  The literals are those
    [int] converts. *)

Definition term_shape : Type := str * list (str * str).
Definition expr_shape : Type := term_shape * list (str * term_shape).

Definition is_number_literal (d : str) : bool :=
  match d with [] => false | _ :: _ => forallb is_digit d end.

(** The number literals [int] converts: those of at most [max_str_digits]
    digits. *)
Definition is_int_literal (d : str) : bool :=
  is_number_literal d && (length d <=? max_str_digits).

Definition mul_ops : list str := [py "*"; py "/"].
Definition add_ops : list str := [py "+"; py "-"].

Definition is_op_token (ops : list str) (t : Token) : bool :=
  token_type_eqb (type t) OPERATOR && existsb (str_eqb (value t)) ops.

Definition number_token (d : str) : Token := {| type := NUMBER; value := d |}.
Definition operator_token (o : str) : Token :=
  {| type := OPERATOR; value := o |}.

Definition factor_tokens (od : str * str) : list Token :=
  [operator_token (fst od); number_token (snd od)].

Definition term_tokens (t : term_shape) : list Token :=
  number_token (fst t) :: flat_map factor_tokens (snd t).

Definition addend_tokens (ot : str * term_shape) : list Token :=
  operator_token (fst ot) :: term_tokens (snd ot).

Definition expr_tokens (e : expr_shape) : list Token :=
  term_tokens (fst e) ++ flat_map addend_tokens (snd e).

Definition factor_ok (od : str * str) : bool :=
  existsb (str_eqb (fst od)) mul_ops && is_int_literal (snd od).

Definition term_ok (t : term_shape) : bool :=
  is_int_literal (fst t) && forallb factor_ok (snd t).

Definition addend_ok (ot : str * term_shape) : bool :=
  existsb (str_eqb (fst ot)) add_ops && term_ok (snd ot).

Definition expr_ok (e : expr_shape) : bool :=
  term_ok (fst e) && forallb addend_ok (snd e).

(** The trees the grammar gives them: each operator takes what is built so
    far as its left operand. *)
Definition term_tree (t : term_shape) : node :=
  fold_left (fun acc od =>
               BinaryOperationNode acc (fst od) (NumberNode (int_of (snd od))))
            (snd t) (NumberNode (int_of (fst t))).

Definition expr_tree (e : expr_shape) : node :=
  fold_left (fun acc ot => BinaryOperationNode acc (fst ot) (term_tree (snd ot)))
            (snd e) (term_tree (fst e)).

(** The parser state with the tokens [done] behind the cursor and [todo]
    ahead of it; [held] is the current token once [todo] is used up. *)
Definition pstate (done todo : list Token) (held : Token) : Parser.t :=
  at_index (done ++ todo) (length done) (hd held todo).

(** A run that stops at a character outside the class, or at the end. *)
Definition stops (f : ascii -> bool) (s : str) : Prop :=
  match s with c :: _ => f c = false | [] => True end.

(** What may follow a chain: nothing, or a token that is not one of the
    operators of the chain. *)
Definition rest_ok (ops : list str) (rest : list Token) : Prop :=
  match rest with
  | [] => True
  | t :: _ => is_op_token ops t = false
  end.

(** The characters some pattern can start with. *)
Definition starts_token (c : ascii) : bool :=
  is_digit c || is_char dquote c || is_ident_start c || is_char "=" c
  || is_operator c || is_char "(" c || is_char ")" c || is_char "{" c
  || is_char "}" c || is_char newline c || is_blank c.

(** Text without a line break. *)
Definition single_line (s : str) : bool :=
  forallb (fun c => negb (is_char newline c)) s.

(** *** Further notions *)

(** [Token.__repr__]: the kind, a colon, the literal.  [repr_of] is the
    format string on a kind and a literal that are any text, as
    [Token.__init__] accepts them; [Token_repr] is what it gives on the
    tokens of the lexer. *)
Definition repr_of (kind literal : str) : str := kind ++ py ":" ++ literal.

Definition Token_repr (t : Token) : str :=
  repr_of (type_name (type t)) (value t).

Definition has_colon (s : str) : bool := existsb (is_char ":") s.

(** The trees whose leaves are numbers and whose operators are among
    [ops]. *)
Fixpoint tree_over (ops : list str) (nd : node) : bool :=
  match nd with
  | NumberNode _ => true
  | BinaryOperationNode l op r =>
      existsb (str_eqb op) ops && tree_over ops l && tree_over ops r
  | PyNone => false
  end.

Definition int_ops : list str := [py "+"; py "-"; py "*"].
Definition all_ops : list str := [py "+"; py "-"; py "*"; py "/"].

(** The integer a tree without division stands for. *)
Fixpoint int_value (nd : node) : Z :=
  match nd with
  | NumberNode v => v
  | BinaryOperationNode l op r =>
      if str_eqb op (py "+") then (int_value l + int_value r)%Z
      else if str_eqb op (py "-") then (int_value l - int_value r)%Z
      else (int_value l * int_value r)%Z
  | PyNone => 0%Z
  end.

Definition is_int (v : pyval) : bool :=
  match v with PInt _ => true | _ => false end.

Definition is_float (v : pyval) : bool :=
  match v with PFloat _ => true | _ => false end.

(** The calls on the stack that [visit] of a tree needs: one for [None],
    two for a number, two more than its operands for an operation. *)
Fixpoint frames_needed (nd : node) : nat :=
  match nd with
  | NumberNode _ => 2
  | BinaryOperationNode l _ r => 2 + Nat.max (frames_needed l) (frames_needed r)
  | PyNone => 1
  end.

(** The number and operator nodes of a tree; [None] counts for nothing. *)
Fixpoint node_count (nd : node) : nat :=
  match nd with
  | NumberNode _ => 1
  | BinaryOperationNode l _ r => S (node_count l + node_count r)
  | PyNone => 0
  end.

(** ** The 2D game loop *)

Module GameInterpreter.

(** What [pygame.event.get()] hands over: events, of which the loop looks
    at the type only. *)
Inductive event_type := QUIT | OTHER (code : nat).

(** The calls into pygame that [game_loop] makes. *)
Inductive call :=
| event_get
| screen_fill (r g b : nat)
| display_flip
| clock_tick (fps : nat)
| pygame_quit.

Record t := { running : bool }.

(** The [for] loop over the events of one frame; it has no [break]. *)
Fixpoint handle_events (events : list event_type) (g : t) : t :=
  match events with
  | [] => g
  | QUIT :: rest => handle_events rest {| running := false |}
  | OTHER _ :: rest => handle_events rest g
  end.

(** What one turn of [while self.running] calls after the events. *)
Definition draw : list call :=
  [screen_fill 0 0 0; display_flip; clock_tick 60].

(** [game_loop] fed the successive answers [frames] of
    [pygame.event.get()]: the calls made, and the object once the method
    has returned ([None] while it waits for the next answer). *)
Fixpoint game_loop (frames : list (list event_type)) (g : t)
  : list call * option t :=
  if running g then
    match frames with
    | [] => ([event_get], None)
    | events :: rest =>
        let (calls, res) := game_loop rest (handle_events events g) in
        (event_get :: draw ++ calls, res)
    end
  else ([pygame_quit], Some g).

End GameInterpreter.

(** * Properties *)

(** ** Outcomes *)

Lemma bind_Ok_inv A B (m : outcome A) (k : A -> outcome B) b :
  bind m k = Ok b -> exists a, m = Ok a /\ k a = Ok b.
Proof. destruct m; simpl; intros H; try discriminate; eauto. Qed.

Lemma bind_Raise_inv A B (m : outcome A) (k : A -> outcome B) e :
  bind m k = Raise e ->
  m = Raise e \/ exists a, m = Ok a /\ k a = Raise e.
Proof.
  destruct m; simpl; intros H; try discriminate.
  - right. eauto.
  - left. congruence.
Qed.

Lemma str_eqb_eq (a b : str) : str_eqb a b = true <-> a = b.
Proof.
  unfold str_eqb. destruct (list_eq_dec ascii_dec a b); split; congruence.
Qed.

(** ** Regular expressions *)

Lemma take_drop_while f s : take_while f s ++ drop_while f s = s.
Proof.
  induction s as [|c s IH]; simpl; [reflexivity|].
  destruct (f c); simpl; [now rewrite IH | reflexivity].
Qed.

Lemma take_while_all f s : forallb f (take_while f s) = true.
Proof.
  induction s as [|c s IH]; simpl; [reflexivity|].
  destruct (f c) eqn:E; simpl; [now rewrite E | reflexivity].
Qed.

Lemma drop_while_head f s c r : drop_while f s = c :: r -> f c = false.
Proof.
  induction s as [|a s IH]; simpl; [discriminate|].
  destruct (f a) eqn:E; [exact IH|]. intros [= <- _]. exact E.
Qed.

Lemma take_while_app f v s :
  forallb f v = true -> stops f s -> take_while f (v ++ s) = v.
Proof.
  intros Hv Hs. induction v as [|c v IH]; simpl in *.
  - destruct s; simpl in *; [reflexivity | now rewrite Hs].
  - apply andb_prop in Hv as [Hc Hv]. rewrite Hc. now rewrite IH.
Qed.

Lemma drop_while_app f v s :
  forallb f v = true -> stops f s -> drop_while f (v ++ s) = s.
Proof.
  intros Hv Hs. induction v as [|c v IH]; simpl in *.
  - destruct s; simpl in *; [reflexivity | now rewrite Hs].
  - apply andb_prop in Hv as [Hc Hv]. rewrite Hc. now apply IH.
Qed.

(** [c*] at the end of a pattern takes the longest run. *)
Lemma many_last cls s :
  many cls (re_match []) s = Some (take_while cls s, drop_while cls s).
Proof.
  induction s as [|c s IH]; cbn [many take_while drop_while];
    [reflexivity|].
  destruct (cls c); [now rewrite IH | reflexivity].
Qed.

(** [[^q]*q]: the run up to the first quote, and that quote; backtracking
    finds nothing else. *)
Lemma many_until_dquote s :
  many is_not_dquote (re_match [One (is_char dquote)]) s =
  match drop_while is_not_dquote s with
  | d :: r => Some (take_while is_not_dquote s ++ [d], r)
  | [] => None
  end.
Proof.
  induction s as [|c s IH]; cbn [many take_while drop_while];
    [reflexivity|].
  rewrite IH.
  assert (Hq : is_char dquote c = negb (is_not_dquote c))
    by (unfold is_not_dquote; now rewrite negb_involutive).
  destruct (is_not_dquote c); cbn [negb] in Hq.
  - destruct (drop_while is_not_dquote s); [|reflexivity].
    cbn [re_match]. rewrite Hq. reflexivity.
  - cbn [re_match]. rewrite Hq. reflexivity.
Qed.

Lemma first_match_next_token s :
  Lexer.first_match patterns s = next_token s.
Proof.
  destruct s as [|c s]; [reflexivity|].
  unfold patterns, Lexer.first_match, re_match.
  rewrite !many_last. fold (re_match [One (is_char dquote)]).
  rewrite many_until_dquote. unfold next_token.
  destruct (is_digit c) eqn:Hd; [reflexivity|].
  destruct (is_char dquote c) eqn:Hq.
  - destruct (drop_while is_not_dquote s) eqn:Hs; [|reflexivity].
    apply Ascii.eqb_eq in Hq. subst c. reflexivity.
  - destruct (is_ident_start c); [reflexivity|].
    destruct (is_char "=" c); [reflexivity|].
    destruct (is_operator c); [reflexivity|].
    destruct (is_char "(" c); [reflexivity|].
    destruct (is_char ")" c); [reflexivity|].
    destruct (is_char "{" c); [reflexivity|].
    destruct (is_char "}" c); [reflexivity|].
    destruct (is_char newline c); [reflexivity|].
    destruct (is_blank c); reflexivity.
Qed.

(** ** Lexer *)

Lemma next_token_split s ty v rest :
  next_token s = Some (ty, v, rest) -> s = v ++ rest /\ v <> [].
Proof.
  destruct s as [|c s]; [discriminate|]. unfold next_token.
  repeat match goal with
         | |- context [if ?b then _ else _] => destruct b
         end;
    try (intros [= <- <- <-]; split; [|discriminate]; simpl;
         now rewrite ?take_drop_while);
    try discriminate.
  destruct (drop_while is_not_dquote s) as [|d r] eqn:E; [discriminate|].
  intros [= <- <- <-]. split; [|discriminate].
  simpl. rewrite <- app_assoc. simpl. rewrite <- E.
  now rewrite take_drop_while.
Qed.

Lemma next_token_shorter s ty v rest :
  next_token s = Some (ty, v, rest) -> length rest < length s.
Proof.
  intros H. apply next_token_split in H as [-> Hv].
  rewrite length_app. destruct v; [congruence | simpl; lia].
Qed.

Lemma scan_fuel a b s :
  length s <= a -> length s <= b -> scan a s = scan b s.
Proof.
  revert b s. induction a as [|a IH]; intros b s Ha Hb.
  - destruct s; [|simpl in Ha; lia]. destruct b; reflexivity.
  - destruct s as [|c s]; [destruct b; reflexivity|].
    destruct b as [|b]; [simpl in Hb; lia|].
    cbn [scan]. rewrite first_match_next_token.
    destruct (next_token (c :: s)) as [[[ty v] rest]|] eqn:E; [|reflexivity].
    pose proof (next_token_shorter _ _ _ _ E) as Hlt. simpl in Ha, Hb, Hlt.
    rewrite (IH b rest) by lia. reflexivity.
Qed.

(** One unfolding of [scan] with fuel to spare. *)
Lemma scan_eq fuel s :
  length s <= fuel ->
  scan fuel s =
  match s with
  | [] => Ok []
  | c :: _ =>
      match next_token s with
      | Some (ty, v, rest) =>
          ts <- scan (length rest) rest ;;
          Ok (if token_type_eqb ty SKIP then ts
              else {| type := ty; value := v |} :: ts)
      | None =>
          Raise {| exn_cls := Exception;
                   exn_msg := py "Unexpected character: " ++ [c] |}
      end
  end.
Proof.
  intros Hlen. destruct s as [|c s]; [destruct fuel; reflexivity|].
  destruct fuel as [|fuel]; [simpl in Hlen; lia|].
  cbn [scan]. rewrite first_match_next_token.
  destruct (next_token (c :: s)) as [[[ty v] rest]|] eqn:E; [|reflexivity].
  pose proof (next_token_shorter _ _ _ _ E) as Hlt. simpl in Hlen, Hlt.
  rewrite (scan_fuel fuel (length rest)) by lia. reflexivity.
Qed.

Lemma scan_returns_or_raises fuel s :
  length s <= fuel -> scan fuel s <> Timeout.
Proof.
  revert s. induction fuel as [|fuel IH]; intros s Hlen.
  - destruct s; [discriminate | simpl in Hlen; lia].
  - destruct s as [|c s]; [discriminate|].
    cbn [scan]. rewrite first_match_next_token.
    destruct (next_token (c :: s)) as [[[ty v] rest]|] eqn:E;
      [|discriminate].
    pose proof (next_token_shorter _ _ _ _ E) as Hlt. simpl in Hlen, Hlt.
    specialize (IH rest ltac:(lia)).
    destruct (scan fuel rest); simpl; congruence.
Qed.

(** [Lexer.loop] from a cursor inside the text appends what [scan] finds in
    the rest of the text. *)
Lemma loop_scan fuel lx :
  Lexer.current_pos lx <= length (Lexer.code lx) ->
  Lexer.loop fuel lx =
  (ts <- scan fuel (skipn (Lexer.current_pos lx) (Lexer.code lx)) ;;
   Ok (Lexer.tokens lx ++ ts)).
Proof.
  revert lx. induction fuel as [|fuel IH]; intros [code toks pos] Hpos;
    simpl in Hpos; cbn [Lexer.loop Lexer.current_pos Lexer.code Lexer.tokens].
  - destruct (pos <? length code) eqn:E.
    + apply Nat.ltb_lt in E.
      destruct (skipn pos code) eqn:Es; [|reflexivity].
      apply (f_equal (@length ascii)) in Es. rewrite length_skipn in Es.
      simpl in Es. lia.
    + apply Nat.ltb_ge in E. rewrite skipn_all2 by lia.
      simpl. now rewrite app_nil_r.
  - destruct (pos <? length code) eqn:E.
    + apply Nat.ltb_lt in E.
      destruct (skipn pos code) as [|c rest0] eqn:Es.
      { apply (f_equal (@length ascii)) in Es. rewrite length_skipn in Es.
        simpl in Es. lia. }
      unfold Lexer.step.
      cbn [Lexer.current_pos Lexer.code Lexer.tokens]. rewrite Es.
      cbn [scan].
      destruct (Lexer.first_match patterns (c :: rest0))
        as [[[ty v] rest]|] eqn:Em.
      * rewrite first_match_next_token in Em.
        apply next_token_split in Em as [Hsplit Hv].
        cbn [bind]. rewrite IH; cbn [Lexer.current_pos Lexer.code Lexer.tokens].
        -- assert (Hrest : skipn (pos + length v) code = rest).
           { rewrite Nat.add_comm, <- skipn_skipn, Es, Hsplit.
             rewrite skipn_app, skipn_all, Nat.sub_diag. reflexivity. }
           rewrite Hrest. destruct (scan fuel rest); simpl; try reflexivity.
           destruct (token_type_eqb ty SKIP); [reflexivity|].
           now rewrite <- app_assoc.
        -- apply (f_equal (@length ascii)) in Es.
           rewrite length_skipn, Hsplit, length_app in Es. lia.
      * assert (Hn : nth_error code pos = Some c).
        { rewrite <- (firstn_skipn pos code) at 1.
          rewrite nth_error_app2 by (rewrite length_firstn; lia).
          rewrite length_firstn, Nat.min_l, Nat.sub_diag, Es by lia.
          reflexivity. }
        rewrite Hn. reflexivity.
    + apply Nat.ltb_ge in E. rewrite skipn_all2 by lia.
      simpl. now rewrite app_nil_r.
Qed.

Lemma tokenize_scan c : Lexer.tokenize c = scan (length c) c.
Proof.
  unfold Lexer.tokenize. rewrite loop_scan by (simpl; lia).
  simpl. destruct (scan (length c) c); reflexivity.
Qed.

(** [tokenize] always comes back: with the tokens or with an exception. *)
Lemma tokenize_returns_or_raises c : Lexer.tokenize c <> Timeout.
Proof. rewrite tokenize_scan. now apply scan_returns_or_raises. Qed.

Lemma skipn_past pos (c v rest : str) :
  skipn pos c = v ++ rest -> skipn (pos + length v) c = rest.
Proof.
  intros H. rewrite Nat.add_comm, <- skipn_skipn, H.
  rewrite skipn_app, skipn_all, Nat.sub_diag. reflexivity.
Qed.

Lemma is_char_eq a c : is_char a c = true -> c = a.
Proof. unfold is_char. intros H. apply Ascii.eqb_eq in H. congruence. Qed.

Lemma is_not_dquote_false d : is_not_dquote d = false -> d = dquote.
Proof.
  unfold is_not_dquote. intros H. apply negb_false_iff in H.
  now apply is_char_eq.
Qed.

(** A failure at the cursor is the failure of the whole call. *)
Lemma scan_raises_from_cursor c pos e :
  cursor_at c pos ->
  scan (length (skipn pos c)) (skipn pos c) = Raise e ->
  scan (length c) c = Raise e.
Proof.
  induction 1 as [|pos ty v rest Hat IH Hm]; intros Hr; [exact Hr|].
  apply IH. rewrite first_match_next_token in Hm.
  pose proof (next_token_split _ _ _ _ Hm) as [Hsplit Hv].
  
  rewrite (skipn_past pos c v rest Hsplit) in Hr.
  rewrite scan_eq by lia. rewrite Hm.
  destruct (skipn pos c) as [|d s'] eqn:Es.
  - destruct v; [congruence | discriminate].
  - rewrite Hr. reflexivity.
Qed.

(** The literal of every token the lexer makes is a whole match of the
    pattern of its kind. *)
Lemma next_token_well_formed s ty v rest :
  next_token s = Some (ty, v, rest) ->
  ty <> SKIP -> well_formed {| type := ty; value := v |}.
Proof.
  destruct s as [|c s]; [discriminate|]. unfold next_token.
  destruct (is_digit c) eqn:Hd.
  { intros [= <- <- <-] _. unfold well_formed; simpl. split; [discriminate|].
    now rewrite Hd, take_while_all. }
  destruct (is_char dquote c) eqn:Hq.
  { destruct (drop_while is_not_dquote s) as [|d r] eqn:E; [discriminate|].
    intros [= <- <- <-] _. unfold well_formed; simpl.
    exists (take_while is_not_dquote s).
    apply is_char_eq in Hq. apply drop_while_head in E.
    apply is_not_dquote_false in E. subst.
    split; [reflexivity | apply take_while_all]. }
  destruct (is_ident_start c) eqn:Hi.
  { intros [= <- <- <-] _. unfold well_formed; simpl.
    exists c, (take_while is_ident_char s).
    repeat split; [exact Hi | apply take_while_all]. }
  destruct (is_char "=" c) eqn:H1.
  { intros [= <- <- <-] _. apply is_char_eq in H1. now subst. }
  destruct (is_operator c) eqn:H2.
  { intros [= <- <- <-] _. unfold well_formed; simpl. eauto. }
  destruct (is_char "(" c) eqn:H3.
  { intros [= <- <- <-] _. apply is_char_eq in H3. now subst. }
  destruct (is_char ")" c) eqn:H4.
  { intros [= <- <- <-] _. apply is_char_eq in H4. now subst. }
  destruct (is_char "{" c) eqn:H5.
  { intros [= <- <- <-] _. apply is_char_eq in H5. now subst. }
  destruct (is_char "}" c) eqn:H6.
  { intros [= <- <- <-] _. apply is_char_eq in H6. now subst. }
  destruct (is_char newline c) eqn:H7.
  { intros [= <- <- <-] _. apply is_char_eq in H7. now subst. }
  destruct (is_blank c); [|discriminate].
  intros [= <- <- <-] Hn. congruence.
Qed.

Lemma scan_well_formed fuel s ts :
  scan fuel s = Ok ts -> Forall well_formed ts.
Proof.
  revert s ts. induction fuel as [|fuel IH]; intros s ts.
  - destruct s; simpl; [intros [= <-]; constructor | discriminate].
  - destruct s as [|c s]; [simpl; intros [= <-]; constructor|].
    cbn [scan]. rewrite first_match_next_token.
    destruct (next_token (c :: s)) as [[[ty v] rest]|] eqn:E; [|discriminate].
    intros H. apply bind_Ok_inv in H as (ts' & Hs & Hk).
    apply IH in Hs.
    destruct (token_type_eqb ty SKIP) eqn:Et; injection Hk as <-; [exact Hs|].
    constructor; [|exact Hs].
    eapply next_token_well_formed; eauto.
    intros ->. discriminate.
Qed.

(** ** Re-reading the literals *)

Lemma take_while_prefix f v s :
  forallb f v = true -> take_while f (v ++ s) = v ++ take_while f s.
Proof.
  intros Hv. induction v as [|c v IH]; simpl in *; [reflexivity|].
  apply andb_prop in Hv as [Hc Hv]. rewrite Hc. now rewrite IH.
Qed.

Lemma drop_while_prefix f v s :
  forallb f v = true -> drop_while f (v ++ s) = drop_while f s.
Proof.
  intros Hv. induction v as [|c v IH]; simpl in *; [reflexivity|].
  apply andb_prop in Hv as [Hc Hv]. rewrite Hc. now apply IH.
Qed.

Lemma take_while_stops f s : stops f s -> take_while f s = [].
Proof. destruct s; simpl; [reflexivity | now intros ->]. Qed.

Lemma drop_while_stops_id f s : stops f s -> drop_while f s = s.
Proof. destruct s; simpl; [reflexivity | now intros ->]. Qed.

Lemma take_while_nil_stops f s : take_while f s = [] -> stops f s.
Proof.
  destruct s as [|c s]; simpl; [trivial|]. destruct (f c); [discriminate|].
  reflexivity.
Qed.

Lemma digits_are_ident_chars v :
  forallb is_digit v = true -> forallb is_ident_char v = true.
Proof.
  induction v as [|c v IH]; simpl; [reflexivity|].
  intros H. apply andb_prop in H as [Hc Hv]. rewrite (IH Hv), andb_true_r.
  unfold is_ident_char. fold (is_digit c). rewrite Hc.
  now rewrite !orb_true_r.
Qed.

Lemma ident_start_class c :
  is_ident_start c = true ->
  is_digit c = false /\ is_char dquote c = false /\ is_ident_char c = true.
Proof.
  destruct c as [[] [] [] [] [] [] [] []]; vm_compute; intros H;
    try discriminate; repeat split.
Qed.

Lemma operator_cases c :
  is_operator c = true ->
  c = "+"%char \/ c = "-"%char \/ c = "*"%char \/ c = "/"%char.
Proof.
  unfold is_operator. intros H.
  repeat (apply orb_prop in H as [H|H]); apply is_char_eq in H; auto.
Qed.

(** Read again in front of [rest], a literal is matched by the pattern of
    its own kind, lengthened by the run of [rest] that continues it. *)
Lemma next_token_literal t rest :
  well_formed t ->
  next_token (value t ++ rest) =
  Some (type t, value t ++ take_while (continuation (type t)) rest,
        drop_while (continuation (type t)) rest).
Proof.
  assert (Hnone : forall r : str,
             take_while (fun _ => false) r = []
             /\ drop_while (fun _ => false) r = r)
    by (intros [|? ?]; split; reflexivity).
  destruct t as [ty v]. unfold well_formed. cbn [type value].
  destruct ty; cbn [continuation];
    try (intros ->; destruct (Hnone rest) as [-> ->]; reflexivity).
  - intros [Hne Hd]. destruct v as [|c w]; [congruence|].
    simpl in Hd. apply andb_prop in Hd as [Hc Hw].
    cbn [app next_token].
    rewrite Hc, (take_while_prefix _ _ _ Hw), (drop_while_prefix _ _ _ Hw).
    reflexivity.
  - intros (body & -> & Hb). destruct (Hnone rest) as [-> ->].
    rewrite app_nil_r. cbn [app next_token].
    change (is_digit dquote) with false.
    change (is_char dquote dquote) with true. cbv iota.
    rewrite <- app_assoc. cbn [app].
    rewrite (drop_while_app is_not_dquote body (dquote :: rest) Hb eq_refl).
    rewrite (take_while_app is_not_dquote body (dquote :: rest) Hb eq_refl).
    reflexivity.
  - intros (c & w & -> & Hc & Hw).
    destruct (ident_start_class _ Hc) as (Hd & Hq & _).
    cbn [app next_token]. rewrite Hd, Hq, Hc.
    rewrite (take_while_prefix _ _ _ Hw), (drop_while_prefix _ _ _ Hw).
    reflexivity.
  - intros (c & -> & Hc). destruct (Hnone rest) as [-> ->].
    destruct (operator_cases _ Hc) as [-> | [-> | [-> | ->]]]; reflexivity.
  - intros [].
Qed.

Lemma well_formed_nonempty t : well_formed t -> value t <> [].
Proof.
  unfold well_formed. destruct (type t).
  - tauto.
  - intros (body & -> & _). discriminate.
  - intros (c & w & -> & _). discriminate.
  - intros ->. discriminate.
  - intros (c & -> & _). discriminate.
  - intros ->. discriminate.
  - intros ->. discriminate.
  - intros ->. discriminate.
  - intros ->. discriminate.
  - intros ->. discriminate.
  - intros [].
Qed.

(** The first character of a token that does not merge with the one before
    it stops the run of that one. *)
Lemma literal_stops a b s :
  well_formed b -> merges a b = false ->
  stops (continuation (type a)) (value b ++ s).
Proof.
  intros Hb. apply well_formed_nonempty in Hb. unfold merges.
  destruct (value b) as [|c w]; [congruence|]. now cbn [app stops].
Qed.

(** Only a number lengthens a number, and only a number or an identifier
    an identifier. *)
Lemma merges_kinds a b :
  well_formed b -> kinds_clash a b = false -> merges a b = false.
Proof.
  destruct b as [tb vb]. unfold well_formed, merges, kinds_clash.
  cbn [type value].
  destruct (type a); cbn [continuation];
    try solve [intros _ _; now destruct vb];
    destruct tb; intros Hwf Hk; try discriminate Hk;
    try (subst vb; reflexivity);
    try (destruct Hwf as (body & -> & _); reflexivity);
    try (destruct Hwf as (c & -> & Hc);
         destruct (operator_cases _ Hc) as [-> | [-> | [-> | ->]]];
         reflexivity);
    try (destruct Hwf as (c & w & -> & Hc & _);
         now destruct (ident_start_class _ Hc));
    try contradiction.
Qed.

Lemma no_clash_no_merge ts :
  Forall well_formed ts -> no_clash ts = true -> no_merge ts = true.
Proof.
  induction ts as [|a ts IH]; intros Hwf Hc; [reflexivity|].
  destruct ts as [|b ts]; [reflexivity|].
  pose proof (Forall_inv_tail Hwf) as Hts.
  change (negb (kinds_clash a b) && no_clash (b :: ts) = true) in Hc.
  apply andb_prop in Hc as [Hk Hc]. apply negb_true_iff in Hk.
  change (negb (merges a b) && no_merge (b :: ts) = true).
  now rewrite (merges_kinds a b (Forall_inv Hts) Hk), (IH Hts Hc).
Qed.

Lemma well_formed_not_skip t : well_formed t -> type t <> SKIP.
Proof. unfold well_formed. intros H E. now rewrite E in H. Qed.

Lemma literals_cons t ts : literals (t :: ts) = value t ++ literals ts.
Proof. reflexivity. Qed.

Lemma no_merge_tail t ts : no_merge (t :: ts) = true -> no_merge ts = true.
Proof.
  destruct ts as [|b ts]; [reflexivity|]. cbn [no_merge].
  intros H. now apply andb_prop in H as [_ H].
Qed.

(** The first character of a token that merges with the one before it
    continues that one. *)
Lemma merging_literal_continues a b :
  merges a b = true ->
  exists x w, value b = x :: w /\ continuation (type a) x = true.
Proof.
  unfold merges. destruct (value b) as [|c w]; [discriminate|]. eauto.
Qed.

(** Well-formed tokens none of which merges with its neighbour are read
    back from their literals. *)
Lemma literals_reread ts :
  Forall well_formed ts -> no_merge ts = true ->
  scan (length (literals ts)) (literals ts) = Ok ts.
Proof.
  induction ts as [|t ts IH]; intros Hwf Hnm; [reflexivity|].
  pose proof (Forall_inv Hwf) as Ht. pose proof (Forall_inv_tail Hwf) as Hts.
  assert (Hstop : stops (continuation (type t)) (literals ts)).
  { destruct ts as [|b ts']; [exact I|]. rewrite literals_cons.
    apply literal_stops; [exact (Forall_inv Hts)|].
    cbn [no_merge] in Hnm. apply andb_prop in Hnm as [Hm _].
    now apply negb_true_iff in Hm. }
  pose proof (next_token_literal t (literals ts) Ht) as Hnext.
  rewrite (take_while_stops _ _ Hstop), (drop_while_stops_id _ _ Hstop),
    app_nil_r in Hnext.
  rewrite scan_eq by lia. rewrite literals_cons in *.
  destruct (value t ++ literals ts) as [|c s] eqn:Es; [discriminate|].
  rewrite Hnext, (IH Hts (no_merge_tail _ _ Hnm)). cbn [bind].
  destruct (token_type_eqb (type t) SKIP) eqn:E.
  - exfalso. apply (well_formed_not_skip _ Ht).
    destruct (type t); try discriminate. reflexivity.
  - now destruct t.
Qed.

(** And only those. *)
Lemma reread_no_merge ts :
  Forall well_formed ts ->
  scan (length (literals ts)) (literals ts) = Ok ts -> no_merge ts = true.
Proof.
  induction ts as [|t ts IH]; intros Hwf Hs; [reflexivity|].
  pose proof (Forall_inv Hwf) as Ht. pose proof (Forall_inv_tail Hwf) as Hts.
  pose proof (next_token_literal t (literals ts) Ht) as Hnext.
  rewrite scan_eq in Hs by lia. rewrite literals_cons in *.
  destruct (value t ++ literals ts) as [|c s] eqn:Es; [discriminate|].
  rewrite Hnext in Hs.
  apply bind_Ok_inv in Hs as (ts' & Hrest & Hk).
  destruct (token_type_eqb (type t) SKIP) eqn:E.
  { exfalso. apply (well_formed_not_skip _ Ht).
    destruct (type t); try discriminate. reflexivity. }
  injection Hk as Hv Hts'. subst ts'.
  destruct t as [ty v]. cbn [type value] in *. injection Hv as Hv.
  assert (Hnil : take_while (continuation ty) (literals ts) = []).
  { apply (app_inv_head v). now rewrite app_nil_r. }
  apply take_while_nil_stops in Hnil.
  rewrite (drop_while_stops_id _ _ Hnil) in Hrest.
  specialize (IH Hts Hrest).
  destruct ts as [|b ts']; [reflexivity|].
  change (negb (merges {| type := ty; value := v |} b)
          && no_merge (b :: ts') = true).
  rewrite IH, andb_true_r. apply negb_true_iff.
  destruct (merges {| type := ty; value := v |} b) eqn:Em; [|reflexivity].
  destruct (merging_literal_continues _ b Em) as (x & w & Hb & Hx).
  rewrite literals_cons, Hb in Hnil. cbn [app stops type] in Hnil, Hx.
  congruence.
Qed.

(** ** Parser: fuel *)

Lemma bind_returns A B (m : outcome A) (k : A -> outcome B) :
  bind m k <> Timeout -> m <> Timeout.
Proof. destruct m; simpl; congruence. Qed.

(** A loop that came back with some fuel comes back the same with more:
    [Timeout] stands for no answer, never for a wrong one. *)
Lemma term_loop_fuel fuel fuel' nd p :
  fuel <= fuel' ->
  Parser.term_loop fuel nd p <> Timeout ->
  Parser.term_loop fuel' nd p = Parser.term_loop fuel nd p.
Proof.
  revert fuel' nd p. induction fuel as [|fuel IH]; intros fuel' nd p Hle Hr.
  - cbn [Parser.term_loop] in *.
    destruct (Parser.at_operator _ p) eqn:E; [congruence|].
    destruct fuel'; cbn [Parser.term_loop]; now rewrite E.
  - destruct fuel' as [|fuel']; [lia|].
    cbn [Parser.term_loop] in *.
    destruct (Parser.at_operator _ p) eqn:E; [|reflexivity].
    destruct (Parser.eat OPERATOR p) as [p1| |]; cbn [bind] in *;
      try reflexivity.
    destruct (Parser.factor p1) as [[rhs p2]| |]; cbn [bind] in *;
      try reflexivity.
    apply IH; [lia | exact Hr].
Qed.

Lemma term_fuel fuel fuel' p :
  fuel <= fuel' ->
  Parser.term fuel p <> Timeout ->
  Parser.term fuel' p = Parser.term fuel p.
Proof.
  unfold Parser.term. intros Hle Hr.
  destruct (Parser.factor p) as [[nd p1]| |]; cbn [bind] in *;
    try reflexivity.
  now apply term_loop_fuel.
Qed.

Lemma expr_loop_fuel fuel fuel' nd p :
  fuel <= fuel' ->
  Parser.expr_loop fuel nd p <> Timeout ->
  Parser.expr_loop fuel' nd p = Parser.expr_loop fuel nd p.
Proof.
  revert fuel' nd p. induction fuel as [|fuel IH]; intros fuel' nd p Hle Hr.
  - cbn [Parser.expr_loop] in *.
    destruct (Parser.at_operator _ p) eqn:E; [congruence|].
    destruct fuel'; cbn [Parser.expr_loop]; now rewrite E.
  - destruct fuel' as [|fuel']; [lia|].
    cbn [Parser.expr_loop] in *.
    destruct (Parser.at_operator _ p) eqn:E; [|reflexivity].
    destruct (Parser.eat OPERATOR p) as [p1| |]; cbn [bind] in *;
      try reflexivity.
    rewrite (term_fuel fuel fuel' p1) by (lia || eapply bind_returns; eauto).
    destruct (Parser.term fuel p1) as [[rhs p2]| |]; cbn [bind] in *;
      try reflexivity.
    apply IH; [lia | exact Hr].
Qed.

Lemma parse_fuel fuel fuel' p :
  fuel <= fuel' ->
  Parser.parse fuel p <> Timeout ->
  Parser.parse fuel' p = Parser.parse fuel p.
Proof.
  unfold Parser.parse, Parser.expr. intros Hle Hr.
  rewrite (term_fuel fuel fuel' p)
    by (lia || (eapply bind_returns; eapply bind_returns; eauto)).
  destruct (Parser.term fuel p) as [[nd p1]| |]; cbn [bind] in *;
    try reflexivity.
  rewrite (expr_loop_fuel fuel fuel' nd p1)
    by (lia || eapply bind_returns; eauto).
  reflexivity.
Qed.

Lemma run_line_fuel fuel fuel' code :
  fuel <= fuel' ->
  run_line fuel code <> Timeout ->
  run_line fuel' code = run_line fuel code.
Proof.
  unfold run_line. intros Hle Hr.
  destruct (Lexer.tokenize code) as [ts| |]; cbn [bind] in *;
    try reflexivity.
  destruct (Parser.init ts) as [p| |]; cbn [bind] in *; try reflexivity.
  rewrite (parse_fuel fuel fuel' p) by (lia || eapply bind_returns; eauto).
  reflexivity.
Qed.

(** ** Parser: the current token *)

Lemma reachable_current ts p :
  reachable ts p ->
  Parser.tokens p = ts /\
  nth_error ts (Nat.min (Parser.current_token_index p) (length ts - 1))
  = Some (Parser.current_token p).
Proof.
  induction 1 as [p Hi|p ty p' Hr [IHt IHc] He].
  - unfold Parser.init in Hi.
    destruct (nth_error ts 0) as [tok|] eqn:E; [|discriminate].
    injection Hi as <-. simpl. auto.
  - unfold Parser.eat in He.
    destruct (token_type_eqb _ ty); [|discriminate].
    rewrite IHt in He.
    destruct (S (Parser.current_token_index p) <? length ts) eqn:El.
    + apply Nat.ltb_lt in El.
      destruct (nth_error ts (S (Parser.current_token_index p)))
        as [tok|] eqn:En; [|discriminate].
      injection He as <-.
      cbn [Parser.tokens Parser.current_token_index Parser.current_token].
      split; [reflexivity|].
      rewrite Nat.min_l by lia. exact En.
    + apply Nat.ltb_ge in El. injection He as <-.
      cbn [Parser.tokens Parser.current_token_index Parser.current_token].
      split; [reflexivity|].
      rewrite Nat.min_r by lia. rewrite Nat.min_r in IHc by lia. exact IHc.
Qed.

Lemma token_type_eqb_eq a b : token_type_eqb a b = true <-> a = b.
Proof. destruct a, b; simpl; split; congruence. Qed.

(** ** Parser: inputs of the grammar *)

Lemma digit_starts_number c :
  is_digit c = true ->
  is_int_space c = false /\ is_char "+" c = false /\ is_char "-" c = false
  /\ is_char "_" c = false.
Proof.
  destruct c as [[] [] [] [] [] [] [] []]; vm_compute; intros H;
    try discriminate; repeat split.
Qed.

Lemma int_digits_all d :
  forallb is_digit d = true -> int_digits false d = Some (d, []).
Proof.
  induction d as [|c d IH]; [reflexivity|]. cbn [forallb int_digits].
  intros H. apply andb_prop in H as [Hc Hd]. now rewrite Hc, (IH Hd).
Qed.

Lemma int_literal_is_number_literal d :
  is_int_literal d = true -> is_number_literal d = true.
Proof. unfold is_int_literal. intros H. now apply andb_prop in H. Qed.

(** [int] of a number literal within the limit is the number it writes. *)
Lemma py_int_literal d :
  is_int_literal d = true -> py_int d = Ok (int_of d).
Proof.
  unfold is_int_literal, is_number_literal. intros H.
  apply andb_prop in H as [Hd Hlen]. apply Nat.leb_le in Hlen.
  destruct d as [|c d]; [discriminate|].
  pose proof Hd as Hc. cbn [forallb] in Hc. apply andb_prop in Hc as [Hc _].
  destruct (digit_starts_number c Hc) as (Hs & Hp & Hm & Hu).
  unfold py_int. cbn [drop_while]. rewrite Hs, Hp, Hm, Hu.
  rewrite (int_digits_all _ Hd).
  destruct (Nat.ltb_spec max_str_digits (length (c :: d))) as [Hlt|_];
    [lia|].
  reflexivity.
Qed.

(** [eat] of the kind of the token under the cursor moves the cursor by
    one; the token eaten is the one held if nothing is ahead. *)
Lemma eat_pstate done t todo held :
  Parser.eat (type t) (pstate done (t :: todo) held)
  = Ok (pstate (done ++ [t]) todo t).
Proof.
  unfold Parser.eat, pstate, at_index.
  cbn [Parser.tokens Parser.current_token_index Parser.current_token hd].
  rewrite (proj2 (token_type_eqb_eq _ _) eq_refl).
  rewrite <- app_assoc, !length_app. cbn [app length].
  destruct todo as [|u todo]; cbn [length hd].
  - destruct (Nat.ltb_spec (S (length done)) (length done + 1)); [lia|].
    now rewrite Nat.add_1_r.
  - destruct (Nat.ltb_spec (S (length done))
                (length done + S (S (length todo)))); [|lia].
    rewrite nth_error_app2 by lia.
    replace (S (length done) - length done) with 1 by lia.
    cbn [nth_error]. now rewrite Nat.add_1_r.
Qed.

Lemma eat_number done d todo held :
  Parser.eat NUMBER (pstate done (number_token d :: todo) held)
  = Ok (pstate (done ++ [number_token d]) todo (number_token d)).
Proof. exact (eat_pstate done (number_token d) todo held). Qed.

Lemma eat_operator done o todo held :
  Parser.eat OPERATOR (pstate done (operator_token o :: todo) held)
  = Ok (pstate (done ++ [operator_token o]) todo (operator_token o)).
Proof. exact (eat_pstate done (operator_token o) todo held). Qed.

Lemma factor_pstate done d todo held :
  is_int_literal d = true ->
  Parser.factor (pstate done (number_token d :: todo) held)
  = Ok (NumberNode (int_of d),
        pstate (done ++ [number_token d]) todo (number_token d)).
Proof.
  intros Hd. unfold Parser.factor.
  change (Parser.current_token (pstate done (number_token d :: todo) held))
    with (number_token d).
  cbn [type number_token token_type_eqb value].
  rewrite eat_number. cbn [bind].
  now rewrite (py_int_literal d Hd).
Qed.

Lemma at_operator_pstate ops done todo held :
  Parser.at_operator ops (pstate done todo held)
  = is_op_token ops (hd held todo).
Proof. reflexivity. Qed.

Lemma rest_ok_stops ops rest held :
  type held = NUMBER -> rest_ok ops rest ->
  is_op_token ops (hd held rest) = false.
Proof.
  intros Hh Hr. destruct rest as [|t rest]; [|exact Hr].
  unfold is_op_token. cbn [hd]. now rewrite Hh.
Qed.

Lemma term_loop_chain pairs :
  forall done held rest nd fuel,
    forallb factor_ok pairs = true ->
    type held = NUMBER -> rest_ok mul_ops rest ->
    length pairs <= fuel ->
    exists held',
      type held' = NUMBER
      /\ Parser.term_loop fuel nd
           (pstate done (flat_map factor_tokens pairs ++ rest) held)
         = Ok (fold_left
                 (fun acc od =>
                    BinaryOperationNode acc (fst od)
                      (NumberNode (int_of (snd od))))
                 pairs nd,
               pstate (done ++ flat_map factor_tokens pairs) rest held').
Proof.
  induction pairs as [|[o d] pairs IH]; intros done held rest nd fuel
    Hok Hh Hr Hf.
  - exists held. split; [exact Hh|]. cbn [flat_map app fold_left].
    rewrite app_nil_r.
    destruct fuel; cbn [Parser.term_loop];
      fold mul_ops; rewrite at_operator_pstate;
      now rewrite (rest_ok_stops mul_ops rest held Hh Hr).
  - cbn [forallb] in Hok. apply andb_prop in Hok as [Hod Hok].
    unfold factor_ok in Hod. cbn [fst snd] in Hod.
    apply andb_prop in Hod as [Ho Hd].
    destruct fuel as [|fuel]; [simpl in Hf; lia|].
    cbn [flat_map factor_tokens fst snd app].
    cbn [Parser.term_loop]. fold mul_ops. rewrite at_operator_pstate.
    cbn [hd]. unfold is_op_token at 1. cbn [type value operator_token
      token_type_eqb andb]. rewrite Ho.
    change (Parser.current_token
              (pstate done
                 (operator_token o
                  :: number_token d :: flat_map factor_tokens pairs ++ rest)
                 held))
      with (operator_token o).
    rewrite eat_operator. cbn [bind].
    rewrite (factor_pstate _ d _ _ Hd). cbn [bind value operator_token].
    destruct (IH ((done ++ [operator_token o]) ++ [number_token d])
                (number_token d) rest
                (BinaryOperationNode nd o (NumberNode (int_of d))) fuel
                Hok eq_refl Hr ltac:(simpl in Hf; lia))
      as (held' & Hh' & Eq).
    exists held'. split; [exact Hh'|]. rewrite Eq. cbn [fold_left fst snd].
    now rewrite <- !app_assoc.
Qed.

Lemma term_pstate t done held rest fuel :
  term_ok t = true -> rest_ok mul_ops rest -> length (snd t) <= fuel ->
  exists held',
    type held' = NUMBER
    /\ Parser.term fuel (pstate done (term_tokens t ++ rest) held)
       = Ok (term_tree t, pstate (done ++ term_tokens t) rest held').
Proof.
  destruct t as [d pairs]. unfold term_ok, term_tokens, term_tree.
  cbn [fst snd]. intros Hok Hr Hf. apply andb_prop in Hok as [Hd Hok].
  unfold Parser.term. cbn [app]. rewrite (factor_pstate _ d _ _ Hd).
  cbn [bind].
  destruct (term_loop_chain pairs (done ++ [number_token d]) (number_token d)
              rest (NumberNode (int_of d)) fuel Hok eq_refl Hr Hf)
    as (held' & Hh' & Eq).
  exists held'. split; [exact Hh'|]. rewrite Eq.
  now rewrite <- app_assoc.
Qed.

Lemma add_op_is_not_mul_op o :
  existsb (str_eqb o) add_ops = true ->
  is_op_token mul_ops (operator_token o) = false.
Proof.
  unfold add_ops. cbn [existsb]. rewrite orb_false_r. intros H.
  apply orb_prop in H as [H|H]; apply str_eqb_eq in H; subst; reflexivity.
Qed.

Lemma term_tokens_length t : length (snd t) <= length (term_tokens t).
Proof.
  destruct t as [d pairs]. unfold term_tokens. cbn [fst snd length].
  induction pairs as [|od pairs IH]; cbn [flat_map length app factor_tokens];
    lia.
Qed.

Lemma expr_loop_chain terms :
  forall done held rest nd fuel,
    forallb addend_ok terms = true ->
    type held = NUMBER -> rest_ok mul_ops rest -> rest_ok add_ops rest ->
    length (flat_map addend_tokens terms) <= fuel ->
    exists held',
      type held' = NUMBER
      /\ Parser.expr_loop fuel nd
           (pstate done (flat_map addend_tokens terms ++ rest) held)
         = Ok (fold_left
                 (fun acc ot =>
                    BinaryOperationNode acc (fst ot) (term_tree (snd ot)))
                 terms nd,
               pstate (done ++ flat_map addend_tokens terms) rest held').
Proof.
  induction terms as [|[o t] terms IH]; intros done held rest nd fuel
    Hok Hh Hrm Hra Hf.
  - exists held. split; [exact Hh|]. cbn [flat_map app fold_left].
    rewrite app_nil_r.
    destruct fuel; cbn [Parser.expr_loop];
      fold add_ops; rewrite at_operator_pstate;
      now rewrite (rest_ok_stops add_ops rest held Hh Hra).
  - cbn [forallb] in Hok. apply andb_prop in Hok as [Hot Hok].
    unfold addend_ok in Hot. cbn [fst snd] in Hot.
    apply andb_prop in Hot as [Ho Ht].
    cbn [flat_map] in Hf |- *.
    change (addend_tokens (o, t)) with (operator_token o :: term_tokens t)
      in Hf |- *.
    rewrite length_app in Hf. cbn [length] in Hf.
    destruct fuel as [|fuel]; [lia|].
    rewrite <- app_assoc. cbn [app].
    cbn [Parser.expr_loop]. fold add_ops. rewrite at_operator_pstate.
    cbn [hd]. unfold is_op_token at 1. cbn [type value operator_token
      token_type_eqb andb]. rewrite Ho.
    change (Parser.current_token
              (pstate done
                 (operator_token o
                  :: term_tokens t ++ flat_map addend_tokens terms ++ rest)
                 held))
      with (operator_token o).
    rewrite eat_operator. cbn [bind].
    assert (Hrest : rest_ok mul_ops (flat_map addend_tokens terms ++ rest)).
    { destruct terms as [|[o' t'] terms']; [exact Hrm|].
      cbn [flat_map addend_tokens fst app rest_ok].
      cbn [forallb] in Hok. apply andb_prop in Hok as [Hot' _].
      unfold addend_ok in Hot'. apply andb_prop in Hot' as [Ho' _].
      now apply add_op_is_not_mul_op. }
    pose proof (term_tokens_length t) as Hlt.
    destruct (term_pstate t (done ++ [operator_token o]) (operator_token o)
                (flat_map addend_tokens terms ++ rest) fuel Ht Hrest
                ltac:(lia))
      as (held1 & Hh1 & Eq1).
    rewrite Eq1. cbn [bind value operator_token].
    destruct (IH ((done ++ [operator_token o]) ++ term_tokens t) held1 rest
                (BinaryOperationNode nd o (term_tree t)) fuel
                Hok Hh1 Hrm Hra ltac:(lia))
      as (held' & Hh' & Eq).
    exists held'. split; [exact Hh'|]. rewrite Eq. cbn [fold_left fst snd].
    now rewrite <- !app_assoc.
Qed.

(** The parser on an input of the grammar returns the tree of the grammar,
    with fuel for one turn per token. *)
Lemma parse_expr_tokens e fuel :
  expr_ok e = true -> length (expr_tokens e) <= fuel ->
  (p <- Parser.init (expr_tokens e) ;; Parser.parse fuel p)
  = Ok (expr_tree e).
Proof.
  destruct e as [t terms]. unfold expr_ok, expr_tokens, expr_tree.
  cbn [fst snd]. intros Hok Hf. apply andb_prop in Hok as [Ht Hok].
  rewrite length_app in Hf. pose proof (term_tokens_length t) as Hlt.
  change (Parser.init (term_tokens t ++ flat_map addend_tokens terms))
    with (Ok (pstate [] (term_tokens t ++ flat_map addend_tokens terms)
                (number_token (fst t)))).
  cbn [bind]. unfold Parser.parse, Parser.expr.
  assert (Hrest : rest_ok mul_ops (flat_map addend_tokens terms ++ [])).
  { destruct terms as [|[o' t'] terms']; [exact I|].
    cbn [flat_map addend_tokens fst app rest_ok].
    cbn [forallb] in Hok. apply andb_prop in Hok as [Hot' _].
    unfold addend_ok in Hot'. apply andb_prop in Hot' as [Ho' _].
    now apply add_op_is_not_mul_op. }
  rewrite <- (app_nil_r (flat_map addend_tokens terms)) at 1.
  destruct (term_pstate t [] (number_token (fst t))
              (flat_map addend_tokens terms ++ []) fuel Ht Hrest
              ltac:(lia))
    as (held1 & Hh1 & Eq1).
  rewrite Eq1. cbn [bind].
  destruct (expr_loop_chain terms ([] ++ term_tokens t) held1 [] 
              (term_tree t) fuel Hok Hh1 I I ltac:(lia))
    as (held' & Hh' & Eq).
  rewrite Eq. reflexivity.
Qed.

(** ** Lexer: inputs of the grammar *)

Lemma number_token_well_formed d :
  is_number_literal d = true -> well_formed (number_token d).
Proof.
  unfold well_formed, is_number_literal. cbn [type value number_token].
  destruct d; [discriminate|]. intros H. split; [discriminate | exact H].
Qed.

Lemma operator_token_well_formed o :
  existsb (str_eqb o) (add_ops ++ mul_ops) = true ->
  well_formed (operator_token o).
Proof.
  unfold well_formed. cbn [type value operator_token app add_ops mul_ops
    existsb]. rewrite orb_false_r. intros H.
  repeat (apply orb_prop in H as [H|H]); apply str_eqb_eq in H; subst;
    eexists; split; reflexivity.
Qed.

Lemma term_tokens_well_formed t :
  term_ok t = true -> Forall well_formed (term_tokens t).
Proof.
  destruct t as [d pairs]. unfold term_ok, term_tokens. cbn [fst snd].
  intros H. apply andb_prop in H as [Hd Hp].
  apply int_literal_is_number_literal in Hd.
  constructor; [now apply number_token_well_formed|].
  induction pairs as [|[o d'] pairs IH]; [constructor|].
  cbn [forallb] in Hp. apply andb_prop in Hp as [Hod Hp].
  unfold factor_ok in Hod. cbn [fst snd] in Hod.
  apply andb_prop in Hod as [Ho Hd'].
  apply int_literal_is_number_literal in Hd'.
  cbn [flat_map factor_tokens fst snd app].
  constructor.
  - apply operator_token_well_formed. rewrite existsb_app, Ho.
    apply orb_true_r.
  - constructor; [now apply number_token_well_formed | now apply IH].
Qed.

Lemma expr_tokens_well_formed e :
  expr_ok e = true -> Forall well_formed (expr_tokens e).
Proof.
  destruct e as [t terms]. unfold expr_ok, expr_tokens. cbn [fst snd].
  intros H. apply andb_prop in H as [Ht Hs].
  apply Forall_app. split; [now apply term_tokens_well_formed|].
  induction terms as [|[o t'] terms IH]; [constructor|].
  cbn [forallb] in Hs. apply andb_prop in Hs as [Hot Hs].
  unfold addend_ok in Hot. cbn [fst snd] in Hot.
  apply andb_prop in Hot as [Ho Ht'].
  cbn [flat_map]. change (addend_tokens (o, t'))
    with (operator_token o :: term_tokens t').
  apply Forall_app. split; [|now apply IH].
  constructor; [|now apply term_tokens_well_formed].
  apply operator_token_well_formed. rewrite existsb_app, Ho. reflexivity.
Qed.

(** No character lengthens an operator, and an operator lengthens no
    number. *)
Lemma no_merge_after_operator o l :
  no_merge (operator_token o :: l) = no_merge l.
Proof.
  destruct l as [|b l]; [reflexivity|]. cbn [no_merge]. unfold merges.
  cbn [type operator_token continuation]. now destruct (value b).
Qed.

Lemma number_then_operator d o :
  existsb (str_eqb o) (add_ops ++ mul_ops) = true ->
  merges (number_token d) (operator_token o) = false.
Proof.
  cbn [app add_ops mul_ops existsb]. rewrite orb_false_r. intros H.
  repeat (apply orb_prop in H as [H|H]); apply str_eqb_eq in H; subst o;
    reflexivity.
Qed.

Lemma no_merge_factors pairs :
  forall d rest,
    forallb factor_ok pairs = true ->
    (rest = []
     \/ exists o r, rest = operator_token o :: r
                    /\ existsb (str_eqb o) (add_ops ++ mul_ops) = true) ->
    no_merge rest = true ->
    no_merge (number_token d :: flat_map factor_tokens pairs ++ rest) = true.
Proof.
  induction pairs as [|[o d'] pairs IH]; intros d rest Hok Hshape Hrest.
  - cbn [flat_map app].
    destruct Hshape as [->|(o & r & -> & Ho)]; [reflexivity|].
    change (negb (merges (number_token d) (operator_token o))
            && no_merge (operator_token o :: r) = true).
    now rewrite (number_then_operator d o Ho), Hrest.
  - cbn [forallb] in Hok. apply andb_prop in Hok as [Hod Hok].
    unfold factor_ok in Hod. cbn [fst snd] in Hod.
    apply andb_prop in Hod as [Ho _].
    cbn [flat_map factor_tokens fst snd app].
    change (negb (merges (number_token d) (operator_token o))
            && no_merge (operator_token o
                         :: number_token d'
                         :: flat_map factor_tokens pairs ++ rest) = true).
    rewrite number_then_operator
      by (rewrite existsb_app, Ho; apply orb_true_r).
    rewrite no_merge_after_operator. now apply IH.
Qed.

Lemma no_merge_addends terms :
  forallb addend_ok terms = true ->
  (flat_map addend_tokens terms = []
   \/ exists o r, flat_map addend_tokens terms = operator_token o :: r
                  /\ existsb (str_eqb o) (add_ops ++ mul_ops) = true)
  /\ no_merge (flat_map addend_tokens terms) = true.
Proof.
  induction terms as [|[o [d pairs]] terms IH]; intros Hok.
  - split; [now left | reflexivity].
  - cbn [forallb] in Hok. apply andb_prop in Hok as [Hot Hok].
    unfold addend_ok, term_ok in Hot. cbn [fst snd] in Hot.
    apply andb_prop in Hot as [Ho Ht]. apply andb_prop in Ht as [_ Hp].
    destruct (IH Hok) as [Hshape Hnm].
    cbn [flat_map]. change (addend_tokens (o, (d, pairs)))
      with (operator_token o :: number_token d
            :: flat_map factor_tokens pairs).
    cbn [app]. split.
    + right. exists o. eexists. split; [reflexivity|].
      rewrite existsb_app, Ho. reflexivity.
    + rewrite no_merge_after_operator. now apply no_merge_factors.
Qed.

Lemma expr_tokens_no_merge e :
  expr_ok e = true -> no_merge (expr_tokens e) = true.
Proof.
  destruct e as [[d pairs] terms]. unfold expr_ok, term_ok, expr_tokens,
    term_tokens. cbn [fst snd app]. intros H.
  apply andb_prop in H as [Ht Hs]. apply andb_prop in Ht as [_ Hp].
  destruct (no_merge_addends terms Hs) as [Hshape Hnm].
  now apply no_merge_factors.
Qed.

(** Written without blanks, an input of the grammar is read as its
    tokens. *)
Lemma tokenize_expr_tokens e :
  expr_ok e = true ->
  Lexer.tokenize (literals (expr_tokens e)) = Ok (expr_tokens e).
Proof.
  intros H. rewrite tokenize_scan.
  apply literals_reread;
    [now apply expr_tokens_well_formed | now apply expr_tokens_no_merge].
Qed.

Lemma run_line_expr e fuel :
  expr_ok e = true -> length (expr_tokens e) <= fuel ->
  (ts <- Lexer.tokenize (literals (expr_tokens e)) ;;
   p <- Parser.init ts ;; Parser.parse fuel p) = Ok (expr_tree e)
  /\ run_line fuel (literals (expr_tokens e))
     = Interpreter.interpret (expr_tree e).
Proof.
  intros Hok Hf. unfold run_line. rewrite (tokenize_expr_tokens e Hok).
  cbn [bind]. pose proof (parse_expr_tokens e fuel Hok Hf) as Hp.
  split; [exact Hp|].
  destruct (Parser.init (expr_tokens e)) as [p| |]; cbn [bind] in *;
    try discriminate.
  now rewrite Hp.
Qed.

(** An integer comes from a number or an operation, which take two calls
    at least. *)
Lemma visit_int_frames frames nd a :
  Interpreter.visit frames nd = Ok (PInt a) -> exists f, frames = S (S f).
Proof.
  destruct frames as [|[|f]]; [| |eauto];
    destruct nd; cbn [Interpreter.visit]; discriminate.
Qed.

(** The value of a chain of additions and subtractions of integers: each
    operator of the chain puts its left operand two calls deeper. *)
Lemma visit_sum pairs :
  forall frames nd a,
    Interpreter.visit frames nd = Ok (PInt a) ->
    forallb (fun od => existsb (str_eqb (fst od)) add_ops) pairs = true ->
    Interpreter.visit (2 * length pairs + frames)
      (fold_left (fun acc od =>
                    BinaryOperationNode acc (fst od)
                      (NumberNode (int_of (snd od))))
                 pairs nd)
    = Ok (PInt (fold_left
                  (fun acc od =>
                     if str_eqb (fst od) (py "+")
                     then (acc + int_of (snd od))%Z
                     else (acc - int_of (snd od))%Z)
                  pairs a)).
Proof.
  induction pairs as [|[o d] pairs IH]; intros frames nd a Hnd Hok;
    [exact Hnd|].
  cbn [forallb fst] in Hok. apply andb_prop in Hok as [Ho Hok].
  cbn [fold_left fst snd length].
  replace (2 * S (length pairs) + frames)
    with (2 * length pairs + S (S frames)) by lia.
  apply IH; [|exact Hok].
  cbn [Interpreter.visit]. rewrite Hnd. cbn [bind].
  destruct (visit_int_frames _ _ _ Hnd) as (f & ->).
  cbn [Interpreter.visit bind].
  unfold add_ops in Ho. cbn [existsb] in Ho. rewrite orb_false_r in Ho.
  apply orb_prop in Ho as [Ho|Ho]; apply str_eqb_eq in Ho; subst o;
    reflexivity.
Qed.

(** A chain longer than the calls left: the leftmost number, visited
    first, is out of reach. *)
Lemma visit_chain_too_deep pairs :
  forall frames v,
    frames < 2 * length pairs + 2 ->
    Interpreter.visit frames
      (fold_left (fun acc od =>
                    BinaryOperationNode acc (fst od)
                      (NumberNode (int_of (snd od))))
                 pairs (NumberNode v))
    = Raise recursion_error.
Proof.
  induction pairs as [|[o d] pairs IH] using rev_ind; intros frames v Hf.
  - cbn [length] in Hf. cbn [fold_left].
    destruct frames as [|[|f]]; [reflexivity | reflexivity | lia].
  - rewrite fold_left_app. cbn [fold_left fst snd].
    rewrite length_app in Hf. cbn [length] in Hf.
    destruct frames as [|[|f]]; [reflexivity | reflexivity |].
    cbn [Interpreter.visit]. rewrite IH by lia. reflexivity.
Qed.

(** * The claims *)

(** C1, as the code behaves.  The specification has the input [(2+3)] fail
    in the parser.  In the code [factor] has no branch for a token that is
    not a number and falls off its end: [parse] returns [None] without
    raising, [interpret] maps [None] to [None], and the loop prints that
    value instead of an [Error:] line.  The same happens on every token list
    whose first token is neither a number nor an operator. *)
Theorem parenthesized_input_yields_None :
  Lexer.tokenize (py "(2+3)")
  = Ok [tok LPAREN "("; tok NUMBER "2"; tok OPERATOR "+"; tok NUMBER "3";
        tok RPAREN ")"]
  /\ (forall fuel,
        (ts <- Lexer.tokenize (py "(2+3)") ;;
         p <- Parser.init ts ;; Parser.parse fuel p) = Ok PyNone)
  /\ (forall fuel, run_line fuel (py "(2+3)") = Ok PNoneVal)
  /\ (forall fuel,
        repl_turn fuel (py "(2+3)") = Continue (PrintValue PNoneVal))
  /\ (forall t ts fuel,
        type t <> NUMBER -> type t <> OPERATOR ->
        (p <- Parser.init (t :: ts) ;; Parser.parse fuel p) = Ok PyNone).
Proof.
  split; [reflexivity|].
  repeat split; try (intros fuel; destruct fuel; reflexivity).
  intros t ts fuel Hn Ho.
  assert (En : token_type_eqb (type t) NUMBER = false)
    by (destruct (type t); try reflexivity; congruence).
  assert (Eo : token_type_eqb (type t) OPERATOR = false)
    by (destruct (type t); try reflexivity; congruence).
  cbn [Parser.init nth_error bind].
  unfold Parser.parse, Parser.expr, Parser.term, Parser.factor.
  cbn [Parser.current_token]. rewrite En. cbn [bind].
  destruct fuel; cbn [Parser.term_loop Parser.expr_loop bind];
    unfold Parser.at_operator; cbn [Parser.current_token];
    rewrite Eo; cbn [andb bind Parser.current_token]; rewrite Eo;
    reflexivity.
Qed.

Lemma parenthesized_input_yields_None_witness :
  type (tok LBRACE "{") <> NUMBER
  /\ type (tok LBRACE "{") <> OPERATOR
  /\ (p <- Parser.init [tok LBRACE "{"; tok NUMBER "1"; tok RBRACE "}"] ;;
      Parser.parse 3 p) = Ok PyNone.
Proof.
  assert (Hn : type (tok LBRACE "{") <> NUMBER) by discriminate.
  assert (Ho : type (tok LBRACE "{") <> OPERATOR) by discriminate.
  split; [exact Hn|]. split; [exact Ho|].
  destruct parenthesized_input_yields_None as (_ & _ & _ & _ & H).
  exact (H (tok LBRACE "{") [tok NUMBER "1"; tok RBRACE "}"] 3 Hn Ho).
Defined.

(** C5.  Multiplication binds tighter than addition.  [2+3*4] is parsed as
    [2+(3*4)] and evaluates to 14.  For all number literals [a], [b], [c] of
    at most 4300 digits, which [int] converts, [a+b*c] evaluates to
    [a+(b*c)] and [a*b+c] to [(a*b)+c]; and every input of the grammar with
    such literals is parsed with each product as one operand of the
    additions and subtractions around it. *)
Theorem multiplication_binds_tighter :
  (forall fuel,
      (ts <- Lexer.tokenize (py "2+3*4") ;;
       p <- Parser.init ts ;; Parser.parse (2 + fuel) p)
      = Ok (BinaryOperationNode (NumberNode 2) (py "+")
              (BinaryOperationNode (NumberNode 3) (py "*") (NumberNode 4)))
      /\ run_line (2 + fuel) (py "2+3*4") = Ok (PInt 14))
  /\ (forall a b c fuel,
         is_int_literal a = true -> is_int_literal b = true ->
         is_int_literal c = true -> 5 <= fuel ->
         run_line fuel (a ++ py "+" ++ b ++ py "*" ++ c)
         = Ok (PInt (int_of a + int_of b * int_of c))
         /\ run_line fuel (a ++ py "*" ++ b ++ py "+" ++ c)
            = Ok (PInt (int_of a * int_of b + int_of c)))
  /\ (forall e fuel,
         expr_ok e = true -> length (expr_tokens e) <= fuel ->
         (ts <- Lexer.tokenize (literals (expr_tokens e)) ;;
          p <- Parser.init ts ;; Parser.parse fuel p)
         = Ok (fold_left
                 (fun acc ot =>
                    BinaryOperationNode acc (fst ot) (term_tree (snd ot)))
                 (snd e) (term_tree (fst e)))).
Proof.
  split; [|split].
  - intros fuel. split.
    + change (Lexer.tokenize (py "2+3*4"))
        with (Ok [tok NUMBER "2"; tok OPERATOR "+"; tok NUMBER "3";
                  tok OPERATOR "*"; tok NUMBER "4"]).
      cbn [bind Parser.init nth_error].
      rewrite (parse_fuel 2 (2 + fuel)); [reflexivity | lia |].
      vm_compute. discriminate.
    + rewrite (run_line_fuel 2 (2 + fuel)); [reflexivity | lia |].
      vm_compute. discriminate.
  - intros a b c fuel Ha Hb Hc Hf. split.
    + pose (e := ((a, []), [(py "+", (b, [(py "*", c)]))]) : expr_shape).
      assert (Hok : expr_ok e = true).
      { cbv [e expr_ok term_ok addend_ok factor_ok fst snd forallb].
        rewrite Ha, Hb, Hc. reflexivity. }
      destruct (run_line_expr e fuel Hok Hf) as [_ Hr].
      replace (a ++ py "+" ++ b ++ py "*" ++ c) with (literals (expr_tokens e))
        by (unfold e, literals; simpl; now rewrite app_nil_r).
      rewrite Hr. reflexivity.
    + pose (e := ((a, [(py "*", b)]), [(py "+", (c, []))]) : expr_shape).
      assert (Hok : expr_ok e = true).
      { cbv [e expr_ok term_ok addend_ok factor_ok fst snd forallb].
        rewrite Ha, Hb, Hc. reflexivity. }
      destruct (run_line_expr e fuel Hok Hf) as [_ Hr].
      replace (a ++ py "*" ++ b ++ py "+" ++ c) with (literals (expr_tokens e))
        by (unfold e, literals; simpl; now rewrite app_nil_r).
      rewrite Hr. reflexivity.
  - intros e fuel Hok Hf. exact (proj1 (run_line_expr e fuel Hok Hf)).
Qed.

Lemma multiplication_binds_tighter_witness :
  is_int_literal (py "12") = true
  /\ is_int_literal (py "3") = true
  /\ is_int_literal (py "40") = true
  /\ 5 <= 5
  /\ run_line 5 (py "12+3*40") = Ok (PInt 132).
Proof.
  repeat (split; [reflexivity || apply le_n|]).
  destruct multiplication_binds_tighter as (_ & H & _).
  exact (proj1 (H (py "12") (py "3") (py "40") 5
                  eq_refl eq_refl eq_refl (le_n 5))).
Defined.

(** C6.  Operators of one level associate to the left.  [10-2-3] is parsed
    as [(10-2)-3] and evaluates to 5, not 11, and [2*3*4] is parsed as
    [(2*3)*4].  In general a chain of multiplications and divisions, and a
    chain of additions and subtractions, of number literals of at most 4300
    digits is parsed with each operator taking what is built so far as its
    left operand and the next number as its right operand.  The tree of a
    chain is as deep as the chain is long and [visit] goes down it by two
    calls a level: a chain of additions and subtractions of at most 497
    operators evaluates to the sum taken from left to right, and one of 500
    operators or more, which the whole stack could not hold, raises
    [RecursionError]. *)
Theorem same_level_associates_left :
  (forall fuel,
      (ts <- Lexer.tokenize (py "10-2-3") ;;
       p <- Parser.init ts ;; Parser.parse (2 + fuel) p)
      = Ok (BinaryOperationNode
              (BinaryOperationNode (NumberNode 10) (py "-") (NumberNode 2))
              (py "-") (NumberNode 3))
      /\ run_line (2 + fuel) (py "10-2-3") = Ok (PInt 5)
      /\ run_line (2 + fuel) (py "10-2-3") <> Ok (PInt 11)
      /\ (ts <- Lexer.tokenize (py "2*3*4") ;;
          p <- Parser.init ts ;; Parser.parse (2 + fuel) p)
         = Ok (BinaryOperationNode
                 (BinaryOperationNode (NumberNode 2) (py "*") (NumberNode 3))
                 (py "*") (NumberNode 4)))
  /\ (forall d0 pairs fuel,
         term_ok (d0, pairs) = true ->
         length (term_tokens (d0, pairs)) <= fuel ->
         (ts <- Lexer.tokenize (literals (term_tokens (d0, pairs))) ;;
          p <- Parser.init ts ;; Parser.parse fuel p)
         = Ok (fold_left
                 (fun acc od =>
                    BinaryOperationNode acc (fst od)
                      (NumberNode (int_of (snd od))))
                 pairs (NumberNode (int_of d0))))
  /\ (forall d0 pairs fuel,
         is_int_literal d0 = true ->
         forallb (fun od => existsb (str_eqb (fst od)) add_ops
                            && is_int_literal (snd od)) pairs = true ->
         S (2 * length pairs) <= fuel ->
         let code :=
           d0 ++ concat (map (fun od => fst od ++ snd od) pairs) in
         (ts <- Lexer.tokenize code ;;
          p <- Parser.init ts ;; Parser.parse fuel p)
         = Ok (fold_left
                 (fun acc od =>
                    BinaryOperationNode acc (fst od)
                      (NumberNode (int_of (snd od))))
                 pairs (NumberNode (int_of d0)))
         /\ (2 * length pairs + 5 <= recursion_limit ->
             run_line fuel code
             = Ok (PInt (fold_left
                           (fun acc od =>
                              if str_eqb (fst od) (py "+")
                              then (acc + int_of (snd od))%Z
                              else (acc - int_of (snd od))%Z)
                           pairs (int_of d0))))
         /\ (recursion_limit < 2 * length pairs + 2 ->
             run_line fuel code = Raise recursion_error)).
Proof.
  split; [|split].
  - intros fuel.
    assert (H5 : run_line (2 + fuel) (py "10-2-3") = Ok (PInt 5)).
    { rewrite (run_line_fuel 2 (2 + fuel)); [reflexivity | lia |].
      vm_compute. discriminate. }
    repeat split.
    + change (Lexer.tokenize (py "10-2-3"))
        with (Ok [tok NUMBER "10"; tok OPERATOR "-"; tok NUMBER "2";
                  tok OPERATOR "-"; tok NUMBER "3"]).
      cbn [bind Parser.init nth_error].
      rewrite (parse_fuel 2 (2 + fuel)); [reflexivity | lia |].
      vm_compute. discriminate.
    + exact H5.
    + rewrite H5. discriminate.
    + change (Lexer.tokenize (py "2*3*4"))
        with (Ok [tok NUMBER "2"; tok OPERATOR "*"; tok NUMBER "3";
                  tok OPERATOR "*"; tok NUMBER "4"]).
      cbn [bind Parser.init nth_error].
      rewrite (parse_fuel 2 (2 + fuel)); [reflexivity | lia |].
      vm_compute. discriminate.
  - intros d0 pairs fuel Hok Hf.
    pose (e := ((d0, pairs), []) : expr_shape).
    assert (He : expr_tokens e = term_tokens (d0, pairs))
      by (unfold e, expr_tokens; cbn [fst snd flat_map]; apply app_nil_r).
    assert (Hoke : expr_ok e = true)
      by (unfold e, expr_ok; cbn [fst snd forallb]; now rewrite Hok).
    rewrite <- He in Hf |- *.
    exact (proj1 (run_line_expr e fuel Hoke Hf)).
  - intros d0 pairs fuel Hd Hp Hf code.
    pose (e := ((d0, []), map (fun od => (fst od, (snd od, []))) pairs)
               : expr_shape).
    assert (Hoke : expr_ok e = true).
    { unfold e, expr_ok, term_ok. cbn [fst snd forallb]. rewrite Hd.
      cbn [andb]. clear Hf code e.
      induction pairs as [|[o d] pairs IH]; [reflexivity|].
      cbn [map forallb fst snd] in Hp |- *.
      apply andb_prop in Hp as [Hod Hp]. apply andb_prop in Hod as [Ho Hd'].
      unfold addend_ok at 1, term_ok. cbn [fst snd forallb].
      now rewrite Ho, Hd', (IH Hp). }
    assert (Hcode : literals (expr_tokens e) = code).
    { unfold e, code, expr_tokens, term_tokens, literals.
      cbn [fst snd flat_map app map concat number_token value]. f_equal.
      clear. induction pairs as [|[o d] pairs IH]; [reflexivity|].
      cbn [map flat_map concat fst snd].
      change (addend_tokens (o, (d, [])))
        with [operator_token o; number_token d].
      cbn [app map concat value operator_token number_token].
      now rewrite IH, <- app_assoc. }
    assert (Hlen : length (expr_tokens e) <= fuel).
    { unfold e, expr_tokens, term_tokens.
      cbn [fst snd flat_map app length]. clear - Hf.
      assert (length (flat_map addend_tokens
                        (map (fun od : str * str => (fst od, (snd od, [])))
                             pairs)) = 2 * length pairs).
      { clear. induction pairs as [|[o d] pairs IH]; [reflexivity|].
        cbn [map flat_map fst snd].
        change (addend_tokens (o, (d, [])))
          with [operator_token o; number_token d].
        cbn [app length]. rewrite IH. lia. }
      lia. }
    assert (Htree : expr_tree e
                    = fold_left
                        (fun acc od =>
                           BinaryOperationNode acc (fst od)
                             (NumberNode (int_of (snd od))))
                        pairs (NumberNode (int_of d0))).
    { unfold e, expr_tree, term_tree. cbn [fst snd fold_left].
      generalize (NumberNode (int_of d0)). clear.
      induction pairs as [|[o d] pairs IH]; intros nd; [reflexivity|].
      cbn [map fold_left fst snd]. apply IH. }
    destruct (run_line_expr e fuel Hoke Hlen) as [Hparse Hrun].
    rewrite Hcode, Htree in *. split; [exact Hparse|].
    rewrite Hrun. unfold Interpreter.interpret, Interpreter.frames_left.
    split; intros Hrec.
    + replace (recursion_limit - 3)
        with (2 * length pairs + (recursion_limit - 3 - 2 * length pairs))
        by lia.
      apply visit_sum.
      * destruct (recursion_limit - 3 - 2 * length pairs) as [|[|f]] eqn:E;
          [lia | lia | reflexivity].
      * clear - Hp. induction pairs as [|[o d] pairs IH]; [reflexivity|].
        cbn [forallb fst snd] in Hp |- *.
        apply andb_prop in Hp as [Hod Hp]. apply andb_prop in Hod as [Ho _].
        now rewrite Ho, (IH Hp).
    + apply visit_chain_too_deep. lia.
Qed.

Lemma same_level_associates_left_witness :
  is_int_literal (py "100") = true
  /\ 2 * 3 + 5 <= recursion_limit
  /\ run_line 7 (py "100-20+3-4") = Ok (PInt 79).
Proof.
  assert (Hrec : 2 * 3 + 5 <= recursion_limit)
    by (apply Nat.leb_le; reflexivity).
  split; [reflexivity|]. split; [exact Hrec|].
  destruct same_level_associates_left as (_ & _ & H).
  exact (proj1 (proj2 (H (py "100") [(py "-", py "20"); (py "+", py "3");
                                     (py "-", py "4")] 7
                         eq_refl eq_refl (le_n 7))) Hrec).
Defined.

(** Once the cursor has passed the trailing [+] of [2+], every turn of the
    loop of [expr] finds the same state again. *)
Lemma expr_loop_dangling fuel nd i :
  Parser.expr_loop fuel nd
    (at_index [tok NUMBER "2"; tok OPERATOR "+"] (S i) (tok OPERATOR "+"))
  = Timeout.
Proof.
  revert nd i. induction fuel as [|fuel IH]; intros nd i; [reflexivity|].
  cbn [Parser.expr_loop].
  change (Parser.at_operator [py "+"; py "-"]
            (at_index [tok NUMBER "2"; tok OPERATOR "+"] (S i)
               (tok OPERATOR "+"))) with true.
  cbv iota.
  change (Parser.eat OPERATOR
            (at_index [tok NUMBER "2"; tok OPERATOR "+"] (S i)
               (tok OPERATOR "+")))
    with (Ok (at_index [tok NUMBER "2"; tok OPERATOR "+"] (S (S i))
                (tok OPERATOR "+"))).
  cbn [bind].
  assert (Hterm : Parser.term fuel
                    (at_index [tok NUMBER "2"; tok OPERATOR "+"] (S (S i))
                       (tok OPERATOR "+"))
                  = Ok (PyNone,
                        at_index [tok NUMBER "2"; tok OPERATOR "+"] (S (S i))
                          (tok OPERATOR "+")))
    by (destruct fuel; reflexivity).
  rewrite Hterm. cbn [bind]. apply IH.
Qed.

(** C3.  On the tokens of [2+] the parser does not return: after the
    trailing [+] is eaten the held current token is that [+] at every later
    index, [eat] keeps succeeding, [factor] yields no node, and the loop of
    [expr] runs out of any amount of fuel. *)
Theorem parse_of_dangling_operator_never_returns :
  Lexer.tokenize (py "2+") = Ok [tok NUMBER "2"; tok OPERATOR "+"]
  /\ Parser.init [tok NUMBER "2"; tok OPERATOR "+"]
     = Ok (at_index [tok NUMBER "2"; tok OPERATOR "+"] 0 (tok NUMBER "2"))
  /\ (forall i,
        Parser.eat OPERATOR
          (at_index [tok NUMBER "2"; tok OPERATOR "+"] (S i)
             (tok OPERATOR "+"))
        = Ok (at_index [tok NUMBER "2"; tok OPERATOR "+"] (S (S i))
                (tok OPERATOR "+"))
        /\ Parser.factor
             (at_index [tok NUMBER "2"; tok OPERATOR "+"] (S i)
                (tok OPERATOR "+"))
           = Ok (PyNone,
                 at_index [tok NUMBER "2"; tok OPERATOR "+"] (S i)
                   (tok OPERATOR "+")))
  /\ (forall fuel,
        Parser.parse fuel
          (at_index [tok NUMBER "2"; tok OPERATOR "+"] 0 (tok NUMBER "2"))
        = Timeout)
  /\ (forall fuel, run_line fuel (py "2+") = Timeout).
Proof.
  assert (Hparse : forall fuel,
             Parser.parse fuel
               (at_index [tok NUMBER "2"; tok OPERATOR "+"] 0
                  (tok NUMBER "2"))
             = Timeout).
  { intros fuel. unfold Parser.parse, Parser.expr.
    assert (Hterm : Parser.term fuel
                      (at_index [tok NUMBER "2"; tok OPERATOR "+"] 0
                         (tok NUMBER "2"))
                    = Ok (NumberNode 2,
                          at_index [tok NUMBER "2"; tok OPERATOR "+"] 1
                            (tok OPERATOR "+")))
      by (destruct fuel; reflexivity).
    rewrite Hterm. cbn [bind]. now rewrite expr_loop_dangling. }
  repeat split; try reflexivity; try exact Hparse.
  intros fuel. unfold run_line.
  change (Lexer.tokenize (py "2+"))
    with (Ok [tok NUMBER "2"; tok OPERATOR "+"]).
  cbn [bind Parser.init nth_error]. fold (at_index
    [tok NUMBER "2"; tok OPERATOR "+"] 0 (tok NUMBER "2")).
  now rewrite Hparse.
Qed.

(** C4.  [/] is true division: [7/2] evaluates to the double 3.5, not to 3,
    and the quotient of two integers is a double even when it is whole
    ([6/2] is 3.0).  A right operand that is the integer zero makes the
    division raise [ZeroDivisionError], as in [5/0], at whatever depth the
    operands are visited. *)
Theorem division_is_true_division :
  (forall fuel,
      run_line (1 + fuel) (py "7/2")
      = Ok (PFloat (S754_finite false 7881299347898368 (-51))))
  /\ (exists q,
         float_to_Q (S754_finite false 7881299347898368 (-51)) = Some q
         /\ (q == 7 # 2)%Q /\ ~ (q == 3)%Q)
  /\ (forall fuel,
         run_line (1 + fuel) (py "6/2")
         = Ok (PFloat (S754_finite false 6755399441055744 (-51))))
  /\ (forall x y,
         y <> 0%Z ->
         (exists f, int_true_divide x y = Ok (PFloat f))
         \/ int_true_divide x y
            = raise OverflowError
                "integer division result too large for a float")
  /\ (forall fuel,
         run_line (1 + fuel) (py "5/0")
         = Raise {| exn_cls := ZeroDivisionError;
                    exn_msg := py "division by zero" |})
  /\ (forall frames l r a,
         Interpreter.visit frames l = Ok a -> a <> PNoneVal ->
         Interpreter.visit frames r = Ok (PInt 0) ->
         exists msg,
           Interpreter.visit (2 + frames) (BinaryOperationNode l (py "/") r)
           = Raise {| exn_cls := ZeroDivisionError; exn_msg := msg |}).
Proof.
  split; [|split; [|split; [|split; [|split]]]].
  - intros fuel. rewrite (run_line_fuel 1 (1 + fuel)); [reflexivity | lia |].
    vm_compute. discriminate.
  - eexists. split; [reflexivity|]. split; vm_compute; congruence.
  - intros fuel. rewrite (run_line_fuel 1 (1 + fuel)); [reflexivity | lia |].
    vm_compute. discriminate.
  - intros x y Hy. unfold int_true_divide.
    destruct x as [|x|x]; destruct y as [|y|y]; try congruence;
      try (left; eexists; reflexivity);
      match goal with
      | |- context [is_infinity ?q] => destruct (is_infinity q)
      end; (right; reflexivity) || (left; eexists; reflexivity).
  - intros fuel. rewrite (run_line_fuel 1 (1 + fuel)); [reflexivity | lia |].
    vm_compute. discriminate.
  - intros frames l r a Hl Ha Hr.
    cbn [Nat.add Interpreter.visit]. rewrite Hl, Hr. cbn [bind].
    change (str_eqb (py "/") (py "+")) with false.
    change (str_eqb (py "/") (py "-")) with false.
    change (str_eqb (py "/") (py "*")) with false.
    change (str_eqb (py "/") (py "/")) with true. cbv iota.
    destruct a as [x|f|]; [| |congruence].
    + destruct x; eexists; reflexivity.
    + unfold py_truediv, as_float. cbn [bind].
      change (float_of_int 0) with (Ok (S754_zero false)). cbn [bind is_zero].
      eexists. reflexivity.
Qed.

Lemma division_is_true_division_witness :
  Interpreter.visit 2 (NumberNode 5) = Ok (PInt 5)
  /\ PInt 5 <> PNoneVal
  /\ Interpreter.visit 2 (NumberNode 0) = Ok (PInt 0)
  /\ exists msg,
       Interpreter.visit 4
         (BinaryOperationNode (NumberNode 5) (py "/") (NumberNode 0))
       = Raise {| exn_cls := ZeroDivisionError; exn_msg := msg |}.
Proof.
  assert (Hn : PInt 5 <> PNoneVal) by discriminate.
  split; [reflexivity|]. split; [exact Hn|]. split; [reflexivity|].
  destruct division_is_true_division as (_ & _ & _ & _ & _ & H).
  exact (H 2 (NumberNode 5) (NumberNode 0) (PInt 5) eq_refl Hn eq_refl).
Defined.

(** C2.  In every state the parser reaches on a non-empty token list the
    current token is a token of the list, the one at the index or the last
    one beyond it.  [eat] of the kind of the current token returns and moves
    the index on; from the last token on it keeps that token, however often
    it is called.  [eat] of another kind raises [Exception]; no call raises
    [IndexError]. *)
Theorem eat_holds_last_token ts p ty :
  ts <> [] -> reachable ts p ->
  nth_error ts (Nat.min (Parser.current_token_index p) (length ts - 1))
  = Some (Parser.current_token p)
  /\ (type (Parser.current_token p) = ty ->
      exists p',
        Parser.eat ty p = Ok p' /\ reachable ts p'
        /\ Parser.current_token_index p' = S (Parser.current_token_index p)
        /\ (length ts - 1 <= Parser.current_token_index p ->
            Parser.current_token p' = Parser.current_token p
            /\ nth_error ts (length ts - 1)
               = Some (Parser.current_token p')))
  /\ (type (Parser.current_token p) <> ty ->
      exists msg,
        Parser.eat ty p
        = Raise {| exn_cls := Exception; exn_msg := msg |}).
Proof.
  intros Hne Hr. destruct (reachable_current ts p Hr) as [Ht Hc].
  assert (Hlen : 0 < length ts) by (destruct ts; [congruence | simpl; lia]).
  split; [exact Hc|]. split.
  - intros Hty.
    assert (He : exists p', Parser.eat ty p = Ok p'
                 /\ Parser.current_token_index p'
                    = S (Parser.current_token_index p)
                 /\ (length ts - 1 <= Parser.current_token_index p ->
                     Parser.current_token p' = Parser.current_token p)).
    { unfold Parser.eat. rewrite (proj2 (token_type_eqb_eq _ _) Hty), Ht.
      destruct (S (Parser.current_token_index p) <? length ts) eqn:El.
      - apply Nat.ltb_lt in El.
        destruct (nth_error ts (S (Parser.current_token_index p)))
          as [tk|] eqn:En.
        + eexists. split; [reflexivity|]. split; [reflexivity|]. lia.
        + apply nth_error_None in En. lia.
      - eexists. split; [reflexivity|]. split; reflexivity. }
    destruct He as (p' & He & Hi & Hk). exists p'.
    split; [exact He|]. split; [eapply reach_eat; eauto|].
    split; [exact Hi|]. intros Hlast. split; [auto|].
    rewrite (Hk Hlast). rewrite Nat.min_r in Hc by lia. exact Hc.
  - intros Hty. unfold Parser.eat.
    destruct (token_type_eqb (type (Parser.current_token p)) ty) eqn:E.
    + apply token_type_eqb_eq in E. contradiction.
    + eexists. reflexivity.
Qed.

Lemma eat_holds_last_token_witness :
  [tok NUMBER "7"] <> []
  /\ reachable [tok NUMBER "7"] (at_index [tok NUMBER "7"] 0 (tok NUMBER "7"))
  /\ exists p',
       Parser.eat NUMBER (at_index [tok NUMBER "7"] 0 (tok NUMBER "7"))
       = Ok p'
       /\ Parser.current_token p' = tok NUMBER "7".
Proof.
  assert (Hne : [tok NUMBER "7"] <> []) by discriminate.
  assert (Hr : reachable [tok NUMBER "7"]
                 (at_index [tok NUMBER "7"] 0 (tok NUMBER "7")))
    by (apply reach_init; reflexivity).
  split; [exact Hne|]. split; [exact Hr|].
  destruct (eat_holds_last_token [tok NUMBER "7"]
              (at_index [tok NUMBER "7"] 0 (tok NUMBER "7")) NUMBER Hne Hr)
    as (_ & Heat & _).
  destruct (Heat eq_refl) as (p' & He & _ & _ & Hk).
  exists p'. split; [exact He|].
  destruct (Hk (le_n 0)) as [Hcur _]. exact Hcur.
Defined.

Lemma nth_error_skipn_head (c : str) pos ch :
  nth_error c pos = Some ch -> exists r, skipn pos c = ch :: r.
Proof.
  revert c. induction pos as [|pos IH]; intros [|a c]; simpl;
    try discriminate.
  - intros [= ->]. eauto.
  - apply IH.
Qed.

Lemma skipn_head_nth_error (c : str) pos ch r :
  skipn pos c = ch :: r -> nth_error c pos = Some ch.
Proof.
  revert c. induction pos as [|pos IH]; intros [|a c]; simpl;
    try discriminate.
  - now intros [= -> _].
  - apply IH.
Qed.

Lemma no_token_no_match ch r :
  starts_token ch = false -> next_token (ch :: r) = None.
Proof.
  unfold starts_token. intros H.
  repeat (apply orb_false_elim in H as [H ?]).
  unfold next_token.
  repeat match goal with
         | E : ?b = false |- context [if ?b then _ else _] => rewrite E
         end.
  reflexivity.
Qed.

(** The cursor positions of a failing call lead to the failure. *)
Lemma scan_raises_at_cursor c e fuel :
  forall pos,
    cursor_at c pos -> length (skipn pos c) <= fuel ->
    scan fuel (skipn pos c) = Raise e ->
    exists pos' ch,
      cursor_at c pos' /\ nth_error c pos' = Some ch
      /\ Lexer.first_match patterns (skipn pos' c) = None
      /\ e = {| exn_cls := Exception;
                exn_msg := py "Unexpected character: " ++ [ch] |}.
Proof.
  induction fuel as [|fuel IH]; intros pos Hat Hlen Hr.
  - destruct (skipn pos c); [discriminate | simpl in Hlen; lia].
  - destruct (skipn pos c) as [|ch r] eqn:Es; [discriminate|].
    cbn [scan] in Hr.
    destruct (Lexer.first_match patterns (ch :: r)) as [[[ty v] rest]|] eqn:Em.
    + pose proof Em as Em'. rewrite first_match_next_token in Em'.
      pose proof (next_token_shorter _ _ _ _ Em') as Hlt.
      apply next_token_split in Em' as [Hsplit Hv].
      assert (Hrest : skipn (pos + length v) c = rest)
        by (apply skipn_past; congruence).
      apply bind_Raise_inv in Hr as [Hr|(ts & _ & Hr)]; [|discriminate].
      apply (IH (pos + length v)).
      * apply (cursor_next c pos ty v rest); [exact Hat | now rewrite Es].
      * rewrite Hrest. simpl in Hlen, Hlt. lia.
      * now rewrite Hrest.
    + injection Hr as <-. exists pos, ch.
      split; [exact Hat|]. split; [now apply (skipn_head_nth_error c pos ch r)|].
      split; [now rewrite Es | reflexivity].
Qed.

(** C8, as the code behaves.  Where the cursor of [tokenize] stands on a
    character at which no pattern matches -- such as [@] or [#], with which
    no pattern starts -- the call raises on the spot: no token list is
    returned, the character is not passed over, and the message is
    [Unexpected character: ] followed by that character.  [tokenize] raises
    in no other way.  The message holds nothing else; the offset is not in
    it. *)
Theorem unmatched_character_raises :
  (forall c pos ch,
      cursor_at c pos ->
      nth_error c pos = Some ch ->
      Lexer.first_match patterns (skipn pos c) = None ->
      Lexer.tokenize c
      = Raise {| exn_cls := Exception;
                 exn_msg := py "Unexpected character: " ++ [ch] |})
  /\ (forall c pos ch,
         cursor_at c pos ->
         nth_error c pos = Some ch ->
         starts_token ch = false ->
         Lexer.tokenize c
         = Raise {| exn_cls := Exception;
                    exn_msg := py "Unexpected character: " ++ [ch] |})
  /\ starts_token "@" = false /\ starts_token "#" = false
  /\ (forall c e,
         Lexer.tokenize c = Raise e ->
         exists pos ch,
           cursor_at c pos /\ nth_error c pos = Some ch
           /\ Lexer.first_match patterns (skipn pos c) = None
           /\ e = {| exn_cls := Exception;
                     exn_msg := py "Unexpected character: " ++ [ch] |}).
Proof.
  assert (Hmain : forall c pos ch,
             cursor_at c pos ->
             nth_error c pos = Some ch ->
             Lexer.first_match patterns (skipn pos c) = None ->
             Lexer.tokenize c
             = Raise {| exn_cls := Exception;
                        exn_msg := py "Unexpected character: " ++ [ch] |}).
  { intros c pos ch Hat Hch Hm. rewrite tokenize_scan.
    apply (scan_raises_from_cursor c pos); [exact Hat|].
    destruct (nth_error_skipn_head c pos ch Hch) as [r Hs].
    rewrite scan_eq by lia. rewrite first_match_next_token in Hm.
    rewrite Hs in *. now rewrite Hm. }
  split; [exact Hmain|]. split; [|split; [reflexivity|split; [reflexivity|]]].
  - intros c pos ch Hat Hch Hst. apply (Hmain c pos ch Hat Hch).
    destruct (nth_error_skipn_head c pos ch Hch) as [r Hs].
    rewrite Hs, first_match_next_token. now apply no_token_no_match.
  - intros c e Hr. rewrite tokenize_scan in Hr.
    apply (scan_raises_at_cursor c e (length c) 0);
      [apply cursor_start | simpl; lia | exact Hr].
Qed.

Lemma unmatched_character_raises_witness :
  cursor_at (py "1 @") 2
  /\ nth_error (py "1 @") 2 = Some "@"%char
  /\ Lexer.first_match patterns (skipn 2 (py "1 @")) = None
  /\ Lexer.tokenize (py "1 @")
     = Raise {| exn_cls := Exception;
                exn_msg := py "Unexpected character: @" |}.
Proof.
  assert (Hat : cursor_at (py "1 @") 2).
  { apply (cursor_next (py "1 @") 1 SKIP (py " ") (py "@")); [|reflexivity].
    apply (cursor_next (py "1 @") 0 NUMBER (py "1") (py " @"));
      [|reflexivity].
    apply cursor_start. }
  split; [exact Hat|]. split; [reflexivity|]. split; [reflexivity|].
  destruct unmatched_character_raises as (H & _).
  exact (H (py "1 @") 2 "@"%char Hat eq_refl eq_refl).
Defined.

(** C8 as stated fails: the message of the lexer's exception does not give
    the offset.  [@] at offset 0 and [@] at offset 1 raise the same message,
    so nothing computed from the message is the offset. *)
Lemma lexer_message_omits_offset :
  ~ (exists offset_of : str -> nat,
        forall c pos ch,
          cursor_at c pos -> nth_error c pos = Some ch ->
          Lexer.first_match patterns (skipn pos c) = None ->
          exists msg,
            Lexer.tokenize c
            = Raise {| exn_cls := Exception; exn_msg := msg |}
            /\ offset_of msg = pos).
Proof.
  intros [offset_of H].
  destruct (H (py "@") 0 "@"%char (cursor_start _) eq_refl eq_refl)
    as (m0 & E0 & O0).
  assert (Hat : cursor_at (py " @") 1)
    by (apply (cursor_next (py " @") 0 SKIP (py " ") (py "@"));
        [apply cursor_start | reflexivity]).
  destruct (H (py " @") 1 "@"%char Hat eq_refl eq_refl) as (m1 & E1 & O1).
  vm_compute in E0, E1. injection E0 as <-. injection E1 as <-.
  rewrite O0 in O1. discriminate.
Qed.

(** C7, as the code behaves.  The tokens of an input are read back from the
    concatenation of their literals exactly when no token merges with the
    one after it, that is, when no token starts with a character that
    lengthens the token before it: a digit after a number, a letter, a digit
    or an underscore after an identifier.  (Such neighbours were kept apart
    by a blank that the concatenation drops.)  So they are read back
    whenever no number directly follows a number or an identifier and no
    identifier directly follows an identifier. *)
Theorem retokenize_literals code ts :
  Lexer.tokenize code = Ok ts ->
  (Lexer.tokenize (literals ts) = Ok ts <-> no_merge ts = true)
  /\ (no_clash ts = true -> Lexer.tokenize (literals ts) = Ok ts).
Proof.
  intros Ht. rewrite tokenize_scan in Ht.
  apply scan_well_formed in Ht. rewrite tokenize_scan. split; [split|].
  - now apply reread_no_merge.
  - now apply literals_reread.
  - intros Hc. apply literals_reread; [exact Ht|].
    now apply no_clash_no_merge.
Qed.

Lemma retokenize_literals_witness :
  Lexer.tokenize (py "12 + x")
  = Ok [tok NUMBER "12"; tok OPERATOR "+"; tok IDENTIFIER "x"]
  /\ Lexer.tokenize
       (literals [tok NUMBER "12"; tok OPERATOR "+"; tok IDENTIFIER "x"])
     = Ok [tok NUMBER "12"; tok OPERATOR "+"; tok IDENTIFIER "x"].
Proof.
  split; [reflexivity|].
  exact (proj2 (retokenize_literals (py "12 + x")
                  [tok NUMBER "12"; tok OPERATOR "+"; tok IDENTIFIER "x"]
                  eq_refl) eq_refl).
Defined.

(** C7 as stated fails: [1 2] is two numbers, and their literals put
    together are the one number [12]. *)
Lemma retokenize_merges_numbers :
  Lexer.tokenize (py "1 2") = Ok [tok NUMBER "1"; tok NUMBER "2"]
  /\ Lexer.tokenize (literals [tok NUMBER "1"; tok NUMBER "2"])
     = Ok [tok NUMBER "12"]
  /\ Lexer.tokenize (literals [tok NUMBER "1"; tok NUMBER "2"])
     <> Ok [tok NUMBER "1"; tok NUMBER "2"].
Proof. repeat split; try reflexivity. vm_compute. discriminate. Qed.

(** ** Blank lines *)

Lemma blank_is_space c : is_blank c = true -> is_space c = true.
Proof.
  unfold is_blank. intros H.
  apply orb_prop in H as [H|H]; apply is_char_eq in H; subst; reflexivity.
Qed.

Lemma lstrip_blank s : forallb is_blank s = true -> lstrip s = [].
Proof.
  induction s as [|c s IH]; simpl; [reflexivity|].
  intros H. apply andb_prop in H as [Hc Hs].
  now rewrite (blank_is_space c Hc), IH.
Qed.

Lemma next_token_skip c s ty v rest :
  next_token (c :: s) = Some (ty, v, rest) ->
  token_type_eqb ty SKIP = true -> is_blank c = true /\ rest = s.
Proof.
  unfold next_token.
  repeat match goal with
         | |- context [if ?b then _ else _] => destruct b eqn:?
         end;
    try (intros [= <- <- <-]; simpl; intros; try discriminate; auto);
    try discriminate.
  destruct (drop_while is_not_dquote s); [discriminate|].
  intros [= <- <- <-]. discriminate.
Qed.

Lemma scan_blank fuel s :
  length s <= fuel -> (scan fuel s = Ok [] <-> forallb is_blank s = true).
Proof.
  revert s. induction fuel as [|fuel IH]; intros s Hlen.
  - destruct s; [|simpl in Hlen; lia]. simpl. tauto.
  - destruct s as [|c s]; [simpl; tauto|].
    cbn [scan forallb]. rewrite first_match_next_token. split.
    + destruct (next_token (c :: s)) as [[[ty v] rest]|] eqn:E;
        [|discriminate].
      intros H. apply bind_Ok_inv in H as (ts & Hs & Hk).
      destruct (token_type_eqb ty SKIP) eqn:Et; [|discriminate].
      injection Hk as ->.
      destruct (next_token_skip _ _ _ _ _ E Et) as [Hc ->].
      rewrite Hc. simpl. apply IH; [simpl in Hlen; lia | exact Hs].
    + intros H. apply andb_prop in H as [Hc Hs].
      assert (E : next_token (c :: s) = Some (SKIP, [c], s)).
      { unfold is_blank in Hc.
        apply orb_prop in Hc as [Hc|Hc]; apply is_char_eq in Hc; subst;
          reflexivity. }
      rewrite E. apply IH in Hs; [|simpl in Hlen; lia].
      now rewrite Hs.
Qed.

(** C10.  The token list is empty exactly for a line of spaces and tabs
    (the empty line among them).  On such a line [Parser.__init__] raises
    [IndexError] on [tokens[0]], the loop catches it and prints it as an
    [Error:] line, and no result value is printed. *)
Theorem blank_line_is_an_index_error :
  Parser.init []
  = Raise {| exn_cls := IndexError; exn_msg := py "list index out of range" |}
  /\ (forall code,
         Lexer.tokenize code = Ok [] <-> forallb is_blank code = true)
  /\ (forall fuel code,
         Lexer.tokenize code = Ok [] ->
         run_line fuel code
         = Raise {| exn_cls := IndexError;
                    exn_msg := py "list index out of range" |}
         /\ repl_turn fuel code
            = Continue (PrintLine (py "Error: list index out of range"))).
Proof.
  split; [reflexivity|].
  assert (Hb : forall code,
             Lexer.tokenize code = Ok [] <-> forallb is_blank code = true).
  { intros code. rewrite tokenize_scan. now apply scan_blank. }
  split; [exact Hb|]. intros fuel code Ht.
  assert (Hrun : run_line fuel code
                 = Raise {| exn_cls := IndexError;
                            exn_msg := py "list index out of range" |})
    by (unfold run_line; rewrite Ht; reflexivity).
  split; [exact Hrun|]. unfold repl_turn.
  apply Hb in Ht. unfold strip. rewrite (lstrip_blank code Ht).
  simpl rev. rewrite Hrun. reflexivity.
Qed.

Lemma blank_line_is_an_index_error_witness :
  Lexer.tokenize (py "   ") = Ok []
  /\ repl_turn 5 (py "   ")
     = Continue (PrintLine (py "Error: list index out of range")).
Proof.
  split; [reflexivity|].
  destruct blank_line_is_an_index_error as (_ & _ & H).
  exact (proj2 (H 5 (py "   ") eq_refl)).
Defined.

(** ** Messages are one line *)

Lemma next_token_none_not_newline c s :
  next_token (c :: s) = None -> is_char newline c = false.
Proof.
  intros H. destruct (is_char newline c) eqn:E; [|reflexivity].
  apply is_char_eq in E. subst c. discriminate H.
Qed.

Lemma scan_message fuel s e :
  scan fuel s = Raise e -> single_line (exn_msg e) = true.
Proof.
  revert s. induction fuel as [|fuel IH]; intros s.
  - destruct s; discriminate.
  - destruct s as [|c s]; [discriminate|]. cbn [scan].
    rewrite first_match_next_token.
    destruct (next_token (c :: s)) as [[[ty v] rest]|] eqn:E.
    + intros H. apply bind_Raise_inv in H as [H|(ts & _ & H)];
        [eauto | discriminate].
    + intros [= <-]. cbn [exn_msg]. unfold single_line. cbn [forallb].
      rewrite (next_token_none_not_newline c s E). reflexivity.
Qed.

Lemma eat_message ty p e :
  Parser.eat ty p = Raise e -> single_line (exn_msg e) = true.
Proof.
  unfold Parser.eat.
  destruct (token_type_eqb (type (Parser.current_token p)) ty).
  - destruct (S (Parser.current_token_index p) <? length (Parser.tokens p));
      [|discriminate].
    destruct (nth_error (Parser.tokens p) (S (Parser.current_token_index p)));
      [discriminate|].
    intros [= <-]. reflexivity.
  - intros [= <-]. cbn [exn_msg].
    destruct ty; destruct (type (Parser.current_token p)); reflexivity.
Qed.

Lemma single_line_app a b :
  single_line (a ++ b) = single_line a && single_line b.
Proof. apply forallb_app. Qed.

Lemma single_line_firstn n s :
  single_line s = true -> single_line (firstn n s) = true.
Proof.
  revert n. induction s as [|c s IH]; intros [|n]; try reflexivity.
  cbn [firstn single_line forallb]. intros H.
  apply andb_prop in H as [-> H]. exact (IH n H).
Qed.

(** [repr] writes a line break as a backslash and the letter n. *)
Lemma repr_char_line quote c :
  quote = squote \/ quote = dquote ->
  single_line (repr_char quote c) = true.
Proof.
  intros [-> | ->]; destruct c as [[] [] [] [] [] [] [] []]; reflexivity.
Qed.

Lemma quoted_line quote s :
  quote = squote \/ quote = dquote ->
  single_line (quote :: flat_map (repr_char quote) s ++ [quote]) = true.
Proof.
  intros Hq.
  assert (Hl : negb (is_char newline quote) = true)
    by (destruct Hq as [-> | ->]; reflexivity).
  assert (Hs : single_line (flat_map (repr_char quote) s) = true).
  { induction s as [|c s IH]; [reflexivity|]. cbn [flat_map].
    now rewrite single_line_app, (repr_char_line quote c Hq), IH. }
  change (negb (is_char newline quote)
          && single_line (flat_map (repr_char quote) s ++ [quote]) = true).
  rewrite Hl, single_line_app, Hs. cbn [single_line forallb].
  now rewrite Hl.
Qed.

Lemma py_repr_line s : single_line (py_repr s) = true.
Proof.
  unfold py_repr. apply quoted_line. destruct (_ && _); auto.
Qed.

Lemma decimal_digit_line k :
  k < 10 -> is_char newline (ascii_of_nat (48 + k)) = false.
Proof. do 10 (destruct k as [|k]; [reflexivity|]). lia. Qed.

Lemma decimal_line fuel :
  forall n acc,
    single_line acc = true -> single_line (decimal fuel n acc) = true.
Proof.
  induction fuel as [|fuel IH]; intros n acc Hacc; [exact Hacc|].
  cbn [decimal].
  assert (H : single_line (ascii_of_nat (48 + n mod 10) :: acc) = true).
  { cbn [single_line forallb].
    rewrite (decimal_digit_line (n mod 10))
      by (apply Nat.mod_upper_bound; discriminate).
    exact Hacc. }
  destruct (n / 10 =? 0); [exact H | now apply IH].
Qed.

Lemma invalid_literal_line s : single_line (exn_msg (invalid_literal s)) = true.
Proof.
  unfold invalid_literal. cbn [exn_msg]. rewrite single_line_app.
  now rewrite (single_line_firstn 200 _ (py_repr_line s)).
Qed.

Lemma too_many_digits_line n :
  single_line (exn_msg (too_many_digits n)) = true.
Proof.
  unfold too_many_digits, str_of_nat. cbn [exn_msg].
  rewrite !single_line_app. now rewrite (decimal_line (S n) n [] eq_refl).
Qed.

(** [int] fails in two ways. *)
Lemma py_int_raises s e :
  py_int s = Raise e ->
  e = invalid_literal s \/ exists n, e = too_many_digits n.
Proof.
  unfold py_int.
  repeat match goal with
         | |- context [match ?x with _ => _ end] => destruct x
         end;
    intros H; try discriminate; injection H as <-; eauto.
Qed.

Lemma py_int_message s e :
  py_int s = Raise e -> single_line (exn_msg e) = true.
Proof.
  intros H. apply py_int_raises in H as [-> | [n ->]];
    [apply invalid_literal_line | apply too_many_digits_line].
Qed.

Lemma factor_message p e :
  Parser.factor p = Raise e -> single_line (exn_msg e) = true.
Proof.
  unfold Parser.factor.
  destruct (token_type_eqb (type (Parser.current_token p)) NUMBER);
    [|discriminate].
  intros H. apply bind_Raise_inv in H as [H|(p' & _ & H)];
    [now apply eat_message in H|].
  apply bind_Raise_inv in H as [H|(n & _ & H)];
    [now apply py_int_message in H | discriminate].
Qed.

Lemma term_loop_message fuel :
  forall nd p e,
    Parser.term_loop fuel nd p = Raise e -> single_line (exn_msg e) = true.
Proof.
  induction fuel as [|fuel IH]; intros nd p e; cbn [Parser.term_loop];
    destruct (Parser.at_operator [py "*"; py "/"] p); try discriminate.
  intros H. apply bind_Raise_inv in H as [H|(p1 & _ & H)];
    [now apply eat_message in H|].
  apply bind_Raise_inv in H as [H|([rhs p2] & _ & H)];
    [now apply factor_message in H | eauto].
Qed.

Lemma term_message fuel p e :
  Parser.term fuel p = Raise e -> single_line (exn_msg e) = true.
Proof.
  unfold Parser.term. intros H.
  apply bind_Raise_inv in H as [H|([nd p1] & _ & H)];
    [now apply factor_message in H | now apply term_loop_message in H].
Qed.

Lemma expr_loop_message fuel :
  forall nd p e,
    Parser.expr_loop fuel nd p = Raise e -> single_line (exn_msg e) = true.
Proof.
  induction fuel as [|fuel IH]; intros nd p e; cbn [Parser.expr_loop];
    destruct (Parser.at_operator [py "+"; py "-"] p); try discriminate.
  intros H. apply bind_Raise_inv in H as [H|(p1 & _ & H)];
    [now apply eat_message in H|].
  apply bind_Raise_inv in H as [H|([rhs p2] & _ & H)];
    [now apply term_message in H | eauto].
Qed.

Lemma parse_message fuel p e :
  Parser.parse fuel p = Raise e -> single_line (exn_msg e) = true.
Proof.
  unfold Parser.parse, Parser.expr. intros H.
  apply bind_Raise_inv in H as [H|([nd p1] & _ & H)]; [|discriminate].
  apply bind_Raise_inv in H as [H|([nd p1] & _ & H)];
    [now apply term_message in H | now apply expr_loop_message in H].
Qed.

Lemma float_of_int_message z e :
  float_of_int z = Raise e -> single_line (exn_msg e) = true.
Proof.
  unfold float_of_int.
  destruct (is_infinity (binary_normalize prec emax z 0 false));
    [|discriminate].
  intros [= <-]. reflexivity.
Qed.

Lemma unsupported_message op a b :
  single_line (py op) = true ->
  single_line (exn_msg (unsupported op a b)) = true.
Proof.
  intros Hop. unfold unsupported, single_line in *. cbn [exn_msg].
  rewrite !forallb_app, Hop. destruct a, b; reflexivity.
Qed.

Lemma py_arith_message op zop fop a b e :
  single_line (py op) = true ->
  py_arith op zop fop a b = Raise e -> single_line (exn_msg e) = true.
Proof.
  intros Hop. unfold py_arith.
  destruct a as [x|f|], b as [y|g|]; cbn [as_float bind];
    try discriminate;
    try (intros [= <-]; now apply unsupported_message);
    repeat match goal with
           | |- context [float_of_int ?z] =>
               let E := fresh in
               destruct (float_of_int z) eqn:E; cbn [bind];
               [ | apply float_of_int_message in E | ]
           end;
    try discriminate; intros [= <-]; assumption.
Qed.

Lemma py_truediv_message a b e :
  py_truediv a b = Raise e -> single_line (exn_msg e) = true.
Proof.
  unfold py_truediv, int_true_divide.
  destruct a as [x|f|], b as [y|g|]; cbn [as_float bind];
    try (intros [= <-]; now apply (unsupported_message "/"));
    repeat match goal with
           | |- context [float_of_int ?z] =>
               let E := fresh in
               destruct (float_of_int z) eqn:E; cbn [bind];
               [ | apply float_of_int_message in E | ]
           end;
    repeat match goal with
           | |- context [match ?z with Z0 => _ | Zpos _ => _ | Zneg _ => _ end] =>
               destruct z
           | |- context [if ?c then _ else _] => destruct c
           end;
    try discriminate; intros [= <-]; try assumption; reflexivity.
Qed.

Lemma visit_message nd :
  forall frames e,
    Interpreter.visit frames nd = Raise e -> single_line (exn_msg e) = true.
Proof.
  induction nd as [v|l IHl op r IHr|]; intros [|[|f]] e;
    cbn [Interpreter.visit]; try discriminate;
    try (intros [= <-]; reflexivity).
  intros H. apply bind_Raise_inv in H as [H|(lv & _ & H)]; [eauto|].
  apply bind_Raise_inv in H as [H|(rv & _ & H)]; [eauto|].
  destruct (str_eqb op (py "+"));
    [now apply (py_arith_message "+") in H|].
  destruct (str_eqb op (py "-"));
    [now apply (py_arith_message "-") in H|].
  destruct (str_eqb op (py "*"));
    [now apply (py_arith_message "*") in H|].
  destruct (str_eqb op (py "/"));
    [now apply py_truediv_message in H | discriminate].
Qed.

(** Whatever a stage raises, its message has no line break. *)
Lemma run_line_message fuel code e :
  run_line fuel code = Raise e -> single_line (exn_msg e) = true.
Proof.
  unfold run_line. intros H.
  apply bind_Raise_inv in H as [H|(ts & _ & H)].
  { rewrite tokenize_scan in H. now apply scan_message in H. }
  apply bind_Raise_inv in H as [H|(p & _ & H)].
  { unfold Parser.init in H. destruct (nth_error ts 0); [discriminate|].
    injection H as <-. reflexivity. }
  apply bind_Raise_inv in H as [H|(ast & _ & H)];
    [now apply parse_message in H | now apply visit_message in H].
Qed.

(** ** The loop *)

Lemma repl_turn_break fuel code :
  repl_turn fuel code = Break <-> strip code = py "exit".
Proof.
  unfold repl_turn. destruct (str_eqb (strip code) (py "exit")) eqn:E.
  - apply str_eqb_eq in E. tauto.
  - split.
    + destruct (result <- run_line fuel code ;; py_print result) as [v|e|];
        try discriminate.
      destruct (derives_from_Exception (exn_cls e)); discriminate.
    + intros H. apply str_eqb_eq in H. congruence.
Qed.

Lemma repl_turn_never_propagates fuel code e :
  repl_turn fuel code <> Propagate e.
Proof.
  unfold repl_turn. destruct (str_eqb (strip code) (py "exit"));
    [discriminate|].
  destruct (result <- run_line fuel code ;; py_print result) as [v|e'|];
    try discriminate.
  destruct (exn_cls e'); discriminate.
Qed.

Lemma repl_turn_error fuel code e :
  strip code <> py "exit" -> run_line fuel code = Raise e ->
  repl_turn fuel code = Continue (PrintLine (py "Error: " ++ exn_msg e)).
Proof.
  intros Hs Hr. unfold repl_turn.
  destruct (str_eqb (strip code) (py "exit")) eqn:E;
    [apply str_eqb_eq in E; contradiction|].
  rewrite Hr. cbn [bind]. now destruct (exn_cls e).
Qed.

(** C9.  A turn leaves the loop only on a line that strips to [exit].  An
    exception of any stage is caught: the turn prints [Error: ] and the
    message, which is one line, and the loop goes on, so no exception leaves
    [repl]; a run that has stopped has read a line that strips to [exit],
    and a run over lines that all fail prints one error line for each and
    is still running. *)
Theorem repl_survives_errors :
  (forall fuel code, repl_turn fuel code = Break <-> strip code = py "exit")
  /\ (forall fuel code e,
         strip code <> py "exit" -> run_line fuel code = Raise e ->
         repl_turn fuel code
         = Continue (PrintLine (py "Error: " ++ exn_msg e))
         /\ single_line (py "Error: " ++ exn_msg e) = true)
  /\ (forall fuel inputs, snd (repl fuel inputs) <> Crashed)
  /\ (forall fuel inputs,
         snd (repl fuel inputs) = Stopped ->
         exists before code after,
           inputs = before ++ code :: after
           /\ strip code = py "exit"
           /\ Forall (fun c => strip c <> py "exit") before
           /\ length (fst (repl fuel inputs)) = length before)
  /\ (forall fuel inputs,
         Forall (fun c => strip c <> py "exit"
                          /\ exists e, run_line fuel c = Raise e) inputs ->
         snd (repl fuel inputs) = Running
         /\ Forall2 (fun c o =>
                       exists e, run_line fuel c = Raise e
                                 /\ o = PrintLine (py "Error: " ++ exn_msg e))
              inputs (fst (repl fuel inputs))).
Proof.
  split; [exact repl_turn_break|]. split.
  { intros fuel code e Hs Hr. split; [now apply repl_turn_error|].
    unfold single_line. rewrite forallb_app.
    apply run_line_message in Hr. unfold single_line in Hr.
    now rewrite Hr. }
  split; [|split].
  - intros fuel inputs. induction inputs as [|c rest IH]; [discriminate|].
    cbn [repl]. destruct (repl_turn fuel c) as [|o| |e] eqn:E;
      try discriminate.
    + destruct (repl fuel rest). exact IH.
    + exfalso. exact (repl_turn_never_propagates _ _ _ E).
  - intros fuel inputs. induction inputs as [|c rest IH]; [discriminate|].
    cbn [repl]. destruct (repl_turn fuel c) as [|o| |e] eqn:E;
      try discriminate.
    + intros _. exists [], c, rest. apply repl_turn_break in E.
      repeat split; auto.
    + destruct (repl fuel rest) as [os st] eqn:Er. cbn [snd fst] in *.
      intros Hst. destruct (IH Hst) as (b & x & a & -> & Hx & Hb & Hl).
      exists (c :: b), x, a. repeat split; auto.
      * constructor; [|exact Hb]. intros Hc.
        apply (repl_turn_break fuel) in Hc. congruence.
      * simpl. now rewrite Hl.
  - intros fuel inputs H. induction H as [|c rest [Hs [e He]] Hrest IH].
    + split; [reflexivity | constructor].
    + cbn [repl]. rewrite (repl_turn_error fuel c e Hs He).
      destruct (repl fuel rest) as [os st]. cbn [snd fst] in *.
      destruct IH as [-> IH]. split; [reflexivity|].
      constructor; [eauto | exact IH].
Qed.

Lemma repl_survives_errors_witness :
  strip (py "5/0") <> py "exit"
  /\ run_line 1 (py "5/0")
     = Raise {| exn_cls := ZeroDivisionError;
                exn_msg := py "division by zero" |}
  /\ repl_turn 1 (py "5/0")
     = Continue (PrintLine (py "Error: division by zero")).
Proof.
  assert (Hs : strip (py "5/0") <> py "exit") by (vm_compute; discriminate).
  split; [exact Hs|]. split; [reflexivity|].
  destruct repl_survives_errors as (_ & H & _).
  exact (proj1 (H 1 (py "5/0") _ Hs eq_refl)).
Defined.

(** * Further properties of the code *)

(** ** Lexer *)

(** X1.  Every token [tokenize] returns has a non-empty literal that is a
    whole match of the pattern of its kind, and none is of kind [SKIP]. *)
Theorem tokens_are_whole_matches code ts :
  Lexer.tokenize code = Ok ts ->
  Forall (fun t => well_formed t /\ value t <> [] /\ type t <> SKIP) ts.
Proof.
  intros H. rewrite tokenize_scan in H. apply scan_well_formed in H.
  eapply Forall_impl; [|exact H]. intros t Ht.
  split; [exact Ht|]. split; [now apply well_formed_nonempty|].
  now apply well_formed_not_skip.
Qed.

Lemma tokens_are_whole_matches_witness :
  Lexer.tokenize (py "x1 = 42") = Ok [tok IDENTIFIER "x1"; tok ASSIGN "=";
                                      tok NUMBER "42"]
  /\ Forall (fun t => well_formed t /\ value t <> [] /\ type t <> SKIP)
       [tok IDENTIFIER "x1"; tok ASSIGN "="; tok NUMBER "42"].
Proof.
  split; [reflexivity|].
  exact (tokens_are_whole_matches (py "x1 = 42") _ eq_refl).
Defined.

(** X2.  A turn of the loop of [tokenize] that does not raise leaves the
    code as it is, moves the cursor forward by at least one character and
    not past the end, and appends at most one token; from a cursor inside
    the text the loop is over within as many turns as characters are left. *)
Theorem lexer_cursor_advances lx :
  Lexer.current_pos lx <= length (Lexer.code lx) ->
  (forall lx',
      Lexer.current_pos lx < length (Lexer.code lx) ->
      Lexer.step lx = Ok lx' ->
      Lexer.code lx' = Lexer.code lx
      /\ Lexer.current_pos lx < Lexer.current_pos lx'
      /\ Lexer.current_pos lx' <= length (Lexer.code lx)
      /\ (Lexer.tokens lx' = Lexer.tokens lx
          \/ exists t, Lexer.tokens lx' = Lexer.tokens lx ++ [t]))
  /\ (forall fuel,
         length (Lexer.code lx) - Lexer.current_pos lx <= fuel ->
         Lexer.loop fuel lx <> Timeout).
Proof.
  intros Hpos. split.
  - intros lx' Hlt Hs. unfold Lexer.step in Hs.
    destruct (Lexer.first_match patterns
                (skipn (Lexer.current_pos lx) (Lexer.code lx)))
      as [[[ty v] rest]|] eqn:Em.
    + injection Hs as <-. cbn [Lexer.code Lexer.current_pos Lexer.tokens].
      rewrite first_match_next_token in Em.
      apply next_token_split in Em as [Hsplit Hv].
      apply (f_equal (@length ascii)) in Hsplit.
      rewrite length_skipn, length_app in Hsplit.
      assert (0 < length v) by (destruct v; [congruence | simpl; lia]).
      repeat split; try lia.
      destruct (token_type_eqb ty SKIP); eauto.
    + destruct (nth_error (Lexer.code lx) (Lexer.current_pos lx));
        discriminate.
  - intros fuel Hf. rewrite loop_scan by exact Hpos.
    assert (Hs : scan fuel (skipn (Lexer.current_pos lx) (Lexer.code lx))
                 <> Timeout)
      by (apply scan_returns_or_raises; rewrite length_skipn; exact Hf).
    destruct (scan fuel (skipn (Lexer.current_pos lx) (Lexer.code lx)));
      simpl; congruence.
Qed.

Lemma lexer_cursor_advances_witness :
  Lexer.current_pos (Lexer.init (py "12+3")) <= length (py "12+3")
  /\ Lexer.loop 4 (Lexer.init (py "12+3")) <> Timeout.
Proof.
  assert (H : Lexer.current_pos (Lexer.init (py "12+3")) <= length (py "12+3"))
    by (simpl; lia).
  split; [exact H|].
  exact (proj2 (lexer_cursor_advances (Lexer.init (py "12+3")) H) 4
               (le_n 4)).
Defined.

Lemma scan_partition fuel :
  forall s ts,
    scan fuel s = Ok ts ->
    exists segs,
      concat (map value segs) = s
      /\ filter (fun t => negb (token_type_eqb (type t) SKIP)) segs = ts
      /\ Forall (fun t => type t = SKIP ->
                          exists c, value t = [c] /\ is_blank c = true) segs.
Proof.
  induction fuel as [|fuel IH]; intros s ts.
  - destruct s; [|discriminate]. intros [= <-]. exists [].
    repeat split; constructor.
  - destruct s as [|c s].
    { intros [= <-]. exists []. repeat split; constructor. }
    cbn [scan]. rewrite first_match_next_token.
    destruct (next_token (c :: s)) as [[[ty v] rest]|] eqn:E; [|discriminate].
    intros H. apply bind_Ok_inv in H as (ts' & Hs & Hk).
    destruct (IH rest ts' Hs) as (segs & Hc & Hf & Hb).
    pose proof (next_token_split _ _ _ _ E) as [Hsplit Hv].
    exists ({| type := ty; value := v |} :: segs).
    split; [cbn [map concat value]; now rewrite Hc|].
    split.
    + cbn [filter type]. destruct (token_type_eqb ty SKIP); cbn [negb];
        injection Hk as <-; now rewrite Hf.
    + constructor; [|exact Hb]. cbn [type value]. intros ->.
      destruct (next_token_skip _ _ _ _ _ E eq_refl) as [Hc' ->].
      exists c. split; [|exact Hc'].
      change (c :: s) with ([c] ++ s) in Hsplit.
      now apply app_inv_tail in Hsplit.
Qed.

Lemma filter_literals_length (segs : list Token) f :
  length (concat (map value (filter f segs)))
  <= length (concat (map value segs)).
Proof.
  induction segs as [|t segs IH]; [reflexivity|].
  cbn [filter]. destruct (f t); cbn [map concat]; rewrite ?length_app; lia.
Qed.

(** X3.  The tokens and the blanks skipped between them make up the input:
    the input is cut into pieces, the tokens are the pieces that are not
    skipped, in order, and each skipped piece is one space or tab.  So the
    literals together are never longer than the input. *)
Theorem tokens_and_blanks_partition_input code ts :
  Lexer.tokenize code = Ok ts ->
  (exists segs,
      concat (map value segs) = code
      /\ filter (fun t => negb (token_type_eqb (type t) SKIP)) segs = ts
      /\ Forall (fun t => type t = SKIP ->
                          exists c, value t = [c] /\ is_blank c = true) segs)
  /\ length (literals ts) <= length code.
Proof.
  intros H. rewrite tokenize_scan in H.
  destruct (scan_partition _ _ _ H) as (segs & Hc & Hf & Hb).
  split; [eauto|]. unfold literals. rewrite <- Hf, <- Hc.
  apply filter_literals_length.
Qed.

Lemma tokens_and_blanks_partition_input_witness :
  Lexer.tokenize (py "1 +  2")
  = Ok [tok NUMBER "1"; tok OPERATOR "+"; tok NUMBER "2"]
  /\ length (literals [tok NUMBER "1"; tok OPERATOR "+"; tok NUMBER "2"])
     <= length (py "1 +  2").
Proof.
  split; [reflexivity|].
  exact (proj2 (tokens_and_blanks_partition_input (py "1 +  2") _ eq_refl)).
Defined.

Lemma match_one f s :
  re_match [One f] s
  = match s with
    | c :: s' => if f c then Some ([c], s') else None
    | [] => None
    end.
Proof. destruct s as [|c s]; [reflexivity|]. simpl. now destruct (f c). Qed.

Lemma match_number s :
  re_match [Many1 is_digit] s
  = match s with
    | c :: s' =>
        if is_digit c
        then Some (c :: take_while is_digit s', drop_while is_digit s')
        else None
    | [] => None
    end.
Proof.
  destruct s as [|c s]; [reflexivity|]. cbn [re_match].
  now rewrite many_last.
Qed.

Lemma match_identifier s :
  re_match [One is_ident_start; Many is_ident_char] s
  = match s with
    | c :: s' =>
        if is_ident_start c
        then Some (c :: take_while is_ident_char s',
                   drop_while is_ident_char s')
        else None
    | [] => None
    end.
Proof.
  destruct s as [|c s]; [reflexivity|]. cbn [re_match].
  now rewrite many_last.
Qed.

Lemma match_string s :
  re_match [One (is_char dquote); Many is_not_dquote; One (is_char dquote)] s
  = match s with
    | c :: s' =>
        if is_char dquote c then
          match drop_while is_not_dquote s' with
          | d :: r => Some (c :: take_while is_not_dquote s' ++ [d], r)
          | [] => None
          end
        else None
    | [] => None
    end.
Proof.
  destruct s as [|c s]; [reflexivity|].
  change (re_match [One (is_char dquote); Many is_not_dquote;
                    One (is_char dquote)] (c :: s))
    with (if is_char dquote c
          then match many is_not_dquote (re_match [One (is_char dquote)]) s
               with
               | Some (m, t) => Some (c :: m, t)
               | None => None
               end
          else None).
  rewrite many_until_dquote.
  destruct (is_char dquote c); [|reflexivity].
  now destruct (drop_while is_not_dquote s).
Qed.

Lemma single_char_token a ty c s :
  is_char a c = true ->
  next_token (a :: s) = Some (ty, [a], s) ->
  next_token (c :: s) = Some (ty, [c], s).
Proof. intros H. apply is_char_eq in H. now subst. Qed.

(** X4.  At a given place at most one of the patterns matches: whichever
    pattern of the list matches there is the one the loop over the list
    finds, with the same text.  The order of the list decides nothing. *)
Theorem at_most_one_pattern_matches ty r s m rest :
  In (ty, r) patterns ->
  re_match r s = Some (m, rest) ->
  Lexer.first_match patterns s = Some (ty, m, rest).
Proof.
  intros Hin Hm. rewrite first_match_next_token.
  unfold patterns in Hin. cbn [In] in Hin.
  repeat (destruct Hin as [Hin|Hin];
          [injection Hin as <- <-|]); [..|contradiction].
  - rewrite match_number in Hm. destruct s as [|c s]; [discriminate|].
    cbn [next_token]. destruct (is_digit c); [|discriminate].
    now injection Hm as <- <-.
  - rewrite match_string in Hm. destruct s as [|c s]; [discriminate|].
    destruct (is_char dquote c) eqn:Hq; [|discriminate].
    apply is_char_eq in Hq. subst c. cbn [next_token].
    change (is_digit dquote) with false.
    change (is_char dquote dquote) with true. cbv iota.
    destruct (drop_while is_not_dquote s); [discriminate|].
    now injection Hm as <- <-.
  - rewrite match_identifier in Hm. destruct s as [|c s]; [discriminate|].
    destruct (is_ident_start c) eqn:Hi; [|discriminate].
    destruct (ident_start_class c Hi) as (Hd & Hq & _).
    cbn [next_token]. rewrite Hd, Hq, Hi. now injection Hm as <- <-.
  - rewrite match_one in Hm. destruct s as [|c s]; [discriminate|].
    destruct (is_char "=" c) eqn:E; [|discriminate].
    injection Hm as <- <-. now apply (single_char_token "="%char).
  - rewrite match_one in Hm. destruct s as [|c s]; [discriminate|].
    destruct (is_operator c) eqn:E; [|discriminate].
    injection Hm as <- <-.
    destruct (operator_cases c E) as [-> | [-> | [-> | ->]]]; reflexivity.
  - rewrite match_one in Hm. destruct s as [|c s]; [discriminate|].
    destruct (is_char "(" c) eqn:E; [|discriminate].
    injection Hm as <- <-. now apply (single_char_token "("%char).
  - rewrite match_one in Hm. destruct s as [|c s]; [discriminate|].
    destruct (is_char ")" c) eqn:E; [|discriminate].
    injection Hm as <- <-. now apply (single_char_token ")"%char).
  - rewrite match_one in Hm. destruct s as [|c s]; [discriminate|].
    destruct (is_char "{" c) eqn:E; [|discriminate].
    injection Hm as <- <-. now apply (single_char_token "{"%char).
  - rewrite match_one in Hm. destruct s as [|c s]; [discriminate|].
    destruct (is_char "}" c) eqn:E; [|discriminate].
    injection Hm as <- <-. now apply (single_char_token "}"%char).
  - rewrite match_one in Hm. destruct s as [|c s]; [discriminate|].
    destruct (is_char newline c) eqn:E; [|discriminate].
    injection Hm as <- <-. now apply (single_char_token newline).
  - rewrite match_one in Hm. destruct s as [|c s]; [discriminate|].
    destruct (is_blank c) eqn:E; [|discriminate].
    injection Hm as <- <-. unfold is_blank in E.
    apply orb_prop in E as [E|E]; apply is_char_eq in E; subst; reflexivity.
Qed.

Lemma at_most_one_pattern_matches_witness :
  In (IDENTIFIER, [One is_ident_start; Many is_ident_char]) patterns
  /\ re_match [One is_ident_start; Many is_ident_char] (py "x1+2")
     = Some (py "x1", py "+2")
  /\ Lexer.first_match patterns (py "x1+2")
     = Some (IDENTIFIER, py "x1", py "+2").
Proof.
  assert (Hin : In (IDENTIFIER, [One is_ident_start; Many is_ident_char])
                  patterns)
    by (unfold patterns; cbn [In]; tauto).
  split; [exact Hin|]. split; [reflexivity|].
  exact (at_most_one_pattern_matches IDENTIFIER _ (py "x1+2") _ _ Hin
           eq_refl).
Defined.

Lemma raises_at_cursor c pos ch :
  cursor_at c pos ->
  nth_error c pos = Some ch ->
  next_token (skipn pos c) = None ->
  Lexer.tokenize c
  = Raise {| exn_cls := Exception;
             exn_msg := py "Unexpected character: " ++ [ch] |}.
Proof.
  intros Hat Hch Hm. rewrite tokenize_scan.
  apply (scan_raises_from_cursor c pos); [exact Hat|].
  destruct (nth_error_skipn_head c pos ch Hch) as [r Hs].
  rewrite scan_eq by lia. rewrite Hs in *. now rewrite Hm.
Qed.

Lemma drop_while_all f s : forallb f s = true -> drop_while f s = [].
Proof.
  induction s as [|c s IH]; simpl; [reflexivity|].
  intros H. apply andb_prop in H as [-> H]. now apply IH.
Qed.

(** X5.  A double quote opens a string that runs to the next double quote,
    whatever stands between them (blanks, line breaks, characters no pattern
    knows): it is one [STRING] token with the quotes in its literal.  A
    double quote that is not closed before the end of the input is itself
    the unexpected character, however long the text after it. *)
Theorem string_literals_run_to_the_next_quote :
  (forall body rest,
      forallb is_not_dquote body = true ->
      Lexer.first_match patterns (dquote :: body ++ dquote :: rest)
      = Some (STRING, dquote :: body ++ [dquote], rest))
  /\ (forall body,
         forallb is_not_dquote body = true ->
         Lexer.tokenize (dquote :: body ++ [dquote])
         = Ok [ {| type := STRING; value := dquote :: body ++ [dquote] |} ])
  /\ (forall c pos,
         cursor_at c pos ->
         nth_error c pos = Some dquote ->
         forallb is_not_dquote (skipn (S pos) c) = true ->
         Lexer.tokenize c
         = Raise {| exn_cls := Exception;
                    exn_msg := py "Unexpected character: " ++ [dquote] |}).
Proof.
  assert (Hwf : forall body,
             forallb is_not_dquote body = true ->
             well_formed {| type := STRING;
                            value := dquote :: body ++ [dquote] |})
    by (intros body Hb; exists body; auto).
  split; [|split].
  - intros body rest Hb. rewrite first_match_next_token.
    pose proof (next_token_literal _ rest (Hwf body Hb)) as H.
    cbn [type value continuation] in H.
    replace ((dquote :: body ++ [dquote]) ++ rest)
      with (dquote :: body ++ dquote :: rest) in H
      by (cbn [app]; now rewrite <- app_assoc).
    rewrite H. destruct rest; cbn [take_while drop_while];
      now rewrite app_nil_r.
  - intros body Hb. rewrite tokenize_scan.
    pose proof (literals_reread
                  [ {| type := STRING; value := dquote :: body ++ [dquote] |} ]
                  (Forall_cons _ (Hwf body Hb) (Forall_nil _)) eq_refl) as H.
    unfold literals in H. cbn [map concat value] in H.
    now rewrite app_nil_r in H.
  - intros c pos Hat Hq Hrest. apply (raises_at_cursor c pos); try assumption.
    destruct (nth_error_skipn_head c pos dquote Hq) as [r Hs].
    assert (Hr : skipn (S pos) c = r).
    { change (S pos) with (1 + pos). rewrite <- skipn_skipn, Hs.
      reflexivity. }
    rewrite Hs. rewrite Hr in Hrest. cbn [next_token].
    change (is_digit dquote) with false.
    change (is_char dquote dquote) with true. cbv iota.
    now rewrite (drop_while_all _ _ Hrest).
Qed.

Lemma string_literals_run_to_the_next_quote_witness :
  forallb is_not_dquote (py "a @ b") = true
  /\ Lexer.tokenize (dquote :: py "a @ b" ++ [dquote])
     = Ok [ {| type := STRING; value := dquote :: py "a @ b" ++ [dquote] |} ].
Proof.
  split; [reflexivity|].
  destruct string_literals_run_to_the_next_quote as (_ & H & _).
  exact (H (py "a @ b") eq_refl).
Defined.

Lemma take_while_app_stops f s t :
  stops f t -> take_while f (s ++ t) = take_while f s.
Proof.
  intros Ht. induction s as [|c s IH]; cbn [app take_while].
  - now apply take_while_stops.
  - destruct (f c); [now rewrite IH | reflexivity].
Qed.

Lemma drop_while_app_stops f s t :
  stops f t -> drop_while f (s ++ t) = drop_while f s ++ t.
Proof.
  intros Ht. induction s as [|c s IH]; cbn [app drop_while].
  - now apply drop_while_stops_id.
  - destruct (f c); [exact IH | reflexivity].
Qed.

Lemma drop_while_app_all f s t :
  forallb f t = true ->
  drop_while f (s ++ t)
  = match drop_while f s with [] => [] | d :: r => d :: r ++ t end
  /\ (drop_while f s <> [] -> take_while f (s ++ t) = take_while f s).
Proof.
  intros Ht. induction s as [|c s [IHd IHt]]; cbn [app drop_while take_while].
  - split; [now apply drop_while_all | congruence].
  - destruct (f c); [|split; reflexivity].
    split; [exact IHd|]. intros H. now rewrite (IHt H).
Qed.

Lemma blank_classes c :
  is_blank c = true ->
  is_digit c = false /\ is_ident_char c = false /\ is_not_dquote c = true.
Proof.
  unfold is_blank. intros H.
  apply orb_prop in H as [H|H]; apply is_char_eq in H; subst;
    repeat split; reflexivity.
Qed.

Lemma blanks_stop bl :
  forallb is_blank bl = true ->
  stops is_digit bl /\ stops is_ident_char bl
  /\ forallb is_not_dquote bl = true.
Proof.
  intros H. split; [|split].
  - destruct bl as [|b bl]; [exact I|]. simpl in *.
    apply andb_prop in H as [H _]. now destruct (blank_classes b H).
  - destruct bl as [|b bl]; [exact I|]. simpl in *.
    apply andb_prop in H as [H _]. now destruct (blank_classes b H) as (_&?&_).
  - induction bl as [|b bl IH]; [reflexivity|]. simpl in *.
    apply andb_prop in H as [Hb H].
    destruct (blank_classes b Hb) as (_ & _ & ->). now apply IH.
Qed.

(** What is found at the start of a text is found there with blanks put
    after the text. *)
Lemma next_token_before_blanks c s bl :
  forallb is_blank bl = true ->
  next_token ((c :: s) ++ bl)
  = match next_token (c :: s) with
    | Some (ty, v, rest) => Some (ty, v, rest ++ bl)
    | None => None
    end.
Proof.
  intros Hbl. destruct (blanks_stop bl Hbl) as (Hd & Hi & Hq).
  cbn [app next_token].
  rewrite (take_while_app_stops _ s bl Hd), (drop_while_app_stops _ s bl Hd),
    (take_while_app_stops _ s bl Hi), (drop_while_app_stops _ s bl Hi).
  destruct (drop_while_app_all is_not_dquote s bl Hq) as [Ed Et].
  rewrite Ed.
  destruct (drop_while is_not_dquote s) as [|d r] eqn:E.
  - repeat match goal with
           | |- context [if ?b then _ else _] => destruct b
           end; reflexivity.
  - rewrite Et by discriminate.
    repeat match goal with
           | |- context [if ?b then _ else _] => destruct b
           end; reflexivity.
Qed.

Lemma scan_trailing_blanks fuel :
  forall s bl,
    length s <= fuel -> forallb is_blank bl = true ->
    scan (length (s ++ bl)) (s ++ bl) = scan fuel s.
Proof.
  induction fuel as [|fuel IH]; intros s bl Hlen Hbl.
  - destruct s; [|simpl in Hlen; lia]. cbn [app scan].
    now apply scan_blank.
  - destruct s as [|c s].
    { cbn [app scan]. now apply scan_blank. }
    rewrite (scan_eq (length ((c :: s) ++ bl))) by lia.
    rewrite (scan_eq (S fuel) (c :: s)) by exact Hlen.
    rewrite (next_token_before_blanks c s bl Hbl).
    cbn [app].
    destruct (next_token (c :: s)) as [[[ty v] rest]|] eqn:E; [|reflexivity].
    pose proof (next_token_shorter _ _ _ _ E) as Hlt. simpl in Hlen, Hlt.
    rewrite (IH rest bl) by (lia || assumption).
    now rewrite (scan_fuel fuel (length rest)) by lia.
Qed.

Lemma scan_leading_blanks bl s :
  forallb is_blank bl = true ->
  scan (length (bl ++ s)) (bl ++ s) = scan (length s) s.
Proof.
  induction bl as [|b bl IH]; intros Hbl; [reflexivity|].
  cbn [forallb] in Hbl. apply andb_prop in Hbl as [Hb Hbl].
  rewrite scan_eq by lia. cbn [app].
  assert (E : next_token (b :: bl ++ s) = Some (SKIP, [b], bl ++ s)).
  { unfold is_blank in Hb.
    apply orb_prop in Hb as [Hb|Hb]; apply is_char_eq in Hb; subst;
      reflexivity. }
  rewrite E, (IH Hbl). cbn [token_type_eqb].
  now destruct (scan (length s) s).
Qed.

(** X6.  Spaces and tabs before and after a line change nothing: the
    tokens, or the exception of the lexer, are those of the line without
    them, and so is what the line evaluates to. *)
Theorem surrounding_blanks_are_ignored code before after :
  forallb is_blank before = true -> forallb is_blank after = true ->
  Lexer.tokenize (before ++ code ++ after) = Lexer.tokenize code
  /\ forall fuel,
       run_line fuel (before ++ code ++ after) = run_line fuel code.
Proof.
  intros Hb Ha.
  assert (H : Lexer.tokenize (before ++ code ++ after) = Lexer.tokenize code).
  { rewrite !tokenize_scan, (scan_leading_blanks _ _ Hb).
    now apply scan_trailing_blanks. }
  split; [exact H|]. intros fuel. unfold run_line. now rewrite H.
Qed.

Lemma surrounding_blanks_are_ignored_witness :
  forallb is_blank (py "  ") = true
  /\ forallb is_blank [tab] = true
  /\ Lexer.tokenize (py "  " ++ py "2*3" ++ [tab]) = Lexer.tokenize (py "2*3").
Proof.
  split; [reflexivity|]. split; [reflexivity|].
  exact (proj1 (surrounding_blanks_are_ignored (py "2*3") (py "  ") [tab]
                  eq_refl eq_refl)).
Defined.

(** ** Parser *)

(** The loop of [term] runs through the operator-number pairs ahead of it
    and stands, with the fuel that is left, before what follows them. *)
Lemma term_loop_through pairs :
  forall done held rest nd fuel k,
    forallb factor_ok pairs = true ->
    type held = NUMBER ->
    length pairs + k <= fuel ->
    exists held' fuel',
      k <= fuel' /\ type held' = NUMBER
      /\ Parser.term_loop fuel nd
           (pstate done (flat_map factor_tokens pairs ++ rest) held)
         = Parser.term_loop fuel'
             (fold_left
                (fun acc od =>
                   BinaryOperationNode acc (fst od)
                     (NumberNode (int_of (snd od))))
                pairs nd)
             (pstate (done ++ flat_map factor_tokens pairs) rest held').
Proof.
  induction pairs as [|[o d] pairs IH]; intros done held rest nd fuel k
    Hok Hh Hf.
  - exists held, fuel. split; [simpl in Hf; lia|]. split; [exact Hh|].
    cbn [flat_map app fold_left]. now rewrite app_nil_r.
  - cbn [forallb] in Hok. apply andb_prop in Hok as [Hod Hok].
    unfold factor_ok in Hod. cbn [fst snd] in Hod.
    apply andb_prop in Hod as [Ho Hd].
    destruct fuel as [|fuel]; [simpl in Hf; lia|].
    destruct (IH ((done ++ [operator_token o]) ++ [number_token d])
                (number_token d) rest
                (BinaryOperationNode nd o (NumberNode (int_of d))) fuel k
                Hok eq_refl ltac:(simpl in Hf; lia))
      as (held' & fuel' & Hk & Hh' & Eq).
    exists held', fuel'. split; [exact Hk|]. split; [exact Hh'|].
    cbn [flat_map factor_tokens fst snd app].
    cbn [Parser.term_loop]. fold mul_ops. rewrite at_operator_pstate.
    cbn [hd]. unfold is_op_token at 1. cbn [type value operator_token
      token_type_eqb andb]. rewrite Ho.
    change (Parser.current_token
              (pstate done
                 (operator_token o
                  :: number_token d :: flat_map factor_tokens pairs ++ rest)
                 held))
      with (operator_token o).
    rewrite eat_operator. cbn [bind].
    rewrite (factor_pstate _ d _ _ Hd). cbn [bind value operator_token].
    rewrite Eq. cbn [fold_left fst snd]. now rewrite <- !app_assoc.
Qed.

Lemma term_through t done held rest fuel k :
  term_ok t = true -> length (snd t) + k <= fuel ->
  exists held' fuel',
    k <= fuel' /\ type held' = NUMBER
    /\ Parser.term fuel (pstate done (term_tokens t ++ rest) held)
       = Parser.term_loop fuel' (term_tree t)
           (pstate (done ++ term_tokens t) rest held').
Proof.
  destruct t as [d pairs]. unfold term_ok, term_tokens, term_tree.
  cbn [fst snd]. intros Hok Hf. apply andb_prop in Hok as [Hd Hok].
  unfold Parser.term. cbn [app]. rewrite (factor_pstate _ d _ _ Hd).
  cbn [bind].
  destruct (term_loop_through pairs (done ++ [number_token d])
              (number_token d) rest (NumberNode (int_of d)) fuel k
              Hok eq_refl Hf)
    as (held' & fuel' & Hk & Hh' & Eq).
  exists held', fuel'. split; [exact Hk|]. split; [exact Hh'|].
  rewrite Eq. now rewrite <- app_assoc.
Qed.

Lemma addends_rest_ok terms rest :
  forallb addend_ok terms = true -> rest_ok mul_ops rest ->
  rest_ok mul_ops (flat_map addend_tokens terms ++ rest).
Proof.
  intros Hok Hr. destruct terms as [|[o t] terms]; [exact Hr|].
  cbn [flat_map]. change (addend_tokens (o, t))
    with (operator_token o :: term_tokens t).
  cbn [app rest_ok]. cbn [forallb] in Hok.
  apply andb_prop in Hok as [Hot _]. unfold addend_ok in Hot.
  apply andb_prop in Hot as [Ho _]. now apply add_op_is_not_mul_op.
Qed.

(** The loop of [expr] runs through the operator-term pairs ahead of it
    likewise. *)
Lemma expr_loop_through terms :
  forall done held rest nd fuel k,
    forallb addend_ok terms = true ->
    type held = NUMBER -> rest_ok mul_ops rest ->
    length (flat_map addend_tokens terms) + k <= fuel ->
    exists held' fuel',
      k <= fuel' /\ type held' = NUMBER
      /\ Parser.expr_loop fuel nd
           (pstate done (flat_map addend_tokens terms ++ rest) held)
         = Parser.expr_loop fuel'
             (fold_left
                (fun acc ot =>
                   BinaryOperationNode acc (fst ot) (term_tree (snd ot)))
                terms nd)
             (pstate (done ++ flat_map addend_tokens terms) rest held').
Proof.
  induction terms as [|[o t] terms IH]; intros done held rest nd fuel k
    Hok Hh Hrm Hf.
  - exists held, fuel. split; [simpl in Hf; lia|]. split; [exact Hh|].
    cbn [flat_map app fold_left]. now rewrite app_nil_r.
  - pose proof (addends_rest_ok terms rest) as Hrest.
    cbn [forallb] in Hok. apply andb_prop in Hok as [Hot Hok].
    unfold addend_ok in Hot. cbn [fst snd] in Hot.
    apply andb_prop in Hot as [Ho Ht].
    cbn [flat_map] in Hf |- *.
    change (addend_tokens (o, t)) with (operator_token o :: term_tokens t)
      in Hf |- *.
    rewrite length_app in Hf. cbn [length] in Hf.
    destruct fuel as [|fuel]; [lia|].
    pose proof (term_tokens_length t) as Hlt.
    destruct (term_pstate t (done ++ [operator_token o]) (operator_token o)
                (flat_map addend_tokens terms ++ rest) fuel Ht
                (Hrest Hok Hrm) ltac:(lia))
      as (held1 & Hh1 & Eq1).
    destruct (IH ((done ++ [operator_token o]) ++ term_tokens t) held1 rest
                (BinaryOperationNode nd o (term_tree t)) fuel k
                Hok Hh1 Hrm ltac:(lia))
      as (held' & fuel' & Hk & Hh' & Eq).
    exists held', fuel'. split; [exact Hk|]. split; [exact Hh'|].
    rewrite <- app_assoc. cbn [app].
    cbn [Parser.expr_loop]. fold add_ops. rewrite at_operator_pstate.
    cbn [hd]. unfold is_op_token at 1. cbn [type value operator_token
      token_type_eqb andb]. rewrite Ho.
    change (Parser.current_token
              (pstate done
                 (operator_token o
                  :: term_tokens t ++ flat_map addend_tokens terms ++ rest)
                 held))
      with (operator_token o).
    rewrite eat_operator. cbn [bind]. rewrite Eq1.
    cbn [bind value operator_token]. rewrite Eq. cbn [fold_left fst snd].
    now rewrite <- !app_assoc.
Qed.

(** [expr] on an input of the grammar followed by [rest] stands, with fuel
    left, before [rest] with the tree of the input built. *)
Lemma expr_through e rest fuel k :
  expr_ok e = true -> rest_ok mul_ops rest ->
  length (expr_tokens e) + k <= fuel ->
  exists held' fuel',
    k <= fuel' /\ type held' = NUMBER
    /\ (p <- Parser.init (expr_tokens e ++ rest) ;; Parser.expr fuel p)
       = Parser.expr_loop fuel' (expr_tree e)
           (pstate (expr_tokens e) rest held').
Proof.
  destruct e as [[d pairs] terms]. unfold expr_ok, expr_tokens, expr_tree.
  cbn [fst snd]. intros Hok Hrm Hf. apply andb_prop in Hok as [Ht Hok].
  rewrite length_app in Hf.
  pose proof (term_tokens_length (d, pairs)) as Hlt. cbn [snd] in Hlt.
  rewrite <- app_assoc.
  change (Parser.init
            (term_tokens (d, pairs) ++ flat_map addend_tokens terms ++ rest))
    with (Ok (pstate []
                (term_tokens (d, pairs)
                 ++ flat_map addend_tokens terms ++ rest)
                (number_token d))).
  cbn [bind]. unfold Parser.expr.
  destruct (term_pstate (d, pairs) [] (number_token d)
              (flat_map addend_tokens terms ++ rest) fuel Ht
              (addends_rest_ok terms rest Hok Hrm) ltac:(cbn [snd]; lia))
    as (held1 & Hh1 & Eq1).
  rewrite Eq1. cbn [bind].
  destruct (expr_loop_through terms ([] ++ term_tokens (d, pairs)) held1 rest
              (term_tree (d, pairs)) fuel k Hok Hh1 Hrm ltac:(lia))
    as (held' & fuel' & Hk & Hh' & Eq).
  exists held', fuel'. split; [exact Hk|]. split; [exact Hh'|].
  rewrite Eq. reflexivity.
Qed.

(** X7.  [parse] stops at the first token that does not continue the
    expression and says nothing about the tokens from there on: an input of
    the grammar, with literals of at most 4300 digits, followed by tokens of
    which the first is not one of the four operators is parsed to the tree
    of the input alone, and evaluates as that tree does. *)
Theorem tokens_after_the_expression_are_ignored e rest fuel :
  expr_ok e = true ->
  rest_ok mul_ops rest -> rest_ok add_ops rest ->
  length (expr_tokens e) <= fuel ->
  (p <- Parser.init (expr_tokens e ++ rest) ;; Parser.parse fuel p)
  = Ok (expr_tree e)
  /\ (p <- Parser.init (expr_tokens e ++ rest) ;;
      ast <- Parser.parse fuel p ;; Interpreter.interpret ast)
     = Interpreter.interpret (expr_tree e).
Proof.
  intros Hok Hrm Hra Hf.
  destruct (expr_through e rest fuel 0 Hok Hrm ltac:(lia))
    as (held' & fuel' & _ & Hh' & Eq).
  assert (Hstop : Parser.expr_loop fuel' (expr_tree e)
                    (pstate (expr_tokens e) rest held')
                  = Ok (expr_tree e, pstate (expr_tokens e) rest held')).
  { destruct fuel'; cbn [Parser.expr_loop]; fold add_ops;
      rewrite at_operator_pstate;
      now rewrite (rest_ok_stops add_ops rest held' Hh' Hra). }
  rewrite Hstop in Eq.
  assert (Hp : (p <- Parser.init (expr_tokens e ++ rest) ;;
                Parser.parse fuel p) = Ok (expr_tree e)).
  { unfold Parser.parse.
    destruct (Parser.init (expr_tokens e ++ rest)) as [p| |];
      cbn [bind] in *; try discriminate. now rewrite Eq. }
  split; [exact Hp|].
  destruct (Parser.init (expr_tokens e ++ rest)) as [p| |];
    cbn [bind] in *; try discriminate. now rewrite Hp.
Qed.

Lemma tokens_after_the_expression_are_ignored_witness :
  Lexer.tokenize (py "2 3)") = Ok [tok NUMBER "2"; tok NUMBER "3";
                                   tok RPAREN ")"]
  /\ (p <- Parser.init [tok NUMBER "2"; tok NUMBER "3"; tok RPAREN ")"] ;;
      Parser.parse 1 p) = Ok (NumberNode 2).
Proof.
  split; [reflexivity|].
  exact (proj1 (tokens_after_the_expression_are_ignored
                  ((py "2", []), []) [tok NUMBER "3"; tok RPAREN ")"] 1
                  eq_refl eq_refl eq_refl (le_n 1))).
Defined.

Lemma at_operator_at_index ops ts i o :
  Parser.at_operator ops (at_index ts i (operator_token o))
  = existsb (str_eqb o) ops.
Proof. reflexivity. Qed.

Lemma eat_clamped ts i o :
  length ts <= S i ->
  Parser.eat OPERATOR (at_index ts i (operator_token o))
  = Ok (at_index ts (S i) (operator_token o)).
Proof.
  intros Hlen. unfold Parser.eat, at_index.
  cbn [Parser.current_token Parser.current_token_index Parser.tokens type
       operator_token token_type_eqb].
  destruct (Nat.ltb_spec (S i) (length ts)); [lia | reflexivity].
Qed.

Lemma factor_at_operator ts i o :
  Parser.factor (at_index ts i (operator_token o))
  = Ok (PyNone, at_index ts i (operator_token o)).
Proof. reflexivity. Qed.

(** With the cursor on or past the last token and a multiplicative operator
    held, the loop of [term] meets the same token at every turn. *)
Lemma clamped_term_loop fuel :
  forall nd ts i o,
    length ts <= S i -> existsb (str_eqb o) mul_ops = true ->
    Parser.term_loop fuel nd (at_index ts i (operator_token o)) = Timeout.
Proof.
  induction fuel as [|fuel IH]; intros nd ts i o Hlen Ho;
    cbn [Parser.term_loop]; fold mul_ops;
    rewrite at_operator_at_index, Ho; [reflexivity|].
  rewrite (eat_clamped ts i o Hlen). cbn [bind].
  rewrite factor_at_operator. cbn [bind].
  apply IH; [lia | exact Ho].
Qed.

(** The same for the loop of [expr] and an additive operator. *)
Lemma clamped_expr_loop fuel :
  forall nd ts i o,
    length ts <= S i -> existsb (str_eqb o) add_ops = true ->
    Parser.expr_loop fuel nd (at_index ts i (operator_token o)) = Timeout.
Proof.
  induction fuel as [|fuel IH]; intros nd ts i o Hlen Ho;
    cbn [Parser.expr_loop]; fold add_ops;
    rewrite at_operator_at_index, Ho; [reflexivity|].
  rewrite (eat_clamped ts i o Hlen). cbn [bind].
  assert (Hterm : Parser.term fuel (at_index ts (S i) (operator_token o))
                  = Ok (PyNone, at_index ts (S i) (operator_token o))).
  { pose proof (add_op_is_not_mul_op o Ho) as Hm.
    unfold Parser.term. rewrite factor_at_operator. cbn [bind].
    destruct fuel; cbn [Parser.term_loop]; fold mul_ops;
      rewrite at_operator_at_index;
      change (existsb (str_eqb o) mul_ops)
        with (is_op_token mul_ops (operator_token o));
      now rewrite Hm. }
  rewrite Hterm. cbn [bind].
  apply IH; [lia | exact Ho].
Qed.

Lemma pstate_single done t held :
  pstate done [t] held = at_index (done ++ [t]) (length done) t.
Proof. reflexivity. Qed.

Lemma expr_tokens_snoc t terms o tl :
  expr_tokens (t, terms ++ [(o, tl)])
  = expr_tokens (t, terms) ++ operator_token o :: term_tokens tl.
Proof.
  unfold expr_tokens. cbn [fst snd]. rewrite flat_map_app.
  cbn [flat_map]. change (addend_tokens (o, tl))
    with (operator_token o :: term_tokens tl).
  now rewrite app_nil_r, app_assoc.
Qed.

(** With fuel for one turn per token, the parser runs out of it on an input
    of the grammar followed by one more operator. *)
Lemma dangling_operator_uses_all_fuel e o fuel :
  expr_ok e = true ->
  existsb (str_eqb o) (add_ops ++ mul_ops) = true ->
  length (expr_tokens e) <= fuel ->
  (p <- Parser.init (expr_tokens e ++ [operator_token o]) ;;
   Parser.expr fuel p) = Timeout.
Proof.
  intros Hok Ho Hf. rewrite existsb_app in Ho.
  destruct (existsb (str_eqb o) add_ops) eqn:Hadd.
  - destruct (expr_through e [operator_token o] fuel 0 Hok
                (add_op_is_not_mul_op o Hadd) ltac:(lia))
      as (held' & fuel' & _ & _ & Eq).
    rewrite Eq, pstate_single. apply clamped_expr_loop; [|exact Hadd].
    rewrite length_app. simpl. lia.
  - cbn [orb] in Ho. destruct e as [t terms].
    destruct terms as [|a terms'] eqn:Eterms.
    + destruct t as [d pairs]. unfold expr_ok in Hok. cbn [fst snd forallb] in Hok.
      rewrite andb_true_r in Hok.
      unfold expr_tokens in *. cbn [fst snd flat_map] in *.
      rewrite app_nil_r in *.
      change (Parser.init (term_tokens (d, pairs) ++ [operator_token o]))
        with (Ok (pstate [] (term_tokens (d, pairs) ++ [operator_token o])
                    (number_token d))).
      cbn [bind]. unfold Parser.expr.
      pose proof (term_tokens_length (d, pairs)) as Hlt.
      destruct (term_through (d, pairs) [] (number_token d)
                  [operator_token o] fuel 0 Hok ltac:(lia))
        as (held' & fuel' & _ & _ & Eq).
      rewrite Eq, pstate_single.
      rewrite (clamped_term_loop fuel' _ _ _ o); [reflexivity | | exact Ho].
      rewrite !length_app. simpl. lia.
    + rewrite <- Eterms in *.
      assert (Hne : terms <> []) by (rewrite Eterms; discriminate).
      destruct (exists_last Hne) as (init & [ol tl] & ->).
      clear Eterms Hne terms' a.
      unfold expr_ok in Hok. cbn [fst snd] in Hok.
      apply andb_prop in Hok as [Ht Hok]. rewrite forallb_app in Hok.
      apply andb_prop in Hok as [Hinit Hlast].
      cbn [forallb] in Hlast. rewrite andb_true_r in Hlast.
      unfold addend_ok in Hlast. cbn [fst snd] in Hlast.
      apply andb_prop in Hlast as [Hol Htl].
      rewrite expr_tokens_snoc in *. rewrite <- app_assoc. cbn [app].
      rewrite length_app in Hf. cbn [length] in Hf.
      pose proof (term_tokens_length tl) as Hlt.
      assert (Hoke : expr_ok (t, init) = true)
        by (unfold expr_ok; cbn [fst snd]; now rewrite Ht, Hinit).
      destruct (expr_through (t, init)
                  (operator_token ol :: term_tokens tl ++ [operator_token o])
                  fuel (S (length (snd tl))) Hoke
                  (add_op_is_not_mul_op ol Hol) ltac:(lia))
        as (held' & fuel' & Hk & _ & Eq).
      rewrite Eq. destruct fuel' as [|fuel']; [lia|].
      cbn [Parser.expr_loop]. fold add_ops. rewrite at_operator_pstate.
      cbn [hd]. unfold is_op_token at 1. cbn [type value operator_token
        token_type_eqb andb]. rewrite Hol.
      change (Parser.current_token
                (pstate (expr_tokens (t, init))
                   (operator_token ol :: term_tokens tl ++ [operator_token o])
                   held'))
        with (operator_token ol).
      rewrite eat_operator. cbn [bind].
      destruct (term_through tl (expr_tokens (t, init) ++ [operator_token ol])
                  (operator_token ol) [operator_token o] fuel' 0 Htl
                  ltac:(lia))
        as (held2 & fuel2 & _ & _ & Eq2).
      rewrite Eq2, pstate_single.
      rewrite (clamped_term_loop fuel2 _ _ _ o); [reflexivity | | exact Ho].
      rewrite !length_app. simpl. lia.
Qed.

(** X8.  [parse] does not return on any input of the grammar, with literals
    of at most 4300 digits, that is followed by one more operator, such as
    [2+], [2*3-] or [1+2*]: the operator is eaten, no operand is found, and
    the held current token is the operator again at every turn.  No amount
    of fuel suffices. *)
Theorem dangling_operator_never_returns e o fuel :
  expr_ok e = true ->
  existsb (str_eqb o) (add_ops ++ mul_ops) = true ->
  (p <- Parser.init (expr_tokens e ++ [operator_token o]) ;;
   Parser.parse fuel p) = Timeout.
Proof.
  intros Hok Ho.
  pose proof (dangling_operator_uses_all_fuel e o
                (fuel + length (expr_tokens e)) Hok Ho ltac:(lia)) as Hbig.
  destruct (Parser.init (expr_tokens e ++ [operator_token o])) as [p| |];
    cbn [bind] in *; try discriminate; [|reflexivity].
  destruct (Parser.parse fuel p) as [nd|ex|] eqn:E; [| |reflexivity].
  - assert (Hn : Parser.parse fuel p <> Timeout) by (rewrite E; discriminate).
    pose proof (parse_fuel fuel (fuel + length (expr_tokens e)) p
                  ltac:(lia) Hn) as Hm.
    unfold Parser.parse in Hm at 1. rewrite Hbig in Hm.
    rewrite E in Hm. discriminate.
  - assert (Hn : Parser.parse fuel p <> Timeout) by (rewrite E; discriminate).
    pose proof (parse_fuel fuel (fuel + length (expr_tokens e)) p
                  ltac:(lia) Hn) as Hm.
    unfold Parser.parse in Hm at 1. rewrite Hbig in Hm.
    rewrite E in Hm. discriminate.
Qed.

Lemma dangling_operator_never_returns_witness :
  expr_ok ((py "1", []), [(py "+", (py "2", []))]) = true
  /\ existsb (str_eqb (py "*")) (add_ops ++ mul_ops) = true
  /\ Lexer.tokenize (py "1+2*")
     = Ok (expr_tokens ((py "1", []), [(py "+", (py "2", []))])
           ++ [operator_token (py "*")])
  /\ (p <- Parser.init
             (expr_tokens ((py "1", []), [(py "+", (py "2", []))])
              ++ [operator_token (py "*")]) ;;
      Parser.parse 1000 p) = Timeout.
Proof.
  split; [reflexivity|]. split; [reflexivity|]. split; [reflexivity|].
  exact (dangling_operator_never_returns
           ((py "1", []), [(py "+", (py "2", []))]) (py "*") 1000
           eq_refl eq_refl).
Defined.

Lemma not_type_eqb a b : a <> b -> token_type_eqb a b = false.
Proof.
  intros H. destruct (token_type_eqb a b) eqn:E; [|reflexivity].
  apply token_type_eqb_eq in E. contradiction.
Qed.

(** X9.  An additive operator followed by a token that is neither a number
    nor an operator (as in [2+x] or [1+(2)]) is not a parse error: after an
    input of the grammar whose literals [int] converts, [factor] yields
    [None] for the missing operand and [parse] returns the tree with [None]
    as the right operand and ignores the rest.  Where the expression before
    the operator has a value as the left operand, two calls below
    [interpret], the evaluation then raises [TypeError] on the [None]. *)
Theorem missing_operand_is_a_type_error e o t rest fuel :
  expr_ok e = true ->
  existsb (str_eqb o) add_ops = true ->
  type t <> NUMBER -> type t <> OPERATOR ->
  length (expr_tokens e) < fuel ->
  (p <- Parser.init (expr_tokens e ++ operator_token o :: t :: rest) ;;
   Parser.parse fuel p)
  = Ok (BinaryOperationNode (expr_tree e) o PyNone)
  /\ forall v,
       Interpreter.visit (Interpreter.frames_left - 2) (expr_tree e) = Ok v ->
       (p <- Parser.init (expr_tokens e ++ operator_token o :: t :: rest) ;;
        ast <- Parser.parse fuel p ;; Interpreter.interpret ast)
       = Raise {| exn_cls := TypeError;
                  exn_msg := py "unsupported operand type(s) for " ++ o
                             ++ py ": '" ++ pytype_name v
                             ++ py "' and 'NoneType'" |}.
Proof.
  intros Hok Ho Hn Hop Hf.
  pose proof (not_type_eqb _ _ Hn) as En.
  pose proof (not_type_eqb _ _ Hop) as Eo.
  destruct (expr_through e (operator_token o :: t :: rest) fuel 1 Hok
              (add_op_is_not_mul_op o Ho) ltac:(lia))
    as (held' & fuel' & Hk & _ & Eq).
  destruct fuel' as [|fuel']; [lia|].
  assert (Hloop : Parser.expr_loop (S fuel') (expr_tree e)
                    (pstate (expr_tokens e) (operator_token o :: t :: rest)
                       held')
                  = Ok (BinaryOperationNode (expr_tree e) o PyNone,
                        pstate (expr_tokens e ++ [operator_token o])
                          (t :: rest) (operator_token o))).
  { cbn [Parser.expr_loop]. fold add_ops. rewrite at_operator_pstate.
    cbn [hd]. unfold is_op_token at 1. cbn [type value operator_token
      token_type_eqb andb]. rewrite Ho.
    change (Parser.current_token
              (pstate (expr_tokens e) (operator_token o :: t :: rest) held'))
      with (operator_token o).
    rewrite eat_operator. cbn [bind].
    assert (Hterm : Parser.term fuel'
                      (pstate (expr_tokens e ++ [operator_token o])
                         (t :: rest) (operator_token o))
                    = Ok (PyNone,
                          pstate (expr_tokens e ++ [operator_token o])
                            (t :: rest) (operator_token o))).
    { unfold Parser.term, Parser.factor.
      change (Parser.current_token
                (pstate (expr_tokens e ++ [operator_token o]) (t :: rest)
                   (operator_token o))) with t.
      rewrite En. cbn [bind].
      destruct fuel'; cbn [Parser.term_loop]; rewrite at_operator_pstate;
        unfold is_op_token; cbn [hd]; now rewrite Eo. }
    rewrite Hterm. cbn [bind value operator_token].
    destruct fuel'; cbn [Parser.expr_loop]; rewrite at_operator_pstate;
      unfold is_op_token; cbn [hd]; now rewrite Eo. }
  rewrite Hloop in Eq.
  assert (Hp : (p <- Parser.init
                       (expr_tokens e ++ operator_token o :: t :: rest) ;;
                Parser.parse fuel p)
               = Ok (BinaryOperationNode (expr_tree e) o PyNone)).
  { unfold Parser.parse.
    destruct (Parser.init (expr_tokens e ++ operator_token o :: t :: rest))
      as [p| |]; cbn [bind] in *; try discriminate. now rewrite Eq. }
  split; [exact Hp|]. intros v Hv.
  destruct (Parser.init (expr_tokens e ++ operator_token o :: t :: rest))
    as [p| |]; cbn [bind] in *; try discriminate.
  rewrite Hp. cbn [bind]. unfold Interpreter.interpret.
  change Interpreter.frames_left
    with (S (S (Interpreter.frames_left - 2))) at 1.
  cbn [Interpreter.visit]. rewrite Hv.
  change (Interpreter.frames_left - 2) with (S (Interpreter.frames_left - 3)).
  cbn [Interpreter.visit bind].
  unfold add_ops in Ho. cbn [existsb] in Ho. rewrite orb_false_r in Ho.
  apply orb_prop in Ho as [Ho|Ho]; apply str_eqb_eq in Ho; subst o;
    destruct v; reflexivity.
Qed.

Lemma missing_operand_is_a_type_error_witness :
  Lexer.tokenize (py "2+x")
  = Ok (expr_tokens ((py "2", []), [])
        ++ operator_token (py "+") :: tok IDENTIFIER "x" :: [])
  /\ run_line 2 (py "2+x")
     = Raise {| exn_cls := TypeError;
                exn_msg := py "unsupported operand type(s) for +: 'int' and 'NoneType'" |}.
Proof.
  split; [reflexivity|].
  assert (Hn : type (tok IDENTIFIER "x") <> NUMBER) by discriminate.
  assert (Ho : type (tok IDENTIFIER "x") <> OPERATOR) by discriminate.
  exact (proj2 (missing_operand_is_a_type_error ((py "2", []), []) (py "+")
                  (tok IDENTIFIER "x") [] 2 eq_refl eq_refl Hn Ho (le_n 2))
               (PInt 2) eq_refl).
Defined.

Lemma eat_moves_one ty p p' :
  Parser.eat ty p = Ok p' ->
  Parser.tokens p' = Parser.tokens p
  /\ Parser.current_token_index p' = S (Parser.current_token_index p).
Proof.
  unfold Parser.eat.
  destruct (token_type_eqb (type (Parser.current_token p)) ty);
    [|discriminate].
  destruct (S (Parser.current_token_index p) <? length (Parser.tokens p)).
  - destruct (nth_error (Parser.tokens p) (S (Parser.current_token_index p)));
      [|discriminate].
    intros [= <-]. split; reflexivity.
  - intros [= <-]. split; reflexivity.
Qed.

Lemma factor_moves p nd p' :
  Parser.factor p = Ok (nd, p') ->
  Parser.tokens p' = Parser.tokens p
  /\ Parser.current_token_index p'
     = Parser.current_token_index p + node_count nd
  /\ forall ts, reachable ts p -> reachable ts p'.
Proof.
  unfold Parser.factor.
  destruct (token_type_eqb (type (Parser.current_token p)) NUMBER).
  - intros H. apply bind_Ok_inv in H as (p1 & He & H).
    apply bind_Ok_inv in H as (n & _ & H). injection H as <- <-.
    destruct (eat_moves_one _ _ _ He) as [Ht Hi].
    split; [exact Ht|]. split; [simpl; lia|].
    intros ts Hr. eapply reach_eat; eauto.
  - intros [= <- <-]. split; [reflexivity|]. split; [simpl; lia | auto].
Qed.

Lemma term_loop_moves fuel :
  forall nd p nd' p',
    Parser.term_loop fuel nd p = Ok (nd', p') ->
    Parser.tokens p' = Parser.tokens p
    /\ Parser.current_token_index p' + node_count nd
       = Parser.current_token_index p + node_count nd'
    /\ forall ts, reachable ts p -> reachable ts p'.
Proof.
  induction fuel as [|fuel IH]; intros nd p nd' p'; cbn [Parser.term_loop];
    destruct (Parser.at_operator [py "*"; py "/"] p);
    try discriminate;
    try (intros [= <- <-]; split; [reflexivity|]; split; [lia | auto]).
  intros H. apply bind_Ok_inv in H as (p1 & He & H).
  apply bind_Ok_inv in H as ([rhs p2] & Hf & H).
  destruct (eat_moves_one _ _ _ He) as [Ht1 Hi1].
  destruct (factor_moves _ _ _ Hf) as (Ht2 & Hi2 & Hr2).
  destruct (IH _ _ _ _ H) as (Ht3 & Hi3 & Hr3).
  split; [congruence|]. split; [cbn [node_count] in Hi3; lia|].
  intros ts Hr. apply Hr3, Hr2. eapply reach_eat; eauto.
Qed.

Lemma term_moves fuel p nd p' :
  Parser.term fuel p = Ok (nd, p') ->
  Parser.tokens p' = Parser.tokens p
  /\ Parser.current_token_index p'
     = Parser.current_token_index p + node_count nd
  /\ forall ts, reachable ts p -> reachable ts p'.
Proof.
  unfold Parser.term. intros H.
  apply bind_Ok_inv in H as ([nd0 p0] & Hf & H).
  destruct (factor_moves _ _ _ Hf) as (Ht1 & Hi1 & Hr1).
  destruct (term_loop_moves _ _ _ _ _ H) as (Ht2 & Hi2 & Hr2).
  split; [congruence|]. split; [lia | auto].
Qed.

Lemma expr_loop_moves fuel :
  forall nd p nd' p',
    Parser.expr_loop fuel nd p = Ok (nd', p') ->
    Parser.tokens p' = Parser.tokens p
    /\ Parser.current_token_index p' + node_count nd
       = Parser.current_token_index p + node_count nd'
    /\ forall ts, reachable ts p -> reachable ts p'.
Proof.
  induction fuel as [|fuel IH]; intros nd p nd' p'; cbn [Parser.expr_loop];
    destruct (Parser.at_operator [py "+"; py "-"] p);
    try discriminate;
    try (intros [= <- <-]; split; [reflexivity|]; split; [lia | auto]).
  intros H. apply bind_Ok_inv in H as (p1 & He & H).
  apply bind_Ok_inv in H as ([rhs p2] & Hf & H).
  destruct (eat_moves_one _ _ _ He) as [Ht1 Hi1].
  destruct (term_moves _ _ _ _ Hf) as (Ht2 & Hi2 & Hr2).
  destruct (IH _ _ _ _ H) as (Ht3 & Hi3 & Hr3).
  split; [congruence|]. split; [cbn [node_count] in Hi3; lia|].
  intros ts Hr. apply Hr3, Hr2. eapply reach_eat; eauto.
Qed.

(** X10.  Whenever [expr] returns, the token list is the one it started
    with, the cursor has moved forward by exactly the number of number and
    operator nodes of the tree returned (one token eaten for each, none for
    a [None]), and the current token is a token of the list: the one at the
    cursor, or the last one once the cursor is past the end. *)
Theorem expr_eats_one_token_per_node ts fuel p nd p' :
  reachable ts p ->
  Parser.expr fuel p = Ok (nd, p') ->
  Parser.tokens p' = ts
  /\ Parser.current_token_index p'
     = Parser.current_token_index p + node_count nd
  /\ nth_error ts (Nat.min (Parser.current_token_index p') (length ts - 1))
     = Some (Parser.current_token p').
Proof.
  intros Hr H. unfold Parser.expr in H.
  apply bind_Ok_inv in H as ([nd0 p0] & Hterm & Hloop).
  destruct (term_moves _ _ _ _ Hterm) as (Ht1 & Hi1 & Hr1).
  destruct (expr_loop_moves _ _ _ _ _ Hloop) as (Ht2 & Hi2 & Hr2).
  destruct (reachable_current ts p' (Hr2 ts (Hr1 ts Hr))) as [Ht Hc].
  split; [exact Ht|]. split; [lia | exact Hc].
Qed.

Lemma expr_eats_one_token_per_node_witness :
  reachable [tok NUMBER "2"; tok OPERATOR "+"; tok NUMBER "3"; tok RPAREN ")"]
    (at_index [tok NUMBER "2"; tok OPERATOR "+"; tok NUMBER "3";
               tok RPAREN ")"] 0 (tok NUMBER "2"))
  /\ exists nd p',
       Parser.expr 1
         (at_index [tok NUMBER "2"; tok OPERATOR "+"; tok NUMBER "3";
                    tok RPAREN ")"] 0 (tok NUMBER "2")) = Ok (nd, p')
       /\ Parser.current_token_index p' = 0 + node_count nd.
Proof.
  assert (Hr : reachable
                 [tok NUMBER "2"; tok OPERATOR "+"; tok NUMBER "3";
                  tok RPAREN ")"]
                 (at_index [tok NUMBER "2"; tok OPERATOR "+"; tok NUMBER "3";
                            tok RPAREN ")"] 0 (tok NUMBER "2")))
    by (apply reach_init; reflexivity).
  split; [exact Hr|]. eexists. eexists.
  assert (He : Parser.expr 1
                 (at_index [tok NUMBER "2"; tok OPERATOR "+"; tok NUMBER "3";
                            tok RPAREN ")"] 0 (tok NUMBER "2"))
               = Ok (BinaryOperationNode (NumberNode 2) (py "+")
                       (NumberNode 3),
                     at_index [tok NUMBER "2"; tok OPERATOR "+";
                               tok NUMBER "3"; tok RPAREN ")"] 3
                       (tok RPAREN ")")))
    by reflexivity.
  split; [exact He|].
  exact (proj1 (proj2 (expr_eats_one_token_per_node _ 1 _ _ _ Hr He))).
Defined.

(** ** Interpreter *)

Lemma int_op_cases op :
  existsb (str_eqb op) int_ops = true ->
  op = py "+" \/ op = py "-" \/ op = py "*".
Proof.
  unfold int_ops. cbn [existsb]. rewrite orb_false_r. intros H.
  repeat (apply orb_prop in H as [H|H]); apply str_eqb_eq in H; auto.
Qed.

Lemma all_op_cases op :
  existsb (str_eqb op) all_ops = true ->
  op = py "+" \/ op = py "-" \/ op = py "*" \/ op = py "/".
Proof.
  unfold all_ops. cbn [existsb]. rewrite orb_false_r. intros H.
  repeat (apply orb_prop in H as [H|H]); apply str_eqb_eq in H; auto.
Qed.

(** X11.  On a tree of numbers with [+], [-] and [*] only, [visit] given
    the calls the tree needs, two for each of its levels, returns the exact
    integer the tree stands for: an [int], never a [float], never an
    exception, whatever the size of the numbers.  In the loop, where
    [interpret] has 997 calls left, these are the trees of at most 498
    levels. *)
Theorem integer_arithmetic_is_exact nd :
  tree_over int_ops nd = true ->
  (forall frames,
      frames_needed nd <= frames ->
      Interpreter.visit frames nd = Ok (PInt (int_value nd)))
  /\ (frames_needed nd + 3 <= recursion_limit ->
      Interpreter.interpret nd = Ok (PInt (int_value nd))).
Proof.
  intros H.
  assert (Hv : forall frames,
             frames_needed nd <= frames ->
             Interpreter.visit frames nd = Ok (PInt (int_value nd))).
  { induction nd as [v|l IHl op r IHr|]; cbn [tree_over] in H;
      [| |discriminate]; intros [|[|f]] Hf; cbn [frames_needed] in Hf;
      try lia; [reflexivity|].
    apply andb_prop in H as [H Hr]. apply andb_prop in H as [Hop Hl].
    cbn [Interpreter.visit].
    rewrite (IHl Hl f) by lia. rewrite (IHr Hr f) by lia. cbn [bind].
    destruct (int_op_cases op Hop) as [-> | [-> | ->]]; reflexivity. }
  split; [exact Hv|]. intros Hf. apply Hv.
  unfold Interpreter.frames_left. lia.
Qed.

Lemma integer_arithmetic_is_exact_witness :
  tree_over int_ops
    (BinaryOperationNode (NumberNode 2) (py "-")
       (BinaryOperationNode (NumberNode 3) (py "*") (NumberNode 4))) = true
  /\ frames_needed
       (BinaryOperationNode (NumberNode 2) (py "-")
          (BinaryOperationNode (NumberNode 3) (py "*") (NumberNode 4))) <= 6
  /\ Interpreter.visit 6
       (BinaryOperationNode (NumberNode 2) (py "-")
          (BinaryOperationNode (NumberNode 3) (py "*") (NumberNode 4)))
     = Ok (PInt (-10)).
Proof.
  split; [reflexivity|]. split; [apply le_n|].
  exact (proj1 (integer_arithmetic_is_exact
                  (BinaryOperationNode (NumberNode 2) (py "-")
                     (BinaryOperationNode (NumberNode 3) (py "*")
                        (NumberNode 4)))
                  eq_refl) 6 (le_n 6)).
Defined.

Lemma py_arith_kind op zop fop a b v :
  py_arith op zop fop a b = Ok v ->
  a <> PNoneVal -> b <> PNoneVal ->
  is_int v = is_int a && is_int b /\ is_int v || is_float v = true.
Proof.
  unfold py_arith. intros H Ha Hb.
  destruct a as [x|f|], b as [y|g|]; try congruence; cbn [as_float] in H;
    try (injection H as <-; split; reflexivity);
    repeat match type of H with
           | context [float_of_int ?z] =>
               destruct (float_of_int z); cbn [bind] in H
           end;
    try discriminate; cbn [bind] in H; injection H as <-; split; reflexivity.
Qed.

Lemma py_truediv_kind a b v :
  py_truediv a b = Ok v -> is_float v = true.
Proof.
  unfold py_truediv, int_true_divide, raise. intros H.
  destruct a as [x|f|], b as [y|g|]; cbn [as_float bind] in H;
    try discriminate;
    repeat match type of H with
           | context [float_of_int ?z] =>
               destruct (float_of_int z); cbn [bind] in H
           | context [match ?z with Z0 => _ | Zpos _ => _ | Zneg _ => _ end] =>
               destruct z
           | context [if ?c then _ else _] => destruct c
           end;
    try discriminate; cbn [bind] in H; injection H as <-; reflexivity.
Qed.

Lemma visit_kind nd :
  tree_over all_ops nd = true ->
  forall frames v,
    Interpreter.visit frames nd = Ok v ->
    is_int v = tree_over int_ops nd /\ is_int v || is_float v = true.
Proof.
  induction nd as [n|l IHl op r IHr|]; cbn [tree_over]; intros H;
    [| |discriminate]; intros [|[|f]] v Hv; cbn [Interpreter.visit] in Hv;
    try discriminate; [injection Hv as <-; split; reflexivity|].
  apply andb_prop in H as [H Hr]. apply andb_prop in H as [Hop Hl].
  apply bind_Ok_inv in Hv as (lv & Hlv & Hv).
  apply bind_Ok_inv in Hv as (rv & Hrv & Hv).
  destruct (IHl Hl f lv Hlv) as [Il Kl].
  destruct (IHr Hr f rv Hrv) as [Ir Kr].
  assert (Hln : lv <> PNoneVal) by (intros ->; discriminate).
  assert (Hrn : rv <> PNoneVal) by (intros ->; discriminate).
  rewrite <- Il, <- Ir.
  destruct (all_op_cases op Hop) as [-> | [-> | [-> | ->]]];
    cbn [str_eqb] in Hv.
  - change (str_eqb (py "+") (py "+")) with true in Hv. cbv iota in Hv.
    now apply py_arith_kind in Hv.
  - change (str_eqb (py "-") (py "+")) with false in Hv.
    change (str_eqb (py "-") (py "-")) with true in Hv. cbv iota in Hv.
    now apply py_arith_kind in Hv.
  - change (str_eqb (py "*") (py "+")) with false in Hv.
    change (str_eqb (py "*") (py "-")) with false in Hv.
    change (str_eqb (py "*") (py "*")) with true in Hv. cbv iota in Hv.
    now apply py_arith_kind in Hv.
  - change (str_eqb (py "/") (py "+")) with false in Hv.
    change (str_eqb (py "/") (py "-")) with false in Hv.
    change (str_eqb (py "/") (py "*")) with false in Hv.
    change (str_eqb (py "/") (py "/")) with true in Hv. cbv iota in Hv.
    apply py_truediv_kind in Hv. destruct v; try discriminate.
    split; [reflexivity | reflexivity].
Qed.

(** X12.  On a tree of numbers with the four operators, what [visit]
    returns, at whatever depth, is an [int] exactly when the tree has no
    division, and a [float] otherwise: one division anywhere makes the whole
    result a [float].  It is never [None]. *)
Theorem one_division_makes_a_float frames nd v :
  tree_over all_ops nd = true ->
  Interpreter.visit frames nd = Ok v ->
  (is_int v = true <-> tree_over int_ops nd = true)
  /\ (is_float v = true <-> tree_over int_ops nd = false)
  /\ v <> PNoneVal.
Proof.
  intros H Hv. destruct (visit_kind nd H frames v Hv) as [Hi Hk].
  rewrite <- Hi. destruct v; cbn in *; repeat split; congruence.
Qed.

Lemma one_division_makes_a_float_witness :
  tree_over all_ops
    (BinaryOperationNode
       (BinaryOperationNode (NumberNode 4) (py "/") (NumberNode 2))
       (py "+") (NumberNode 1)) = true
  /\ Interpreter.visit 6
       (BinaryOperationNode
          (BinaryOperationNode (NumberNode 4) (py "/") (NumberNode 2))
          (py "+") (NumberNode 1))
     = Ok (PFloat (S754_finite false 6755399441055744 (-51)))
  /\ is_float (PFloat (S754_finite false 6755399441055744 (-51))) = true.
Proof.
  split; [reflexivity|]. split; [reflexivity|].
  destruct (one_division_makes_a_float 6
              (BinaryOperationNode
                 (BinaryOperationNode (NumberNode 4) (py "/") (NumberNode 2))
                 (py "+") (NumberNode 1))
              (PFloat (S754_finite false 6755399441055744 (-51)))
              eq_refl eq_refl) as (_ & H & _).
  apply H. reflexivity.
Defined.

Lemma digit_facts_bool c :
  is_digit c = true ->
  ((0 <=? digit_value c)%Z && (digit_value c <=? 9)%Z
   && Bool.eqb (digit_value c =? 0)%Z (is_char "0" c)) = true.
Proof.
  destruct c as [[] [] [] [] [] [] [] []]; intros H; vm_compute in H;
    try discriminate H; vm_compute; reflexivity.
Qed.

Lemma digit_facts c :
  is_digit c = true ->
  (0 <= digit_value c <= 9)%Z
  /\ (digit_value c = 0%Z <-> is_char "0" c = true).
Proof.
  intros H. pose proof (digit_facts_bool c H) as B.
  apply andb_prop in B as [B E]. apply andb_prop in B as [L U].
  apply Z.leb_le in L. apply Z.leb_le in U. apply Bool.eqb_prop in E.
  split; [lia|]. rewrite <- E. symmetry. apply Z.eqb_eq.
Qed.

Lemma digits_value d :
  forall acc,
    forallb is_digit d = true -> (0 <= acc)%Z ->
    (0 <= fold_left (fun a c => 10 * a + digit_value c)%Z d acc)%Z
    /\ (fold_left (fun a c => 10 * a + digit_value c)%Z d acc = 0%Z
        <-> acc = 0%Z /\ forallb (is_char "0") d = true).
Proof.
  induction d as [|c d IH]; intros acc Hd Hacc; cbn [fold_left forallb].
  - split; [exact Hacc | tauto].
  - cbn [forallb] in Hd. apply andb_prop in Hd as [Hc Hd].
    destruct (digit_facts c Hc) as [Hr Hz].
    destruct (IH (10 * acc + digit_value c)%Z Hd ltac:(lia)) as [Hpos Hiff].
    split; [exact Hpos|]. rewrite Hiff. rewrite andb_true_iff, <- Hz.
    split.
    + intros [H1 H2]. repeat split; try assumption; lia.
    + intros [H1 [H2 H3]]. split; [lia | exact H3].
Qed.

Lemma int_of_zero d :
  forallb is_digit d = true ->
  (0 <= int_of d)%Z
  /\ (int_of d = 0%Z <-> forallb (is_char "0") d = true).
Proof.
  intros Hd. unfold int_of.
  destruct (digits_value d 0%Z Hd (Z.le_refl 0)) as [Hp Hi].
  split; [exact Hp|]. rewrite Hi. tauto.
Qed.

Lemma number_literal_digits d :
  is_number_literal d = true -> forallb is_digit d = true.
Proof. unfold is_number_literal. destruct d; [discriminate | auto]. Qed.

(** X13.  The quotient of two number literals of at most 4300 digits, which
    [int] converts, raises [ZeroDivisionError] exactly when every digit of
    the divisor is [0] ([5/0], [5/000]); with any other divisor it is a
    [float], or [OverflowError] when the quotient is beyond the doubles.  A
    literal is never negative. *)
Theorem division_by_zero_iff_zero_literal a b fuel :
  is_int_literal a = true -> is_int_literal b = true -> 3 <= fuel ->
  (0 <= int_of a)%Z /\ (0 <= int_of b)%Z
  /\ (run_line fuel (a ++ py "/" ++ b)
      = raise ZeroDivisionError "division by zero"
      <-> forallb (is_char "0") b = true)
  /\ (forallb (is_char "0") b = false ->
      (exists f, run_line fuel (a ++ py "/" ++ b) = Ok (PFloat f))
      \/ run_line fuel (a ++ py "/" ++ b)
         = raise OverflowError
             "integer division result too large for a float").
Proof.
  intros Ha Hb Hf.
  destruct (int_of_zero a (number_literal_digits a
                             (int_literal_is_number_literal a Ha)))
    as [Hpa _].
  destruct (int_of_zero b (number_literal_digits b
                             (int_literal_is_number_literal b Hb)))
    as [Hpb Hzb].
  pose (e := ((a, [(py "/", b)]), []) : expr_shape).
  assert (Hok : expr_ok e = true).
  { cbv [e expr_ok term_ok factor_ok fst snd forallb]. rewrite Ha, Hb.
    reflexivity. }
  destruct (run_line_expr e fuel Hok Hf) as [_ Hr].
  replace (literals (expr_tokens e)) with (a ++ py "/" ++ b) in Hr
    by (unfold e, literals; simpl; now rewrite app_nil_r).
  rewrite Hr.
  change (Interpreter.interpret (expr_tree e))
    with (int_true_divide (int_of a) (int_of b)).
  split; [exact Hpa|]. split; [exact Hpb|].
  rewrite <- Hzb. unfold int_true_divide, raise. split.
  - split.
    + destruct (int_of a), (int_of b); try reflexivity; try discriminate;
        match goal with
        | |- context [is_infinity ?q] => destruct (is_infinity q)
        end; discriminate.
    + intros ->. now destruct (int_of a).
  - intros Hnz.
    assert (Hn : int_of b <> 0%Z).
    { intros E. apply Hzb in E. congruence. }
    destruct (int_of a), (int_of b); try congruence;
      try (left; eexists; reflexivity);
      match goal with
      | |- context [is_infinity ?q] => destruct (is_infinity q)
      end; (right; reflexivity) || (left; eexists; reflexivity).
Qed.

Lemma division_by_zero_iff_zero_literal_witness :
  is_int_literal (py "5") = true
  /\ is_int_literal (py "000") = true
  /\ 3 <= 3
  /\ run_line 3 (py "5/000") = raise ZeroDivisionError "division by zero".
Proof.
  split; [reflexivity|]. split; [reflexivity|]. split; [apply le_n|].
  destruct (division_by_zero_iff_zero_literal (py "5") (py "000") 3
              eq_refl eq_refl (le_n 3)) as (_ & _ & H & _).
  apply H. reflexivity.
Defined.

(** ** The loop and the rest *)

Lemma lstrip_spaces pre s :
  forallb is_space pre = true -> lstrip (pre ++ s) = lstrip s.
Proof.
  induction pre as [|c pre IH]; cbn [app lstrip forallb]; [reflexivity|].
  intros H. apply andb_prop in H as [-> H]. now apply IH.
Qed.

Lemma lstrip_split s :
  exists pre, forallb is_space pre = true /\ s = pre ++ lstrip s.
Proof.
  induction s as [|c s (pre & Hp & Hs)]; [exists []; split; reflexivity|].
  cbn [lstrip]. destruct (is_space c) eqn:E.
  - exists (c :: pre). cbn [forallb app]. rewrite E, Hp.
    split; [reflexivity | now rewrite <- Hs].
  - exists []. split; reflexivity.
Qed.

Lemma forallb_rev_true (f : ascii -> bool) s :
  forallb f s = true -> forallb f (rev s) = true.
Proof.
  intros H. apply forallb_forall. intros x Hx.
  apply in_rev in Hx. revert x Hx. now apply forallb_forall.
Qed.

(** X14.  The lines that end the session are exactly [exit] with any
    whitespace before and after it.  Such a line prints nothing, and the
    lines after it are not read. *)
Theorem exit_with_whitespace_around_stops fuel code :
  (repl_turn fuel code = Break
   <-> exists before after,
         forallb is_space before = true /\ forallb is_space after = true
         /\ code = before ++ py "exit" ++ after)
  /\ (repl_turn fuel code = Break ->
      forall rest, repl fuel (code :: rest) = ([], Stopped)).
Proof.
  split.
  - rewrite repl_turn_break. unfold strip. split.
    + intros H.
      destruct (lstrip_split code) as (pre & Hpre & Hc).
      destruct (lstrip_split (rev (lstrip code))) as (q & Hq & Hr).
      exists pre, (rev q). split; [exact Hpre|].
      split; [now apply forallb_rev_true|].
      apply (f_equal (@rev ascii)) in Hr.
      rewrite rev_involutive, rev_app_distr, H in Hr.
      now rewrite <- Hr.
    + intros (pre & post & Hpre & Hpost & ->).
      rewrite (lstrip_spaces pre _ Hpre).
      assert (E : lstrip (py "exit" ++ post) = py "exit" ++ post)
        by reflexivity.
      rewrite E, rev_app_distr.
      rewrite (lstrip_spaces (rev post) _ (forallb_rev_true _ _ Hpost)).
      reflexivity.
  - intros H rest. cbn [repl]. now rewrite H.
Qed.

Lemma exit_with_whitespace_around_stops_witness :
  repl_turn 0 (py "  exit ") = Break
  /\ repl 0 [py "  exit "; py "1+1"] = ([], Stopped).
Proof.
  assert (H : repl_turn 0 (py "  exit ") = Break).
  { apply (proj1 (exit_with_whitespace_around_stops 0 (py "  exit "))).
    exists (py "  "), (py " "). repeat split. }
  split; [exact H|].
  exact (proj2 (exit_with_whitespace_around_stops 0 (py "  exit ")) H
               [py "1+1"]).
Defined.

Lemma is_char_refl a : is_char a a = true.
Proof. apply Ascii.eqb_refl. Qed.

Lemma repr_of_splits k1 :
  forall v1 k2 v2,
    has_colon k1 = false -> has_colon k2 = false ->
    repr_of k1 v1 = repr_of k2 v2 -> k1 = k2 /\ v1 = v2.
Proof.
  unfold repr_of, has_colon.
  induction k1 as [|c1 k1 IH]; intros v1 [|c2 k2] v2 H1 H2 E;
    cbn [app existsb] in *.
  - injection E as E. now split.
  - injection E as <- _. now rewrite is_char_refl in H2.
  - injection E as -> _. now rewrite is_char_refl in H1.
  - injection E as -> E.
    apply orb_false_iff in H1 as [_ H1]. apply orb_false_iff in H2 as [_ H2].
    destruct (IH v1 k2 v2 H1 H2 E) as [-> ->]. now split.
Qed.

(** X15.  [Token.__repr__] puts a colon between the kind and the literal.
    Two tokens whose kinds are text without a colon, as the keys of
    [patterns] all are, and whose [repr] is the same text have the same kind
    and the same literal, although the literal may itself hold colons; so
    [repr] tells the tokens of the lexer apart.  With a colon in the kind,
    which [Token.__init__] does not refuse, this fails: kind [A] with
    literal [B:C] and kind [A:B] with literal [C] have the same [repr]. *)
Theorem token_repr_identifies_the_token :
  (forall k1 v1 k2 v2,
      has_colon k1 = false -> has_colon k2 = false ->
      repr_of k1 v1 = repr_of k2 v2 -> k1 = k2 /\ v1 = v2)
  /\ (forall t1 t2, Token_repr t1 = Token_repr t2 -> t1 = t2)
  /\ (repr_of (py "A") (py "B:C") = repr_of (py "A:B") (py "C")
      /\ py "A" <> py "A:B").
Proof.
  split; [intros k1; apply repr_of_splits|]. split.
  - intros [ty1 v1] [ty2 v2]. unfold Token_repr. cbn [type value]. intros E.
    apply repr_of_splits in E; [|now destruct ty1 | now destruct ty2].
    destruct E as [Ek ->]. f_equal.
    destruct ty1, ty2; try reflexivity; discriminate Ek.
  - split; [reflexivity | discriminate].
Qed.

Lemma token_repr_identifies_the_token_witness :
  has_colon (py "STRING") = false
  /\ repr_of (py "STRING") (py "a:b") = py "STRING:a:b"
  /\ (py "STRING" = py "STRING" /\ py "a:b" = py "a:b").
Proof.
  split; [reflexivity|]. split; [reflexivity|].
  exact (proj1 token_repr_identifies_the_token
           (py "STRING") (py "a:b") (py "STRING") (py "a:b")
           eq_refl eq_refl eq_refl).
Defined.

(** ** The limit on digits *)

Lemma py_int_long d :
  is_number_literal d = true -> max_str_digits < length d ->
  py_int d = Raise (too_many_digits (length d)).
Proof.
  unfold is_number_literal. intros Hd Hlen.
  destruct d as [|c d]; [discriminate|].
  pose proof Hd as Hc. cbn [forallb] in Hc. apply andb_prop in Hc as [Hc _].
  destruct (digit_starts_number c Hc) as (Hs & Hp & Hm & Hu).
  unfold py_int. cbn [drop_while]. rewrite Hs, Hp, Hm, Hu.
  rewrite (int_digits_all _ Hd).
  destruct (Nat.ltb_spec max_str_digits (length (c :: d))) as [_|Hge];
    [reflexivity | lia].
Qed.

Lemma lstrip_incl c s : In c (lstrip s) -> In c s.
Proof.
  induction s as [|x s IH]; cbn [lstrip]; [tauto|].
  destruct (is_space x); [right; auto | tauto].
Qed.

Lemma strip_incl c s : In c (strip s) -> In c s.
Proof.
  unfold strip. intros H. apply in_rev, lstrip_incl in H.
  apply in_rev in H. now apply lstrip_incl in H.
Qed.

Lemma number_literal_is_not_exit d :
  is_number_literal d = true -> strip d <> py "exit".
Proof.
  intros Hd E.
  assert (Hin : In "e"%char (strip d)) by (rewrite E; now left).
  apply strip_incl in Hin. apply number_literal_digits in Hd.
  rewrite forallb_forall in Hd. specialize (Hd _ Hin). discriminate Hd.
Qed.

Lemma tokenize_number_literal d :
  is_number_literal d = true -> Lexer.tokenize d = Ok [number_token d].
Proof.
  intros Hd. rewrite tokenize_scan.
  pose proof (literals_reread [number_token d]
                (Forall_cons _ (number_token_well_formed d Hd) (Forall_nil _))
                eq_refl) as H.
  unfold literals in H. cbn [map concat value number_token] in H.
  now rewrite app_nil_r in H.
Qed.

(** X17.  [int] converts at most 4300 digits from text and to text.  A
    number literal is one [NUMBER] token however long it is, and the line
    that consists of it evaluates to the number it writes exactly when it
    has at most 4300 digits; a longer one makes [factor] raise [ValueError]
    with the count of the digits in the message, which the loop prints as an
    [Error:] line.  A result of more than 4300 digits is computed, but
    [print] refuses it and the loop prints an [Error:] line in its place. *)
Theorem long_numbers_are_value_errors :
  (forall d fuel,
      is_number_literal d = true ->
      Lexer.tokenize d = Ok [number_token d]
      /\ (length d <= max_str_digits ->
          run_line fuel d = Ok (PInt (int_of d)))
      /\ (max_str_digits < length d ->
          run_line fuel d = Raise (too_many_digits (length d))
          /\ repl_turn fuel d
             = Continue (PrintLine (py "Error: "
                                    ++ exn_msg (too_many_digits (length d))))))
  /\ (forall fuel code z,
         strip code <> py "exit" -> run_line fuel code = Ok (PInt z) ->
         ((Z.abs z < 10 ^ Z.of_nat max_str_digits)%Z ->
          repl_turn fuel code = Continue (PrintValue (PInt z)))
         /\ ((10 ^ Z.of_nat max_str_digits <= Z.abs z)%Z ->
             repl_turn fuel code
             = Continue (PrintLine (py "Error: " ++ exn_msg str_limit_error)))).
Proof.
  split.
  - intros d fuel Hd. pose proof (tokenize_number_literal d Hd) as Ht.
    split; [exact Ht|].
    assert (Hrun : run_line fuel d
                   = (n <- py_int d ;;
                      ' (nd, _) <- Parser.expr_loop fuel (NumberNode n)
                                     (at_index [number_token d] 1
                                        (number_token d)) ;;
                      Interpreter.interpret nd)).
    { unfold run_line. rewrite Ht. cbn [bind Parser.init nth_error].
      unfold Parser.parse, Parser.expr, Parser.term, Parser.factor.
      cbn [Parser.current_token type number_token token_type_eqb value].
      change (Parser.eat NUMBER
                {| Parser.tokens := [{| type := NUMBER; value := d |}];
                   Parser.current_token_index := 0;
                   Parser.current_token := {| type := NUMBER; value := d |} |})
        with (Ok (at_index [number_token d] 1 (number_token d))).
      cbn [bind]. destruct (py_int d) as [n| |]; cbn [bind]; try reflexivity.
      destruct fuel; reflexivity. }
    split.
    + intros Hlen. rewrite Hrun, py_int_literal.
      * cbn [bind]. destruct fuel; reflexivity.
      * unfold is_int_literal. rewrite Hd.
        now apply Nat.leb_le in Hlen as ->.
    + intros Hlen.
      assert (Hr : run_line fuel d = Raise (too_many_digits (length d)))
        by (now rewrite Hrun, (py_int_long d Hd Hlen)).
      split; [exact Hr|].
      exact (repl_turn_error fuel d _ (number_literal_is_not_exit d Hd) Hr).
  - intros fuel code z Hs Hr. unfold repl_turn.
    destruct (str_eqb (strip code) (py "exit")) eqn:E;
      [apply str_eqb_eq in E; contradiction|].
    rewrite Hr. cbn [bind]. unfold py_print, too_long_to_print.
    destruct (Z.leb_spec (10 ^ Z.of_nat max_str_digits) (Z.abs z));
      split; intros H'; try reflexivity; lia.
Qed.

Lemma long_numbers_are_value_errors_witness :
  is_number_literal (repeat "1"%char 4301) = true
  /\ max_str_digits < length (repeat "1"%char 4301)
  /\ run_line 1 (repeat "1"%char 4301) = Raise (too_many_digits 4301).
Proof.
  assert (Hd : is_number_literal (repeat "1"%char 4301) = true)
    by (vm_compute; reflexivity).
  assert (Hlen : max_str_digits < length (repeat "1"%char 4301))
    by (apply Nat.ltb_lt; vm_compute; reflexivity).
  split; [exact Hd|]. split; [exact Hlen|].
  destruct long_numbers_are_value_errors as [H _].
  destruct (H (repeat "1"%char 4301) 1 Hd) as (_ & _ & Hlong).
  exact (proj1 (Hlong Hlen)).
Defined.

(** ** The game loop *)

Lemma handle_events_stopped events :
  GameInterpreter.handle_events events
    {| GameInterpreter.running := false |}
  = {| GameInterpreter.running := false |}.
Proof.
  induction events as [|[|c] events IH]; cbn [GameInterpreter.handle_events];
    auto.
Qed.

Lemma handle_events_quit events g :
  In GameInterpreter.QUIT events ->
  GameInterpreter.handle_events events g
  = {| GameInterpreter.running := false |}.
Proof.
  revert g. induction events as [|[|c] events IH]; intros g Hin;
    cbn [GameInterpreter.handle_events].
  - destruct Hin.
  - apply handle_events_stopped.
  - apply IH. destruct Hin as [H|H]; [discriminate | exact H].
Qed.

Lemma handle_events_other events g :
  ~ In GameInterpreter.QUIT events ->
  GameInterpreter.handle_events events g = g.
Proof.
  revert g. induction events as [|[|c] events IH]; intros g Hin;
    cbn [GameInterpreter.handle_events].
  - reflexivity.
  - exfalso. apply Hin. now left.
  - apply IH. intros H. apply Hin. now right.
Qed.

(** X16.  [game_loop] draws one frame for every answer of
    [pygame.event.get()] up to and including the first that holds a [QUIT]
    event (the frame of the [QUIT] is still filled, flipped and ticked at 60,
    and the events behind the [QUIT] cannot undo it), then calls
    [pygame.quit()] once and returns with [running] false; the answers after
    that one are never asked for.  Without a [QUIT] it draws every frame and
    goes on; entered with [running] false it only calls [pygame.quit()]. *)
Theorem game_loop_runs_until_quit :
  (forall before events after,
      Forall (fun evs => ~ In GameInterpreter.QUIT evs) before ->
      In GameInterpreter.QUIT events ->
      GameInterpreter.game_loop (before ++ events :: after)
        {| GameInterpreter.running := true |}
      = (concat (map (fun _ => GameInterpreter.event_get
                               :: GameInterpreter.draw)
                     (before ++ [events]))
         ++ [GameInterpreter.pygame_quit],
         Some {| GameInterpreter.running := false |}))
  /\ (forall frames,
         Forall (fun evs => ~ In GameInterpreter.QUIT evs) frames ->
         GameInterpreter.game_loop frames
           {| GameInterpreter.running := true |}
         = (concat (map (fun _ => GameInterpreter.event_get
                                  :: GameInterpreter.draw) frames)
            ++ [GameInterpreter.event_get],
            None))
  /\ (forall frames,
         GameInterpreter.game_loop frames
           {| GameInterpreter.running := false |}
         = ([GameInterpreter.pygame_quit],
            Some {| GameInterpreter.running := false |})).
Proof.
  assert (Hstopped : forall frames,
             GameInterpreter.game_loop frames
               {| GameInterpreter.running := false |}
             = ([GameInterpreter.pygame_quit],
                Some {| GameInterpreter.running := false |}))
    by (intros [|evs frames]; reflexivity).
  split; [|split; [|exact Hstopped]].
  - intros before events after Hb Hq.
    induction Hb as [|evs before Hevs Hb IH].
    + cbn [app GameInterpreter.game_loop GameInterpreter.running].
      rewrite (handle_events_quit events _ Hq), Hstopped. reflexivity.
    + cbn [app GameInterpreter.game_loop GameInterpreter.running].
      rewrite (handle_events_other evs _ Hevs), IH. reflexivity.
  - intros frames Hf. induction Hf as [|evs frames Hevs Hf IH];
      [reflexivity|].
    cbn [GameInterpreter.game_loop GameInterpreter.running].
    rewrite (handle_events_other evs _ Hevs), IH. reflexivity.
Qed.

Lemma game_loop_runs_until_quit_witness :
  Forall (fun evs => ~ In GameInterpreter.QUIT evs)
    [[GameInterpreter.OTHER 1]]
  /\ In GameInterpreter.QUIT
       [GameInterpreter.OTHER 2; GameInterpreter.QUIT;
        GameInterpreter.OTHER 3]
  /\ GameInterpreter.game_loop
       [[GameInterpreter.OTHER 1];
        [GameInterpreter.OTHER 2; GameInterpreter.QUIT;
         GameInterpreter.OTHER 3];
        []]
       {| GameInterpreter.running := true |}
     = ([GameInterpreter.event_get; GameInterpreter.screen_fill 0 0 0;
         GameInterpreter.display_flip; GameInterpreter.clock_tick 60;
         GameInterpreter.event_get; GameInterpreter.screen_fill 0 0 0;
         GameInterpreter.display_flip; GameInterpreter.clock_tick 60;
         GameInterpreter.pygame_quit],
        Some {| GameInterpreter.running := false |}).
Proof.
  assert (Hb : Forall (fun evs => ~ In GameInterpreter.QUIT evs)
                 [[GameInterpreter.OTHER 1]]).
  { constructor; [|constructor]. intros [H|[]]. discriminate H. }
  assert (Hq : In GameInterpreter.QUIT
                 [GameInterpreter.OTHER 2; GameInterpreter.QUIT;
                  GameInterpreter.OTHER 3])
    by (right; left; reflexivity).
  split; [exact Hb|]. split; [exact Hq|].
  exact (proj1 game_loop_runs_until_quit [[GameInterpreter.OTHER 1]]
           [GameInterpreter.OTHER 2; GameInterpreter.QUIT;
            GameInterpreter.OTHER 3] [[]] Hb Hq).
Defined.
